(** * Book-club recommender: the constraint filter and the scoring engine

    A shallow embedding of [recommender.py] together with the queries of
    [database.py] it calls.  The PostgreSQL store is an explicit value
    ([Database], one list of rows per table) that every query reads; Python
    numbers are either unbounded integers or binary64 floats, and each
    arithmetic operation is sequenced in a small outcome monad that records
    the exceptions Python would raise.

    Binary64 values are represented by the exact rational they denote (always
    in lowest terms).  Every float operation computes the exact rational
    result and rounds it with [rnd] (round to nearest, ties to even, 53-bit
    significand, gradual underflow).  The sign of zero is not represented;
    no operation of the recommender observes it. *)

From Stdlib Require Import ZArith QArith Qround Qabs Qpower Qminmax Lia Lqa.
From Stdlib Require Import Sorting.Sorted Sorting.Permutation.
From Stdlib Require Import Floats.PrimFloat Floats.FloatOps Floats.SpecFloat.
From stdpp Require Import base option list gmap strings.

Set Warnings "-inexact-float".
Local Open Scope Q_scope.

(* ===================================================================== *)
(** ** Outcomes of Python evaluation *)
(* ===================================================================== *)

(** The built-in exceptions the arithmetic and indexing of the recommender
    could raise. *)
Inductive pyexn : Set :=
| ZeroDivisionError
| IndexError
| OverflowError.

(** [Ok a]: evaluation returns [a].  [Raise e]: Python raises [e].
    [OutOfRange]: a float operation overflowed binary64; Python would go on
    with an infinity, which this development does not represent. *)
Inductive outcome (A : Type) : Type :=
| Ok (a : A)
| Raise (e : pyexn)
| OutOfRange.

Arguments Ok {A} a.
Arguments Raise {A} e.
Arguments OutOfRange {A}.

#[export] Instance outcome_ret : MRet outcome := fun _ a => Ok a.
#[export] Instance outcome_bind : MBind outcome := fun _ _ f m =>
  match m with
  | Ok a => f a
  | Raise e => Raise e
  | OutOfRange => OutOfRange
  end.
#[export] Instance outcome_fmap : FMap outcome := fun _ _ f m =>
  match m with
  | Ok a => Ok (f a)
  | Raise e => Raise e
  | OutOfRange => OutOfRange
  end.

(* ===================================================================== *)
(** ** Binary64 rounding on exact rationals *)
(* ===================================================================== *)

(** [ilog2 x] is the integer [e] with [2^e <= x < 2^(e+1)], for [0 < x]. *)
Definition ilog2 (x : Q) : Z :=
  let e0 := (Z.log2 (Qnum x) - Z.log2 (Zpos (Qden x)))%Z in
  if Qle_bool (2 ^ e0) x then e0 else (e0 - 1)%Z.

(** Nearest integer, ties to the even one. *)
Definition round_half_even (x : Q) : Z :=
  let f := Qfloor x in
  match Qcompare (x - inject_Z f) (1 # 2) with
  | Lt => f
  | Gt => (f + 1)%Z
  | Eq => if Z.even f then f else (f + 1)%Z
  end.

(** Exponent of the unit in the last place of the binade that holds [x]:
    53 significant bits, and never below the subnormal spacing [2^-1074]. *)
Definition ulp_exp (x : Q) : Z := Z.max (ilog2 (Qabs x) - 52) (-1074).

(** Round to nearest binary64, ties to even, with unbounded exponent above. *)
Definition rnd (x : Q) : Q :=
  let q := ulp_exp x in
  Qred (inject_Z (round_half_even (x / 2 ^ q)) * 2 ^ q).

(** Magnitudes from [2^1024] on are beyond the largest finite binary64. *)
Definition overflows (r : Q) : bool := Qle_bool (2 ^ 1024) (Qabs r).

(** A float operation whose exact result is [x]. *)
Definition fl (x : Q) : outcome Q :=
  let r := rnd x in
  if overflows r then OutOfRange else Ok r.

(** A float literal of the source text, written as its decimal fraction. *)
Definition float_lit (x : Q) : Q := rnd x.

(** Reading of a kernel binary64 value as a rational, to replay concrete
    computations on the hardware floats. *)
Definition SF2Q (s : spec_float) : option Q :=
  match s with
  | S754_zero _ => Some 0
  | S754_finite sg m e =>
      Some (Qred ((if sg then -1 else 1) * inject_Z (Zpos m) * 2 ^ e))
  | _ => None
  end.

Definition prim2Q (f : PrimFloat.float) : option Q := SF2Q (Prim2SF f).

(* ===================================================================== *)
(** ** Python numbers: [int] and [float] *)
(* ===================================================================== *)

Inductive pynum : Type :=
| PInt (z : Z)
| PFloat (f : Q).

(** The exact value of a number. *)
Definition num_val (a : pynum) : Q :=
  match a with
  | PInt z => inject_Z z
  | PFloat f => f
  end.

(** [float(z)] as the binary operators apply it to an int operand:
    correctly rounded, [OverflowError] when too large. *)
Definition float_of_int (z : Z) : outcome Q :=
  let r := rnd (inject_Z z) in
  if overflows r then Raise OverflowError else Ok r.

Definition to_float (a : pynum) : outcome Q :=
  match a with
  | PInt z => float_of_int z
  | PFloat f => Ok f
  end.

(** [a + b] *)
Definition py_add (a b : pynum) : outcome pynum :=
  match a, b with
  | PInt x, PInt y => Ok (PInt (x + y))
  | _, _ => x ← to_float a; y ← to_float b; PFloat <$> fl (x + y)
  end.

(** [a - b] *)
Definition py_sub (a b : pynum) : outcome pynum :=
  match a, b with
  | PInt x, PInt y => Ok (PInt (x - y))
  | _, _ => x ← to_float a; y ← to_float b; PFloat <$> fl (x - y)
  end.

(** [a * b] *)
Definition py_mul (a b : pynum) : outcome pynum :=
  match a, b with
  | PInt x, PInt y => Ok (PInt (x * y))
  | _, _ => x ← to_float a; y ← to_float b; PFloat <$> fl (x * y)
  end.

(** [a / b], true division: on two ints the correctly rounded quotient. *)
Definition py_truediv (a b : pynum) : outcome pynum :=
  match a, b with
  | PInt x, PInt y =>
      if bool_decide (y = 0%Z) then Raise ZeroDivisionError
      else
        let r := rnd (inject_Z x / inject_Z y) in
        if overflows r then Raise OverflowError else Ok (PFloat r)
  | _, _ =>
      x ← to_float a; y ← to_float b;
      if Qeq_bool y 0 then Raise ZeroDivisionError
      else PFloat <$> fl (x / y)
  end.

(** [abs(a)] *)
Definition py_abs (a : pynum) : pynum :=
  match a with
  | PInt z => PInt (Z.abs z)
  | PFloat f => PFloat (Qabs f)
  end.

(** [a < b]; an int and a float are compared by exact value. *)
Definition py_lt (a b : pynum) : bool := negb (Qle_bool (num_val b) (num_val a)).

(** [max(a, b)]: the first argument unless the second is strictly larger. *)
Definition py_max (a b : pynum) : pynum := if py_lt a b then b else a.

(** [round(a, 2)]: the decimal with two places nearest to the exact value
    (ties to even), read back as the nearest float; an int is returned
    unchanged. *)
Definition py_round2 (a : pynum) : outcome pynum :=
  match a with
  | PInt z => Ok (PInt z)
  | PFloat f => PFloat <$> fl (inject_Z (round_half_even (f * 100)) / 100)
  end.

(** [l[i]] with Python's negative indices. *)
Definition py_getitem {A} (l : list A) (i : Z) : outcome A :=
  let j := if bool_decide (i < 0)%Z then (i + Z.of_nat (length l))%Z else i in
  if bool_decide (j < 0)%Z then Raise IndexError
  else match l !! Z.to_nat j with
       | Some x => Ok x
       | None => Raise IndexError
       end.

(** [l[:n]] *)
Definition py_slice_to {A} (l : list A) (n : Z) : list A :=
  if bool_decide (0 <= n)%Z then take (Z.to_nat n) l
  else take (Z.to_nat (Z.of_nat (length l) + n)) l.

(** A stable sort that only asks [lt], as [list.sort] and an [ORDER BY] on
    one column do: [x] goes in front of the first element that is not
    strictly below it. *)
Fixpoint sort_insert {A} (lt : A -> A -> bool) (x : A) (l : list A) : list A :=
  match l with
  | [] => [x]
  | y :: l' => if lt y x then y :: sort_insert lt x l' else x :: y :: l'
  end.

Fixpoint stable_sort {A} (lt : A -> A -> bool) (l : list A) : list A :=
  match l with
  | [] => []
  | x :: l' => sort_insert lt x (stable_sort lt l')
  end.

(** [l.sort(key=key, reverse=reverse)]: with [reverse] the list is reversed,
    sorted ascending and reversed again, which keeps equal keys in their
    original order. *)
Definition py_sort {A} (key : A -> pynum) (reverse : bool) (l : list A) : list A :=
  let lt x y := py_lt (key x) (key y) in
  if reverse then list.reverse (stable_sort lt (list.reverse l)) else stable_sort lt l.

(* ===================================================================== *)
(** ** database.py: the store and its queries *)
(* ===================================================================== *)

(** Rows of the five tables of [init_db].  Left out are the columns no
    query reads: the timestamps and the [id] of the preference and veto
    rows.  [INTEGER] columns are [Z]; [wf_db] below states their 32-bit
    range.  [preferred_length] is taken to be set: the column admits NULL,
    but [add_member] is given an [int] by each of its callers. *)
Record members_row := {
  mr_id : Z;
  mr_name : string;
  mr_preferred_length : Z
}.

Record member_genre_preferences_row := {
  gp_member_id : Z;
  gp_genre : string
}.

Record books_row := {
  br_id : Z;
  br_title : string;
  br_author : string;
  br_genre : string;
  br_page_count : Z;
  br_suggested_by : option Z
}.

Record reading_history_row := {
  hr_id : Z;
  hr_book_id : Z;
  hr_round_number : Z
}.

Record vetoes_row := {
  vr_member_id : Z;
  vr_genre : string;
  vr_round_number : Z
}.

Record Database := {
  tbl_members : list members_row;
  tbl_member_genre_preferences : list member_genre_preferences_row;
  tbl_books : list books_row;
  tbl_reading_history : list reading_history_row;
  tbl_vetoes : list vetoes_row
}.

(** The dictionaries the queries return. *)
Record member := {
  m_id : Z;
  m_name : string;
  m_preferred_length : Z;
  m_liked_genres : list string
}.

Record book := {
  b_id : Z;
  b_title : string;
  b_author : string;
  b_genre : string;
  b_page_count : Z;
  b_suggested_by : option Z;
  b_suggested_by_name : option string
}.

Record history_entry := {
  e_id : Z;
  e_book_id : Z;
  e_round_number : Z;
  e_title : string;
  e_author : string;
  e_genre : string;
  e_page_count : Z
}.

(** [ORDER BY key DESC]: rows with equal keys stay in the order the join
    produced them (SQL leaves that order open; the model fixes it). *)
Definition order_by_desc {A} (key : A -> Z) (rows : list A) : list A :=
  stable_sort (fun x y => bool_decide (key y < key x)%Z) rows.

(** [SELECT * FROM members], then the liked genres of each member.
    Neither query has an [ORDER BY]: the model lists rows in table order,
    and what is stated of the writers' effect on it is up to that order. *)
Definition get_members (db : Database) : list member :=
  (fun r =>
     {| m_id := mr_id r;
        m_name := mr_name r;
        m_preferred_length := mr_preferred_length r;
        m_liked_genres :=
          gp_genre <$>
            filter (fun p => gp_member_id p = mr_id r)
                   (tbl_member_genre_preferences db) |})
  <$> tbl_members db.

Definition mk_book (b : books_row) (by_name : option string) : book :=
  {| b_id := br_id b;
     b_title := br_title b;
     b_author := br_author b;
     b_genre := br_genre b;
     b_page_count := br_page_count b;
     b_suggested_by := br_suggested_by b;
     b_suggested_by_name := by_name |}.

(** [books b LEFT JOIN members m ON b.suggested_by = m.id].  The query
    has no [ORDER BY]: the model lists the rows in the order of [books]. *)
Definition get_books (db : Database) : list book :=
  b ← tbl_books db;
  match filter (fun m => br_suggested_by b = Some (mr_id m)) (tbl_members db) with
  | [] => [mk_book b None]
  | ms => (fun m => mk_book b (Some (mr_name m))) <$> ms
  end.

Definition mk_entry (rh : reading_history_row) (b : books_row) : history_entry :=
  {| e_id := hr_id rh;
     e_book_id := hr_book_id rh;
     e_round_number := hr_round_number rh;
     e_title := br_title b;
     e_author := br_author b;
     e_genre := br_genre b;
     e_page_count := br_page_count b |}.

(** [reading_history rh JOIN books b ON rh.book_id = b.id] *)
Definition history_join_books (db : Database) : list history_entry :=
  rh ← tbl_reading_history db;
  mk_entry rh <$> filter (fun b => hr_book_id rh = br_id b) (tbl_books db).

(** [... ORDER BY rh.round_number DESC] *)
Definition get_reading_history (db : Database) : list history_entry :=
  order_by_desc e_round_number (history_join_books db).

(** [SELECT MAX(round_number)]; [(result[0] or 0) + 1]. *)
Definition get_current_round (db : Database) : Z :=
  let max_round :=
    foldr (fun r acc =>
             match acc with
             | None => Some (hr_round_number r)
             | Some m => Some (Z.max (hr_round_number r) m)
             end) None (tbl_reading_history db) in
  match max_round with
  | None => 0 + 1
  | Some m => (if bool_decide (m = 0) then 0 else m) + 1
  end%Z.

(** [SELECT genre FROM vetoes WHERE round_number = %s].  The query has no
    [ORDER BY]: the model lists the rows in table order. *)
Definition get_vetoes (db : Database) (round_number : Z) : list string :=
  vr_genre <$> filter (fun v => vr_round_number v = round_number) (tbl_vetoes db).

(** [SELECT b.genre ... ORDER BY rh.round_number DESC LIMIT %s]; which of
    several rows with the same round number come first is the model's
    choice, as in [order_by_desc]. *)
Definition get_last_n_genres (db : Database) (n : nat) : list string :=
  e_genre <$> take n (order_by_desc e_round_number (history_join_books db)).

(** The schema's column types: [page_count] and [preferred_length] are
    PostgreSQL [INTEGER]s. *)
Definition int4 (z : Z) : Prop := (- 2 ^ 31 <= z < 2 ^ 31)%Z.

Definition wf_book (b : book) : Prop := int4 (b_page_count b).
Definition wf_member (m : member) : Prop := int4 (m_preferred_length m).

Definition wf_db (db : Database) : Prop :=
  Forall (fun b => int4 (br_page_count b)) (tbl_books db) /\
  Forall (fun m => int4 (mr_preferred_length m)) (tbl_members db).

(* ===================================================================== *)
(** ** recommender.py *)
(* ===================================================================== *)

(** [WEIGHTS] *)
Record weights := {
  w_genre_match : Q;
  w_length_preference : Q;
  w_member_interest : Q;
  w_diversity_bonus : Q
}.

Definition WEIGHTS : weights :=
  {| w_genre_match := float_lit (4 # 10);
     w_length_preference := float_lit (2 # 10);
     w_member_interest := float_lit (3 # 10);
     w_diversity_bonus := float_lit (1 # 10) |}.

(** The weights added up with [+] from the int [0], in the order the
    dictionary lists them: [0 + 0.4 + 0.2 + 0.3 + 0.1].  (The program never
    adds them up; the built-in [sum] of CPython 3.12 and later compensates
    the rounding and is not what this chain models.) *)
Definition sum_weights (w : weights) : outcome pynum :=
  s ← py_add (PInt 0) (PFloat (w_genre_match w));
  s ← py_add s (PFloat (w_length_preference w));
  s ← py_add s (PFloat (w_member_interest w));
  py_add s (PFloat (w_diversity_bonus w)).

(** The [for book in all_books] loop of [apply_hard_constraints]. *)
Fixpoint hard_constraints_loop (read_book_ids : gset Z)
    (last_2_genres vetoed_genres : list string)
    (all_books eligible : list book) : list book :=
  match all_books with
  | [] => eligible
  | book :: rest =>
      if bool_decide (b_id book ∈ read_book_ids) then
        hard_constraints_loop read_book_ids last_2_genres vetoed_genres rest eligible
      else if bool_decide (b_genre book ∈ last_2_genres) then
        hard_constraints_loop read_book_ids last_2_genres vetoed_genres rest eligible
      else if bool_decide (b_genre book ∈ vetoed_genres) then
        hard_constraints_loop read_book_ids last_2_genres vetoed_genres rest eligible
      else
        hard_constraints_loop read_book_ids last_2_genres vetoed_genres rest
          (eligible ++ [book])
  end.

Definition apply_hard_constraints (db : Database) (all_books : list book)
    (reading_history : list history_entry) (current_round : Z) : list book :=
  let read_book_ids : gset Z := list_to_set (e_book_id <$> reading_history) in
  let last_2_genres := get_last_n_genres db 2 in
  let vetoed_genres := get_vetoes db current_round in
  hard_constraints_loop read_book_ids last_2_genres vetoed_genres all_books [].

(** [sum(1 for member in members if book['genre'] in member['liked_genres'])] *)
Definition members_who_like (book : book) (members : list member) : Z :=
  Z.of_nat (length (filter (fun m => b_genre book ∈ m_liked_genres m) members)).

Definition calculate_genre_match (book : book) (members : list member)
    : outcome pynum :=
  match members with
  | [] => Ok (PFloat (float_lit 50))
  | _ =>
      ratio ← py_truediv (PInt (members_who_like book members))
                         (PInt (Z.of_nat (length members)));
      py_mul ratio (PInt 100)
  end.

Definition calculate_length_preference (book : book) (members : list member)
    : outcome pynum :=
  match members with
  | [] => Ok (PFloat (float_lit 50))
  | _ =>
      let preferred_lengths :=
        stable_sort Z.ltb (m_preferred_length <$> members) in
      let n := Z.of_nat (length preferred_lengths) in
      ideal_length ←
        (if bool_decide (n mod 2 = 0)%Z then
           lo ← py_getitem preferred_lengths (n / 2 - 1);
           hi ← py_getitem preferred_lengths (n / 2);
           py_truediv (PInt (lo + hi)) (PInt 2)
         else
           PInt <$> py_getitem preferred_lengths (n / 2));
      diff ← py_sub (PInt (b_page_count book)) ideal_length;
      let distance := py_abs diff in
      penalty ← py_truediv distance (PInt 5);
      rest ← py_sub (PInt 100) penalty;
      let score := py_max (PInt 0) rest in
      Ok score
  end.

Definition calculate_member_interest (book : book) (members : list member)
    : pynum :=
  match b_suggested_by book with
  | Some _ => PFloat (float_lit 100)
  | None => PFloat (float_lit 50)
  end.

(** The [for entry in reading_history] loop with its [break]: [Some k] when
    the loop breaks with [books_since = k], [None] when it runs to its
    [else] branch. *)
Fixpoint books_since_loop (genre : string) (reading_history : list history_entry)
    (books_since : Z) : option Z :=
  match reading_history with
  | [] => None
  | entry :: rest =>
      if bool_decide (e_genre entry = genre) then Some books_since
      else books_since_loop genre rest (books_since + 1)
  end.

Definition calculate_diversity_bonus (book : book)
    (reading_history : list history_entry) : pynum :=
  match reading_history with
  | [] => PFloat (float_lit 100)
  | _ =>
      match books_since_loop (b_genre book) reading_history 0 with
      | None => PFloat (float_lit 100)
      | Some books_since =>
          if bool_decide (books_since >= 5)%Z then PFloat (float_lit 100)
          else if bool_decide (books_since >= 3)%Z then PFloat (float_lit 70)
          else PFloat (float_lit 0)
      end
  end.

(** [breakdown] *)
Record score_breakdown := {
  genre_match : pynum;
  length_preference : pynum;
  member_interest : pynum;
  diversity_bonus : pynum
}.

Definition calculate_book_score (book : book) (members : list member)
    (reading_history : list history_entry) : outcome (pynum * score_breakdown) :=
  genre_match ← calculate_genre_match book members;
  length_score ← calculate_length_preference book members;
  let interest_score := calculate_member_interest book members in
  let diversity := calculate_diversity_bonus book reading_history in
  let breakdown :=
    {| genre_match := genre_match;
       length_preference := length_score;
       member_interest := interest_score;
       diversity_bonus := diversity |} in
  t1 ← py_mul (PFloat (w_genre_match WEIGHTS)) genre_match;
  t2 ← py_mul (PFloat (w_length_preference WEIGHTS)) length_score;
  s12 ← py_add t1 t2;
  t3 ← py_mul (PFloat (w_member_interest WEIGHTS)) interest_score;
  s123 ← py_add s12 t3;
  t4 ← py_mul (PFloat (w_diversity_bonus WEIGHTS)) diversity;
  total_score ← py_add s123 t4;
  rounded ← py_round2 total_score;
  Ok (rounded, breakdown).

(** [{**book, 'score': score, 'score_breakdown': breakdown}] *)
Record scored_book := {
  sb_book : book;
  sb_score : pynum;
  sb_score_breakdown : score_breakdown
}.

(** The [for book in eligible_books] loop of [get_recommendations]. *)
Fixpoint score_loop (members : list member) (reading_history : list history_entry)
    (eligible_books : list book) (scored_books : list scored_book)
    : outcome (list scored_book) :=
  match eligible_books with
  | [] => Ok scored_books
  | book :: rest =>
      '(score, breakdown) ← calculate_book_score book members reading_history;
      score_loop members reading_history rest
        (scored_books ++
           [{| sb_book := book; sb_score := score;
               sb_score_breakdown := breakdown |}])
  end.

Definition get_recommendations (db : Database) (top_n : Z)
    : outcome (list scored_book) :=
  let all_books := get_books db in
  let members := get_members db in
  let reading_history := get_reading_history db in
  let current_round := get_current_round db in
  let eligible_books :=
    apply_hard_constraints db all_books reading_history current_round in
  match eligible_books with
  | [] => Ok []
  | _ =>
      scored_books ← score_loop members reading_history eligible_books [];
      let scored_books := py_sort sb_score true scored_books in
      Ok (py_slice_to scored_books top_n)
  end.

(* ===================================================================== *)
(** ** Notions the statements below are phrased with *)
(* ===================================================================== *)

(** The order a stable sort with comparison [lt] produces: [x] may stand
    before [y] when [y] is not strictly below [x]. *)
Definition sort_le {A} (lt : A -> A -> bool) (x y : A) : Prop := lt y x = false.

(** [top] holds the (up to) two history entries with the highest round
    numbers: together with some [rest] it makes up the history, and no entry
    of [rest] has a higher round number than one of [top]. *)
Definition most_recent_two (top history : list history_entry) : Prop :=
  ∃ rest,
    top ++ rest ≡ₚ history /\
    length top = Nat.min 2 (length history) /\
    ∀ t r, t ∈ top -> r ∈ rest -> (e_round_number r <= e_round_number t)%Z.

(** The three tests of the filter loop on one book. *)
Definition passes_hard_constraints (read_book_ids : gset Z)
    (last_2_genres vetoed_genres : list string) (b : book) : Prop :=
  (b_id b ∉ read_book_ids) /\ (b_genre b ∉ last_2_genres) /\
  (b_genre b ∉ vetoed_genres).

#[export] Instance passes_hard_constraints_dec ids last vet b :
  Decision (passes_hard_constraints ids last vet b).
Proof. unfold passes_hard_constraints. apply _. Defined.

(** Number of entries in front of the first entry of the given genre,
    counted from the head of the history; [None] when no entry has it. *)
Fixpoint recency_gap (genre : string) (history : list history_entry) : option nat :=
  match history with
  | [] => None
  | e :: rest =>
      if decide (e_genre e = genre) then Some 0%nat
      else S <$> recency_gap genre rest
  end.

(** The step function of the diversity bonus. *)
Definition diversity_tier (k : nat) : pynum :=
  if decide (5 <= k)%nat then PFloat 100
  else if decide (3 <= k)%nat then PFloat 70
  else PFloat 0.

(** Median of a sorted list: the middle value, or the mean of the two
    middle values when the length is even. *)
Definition median_of (sorted : list Z) : Q :=
  let n := length sorted in
  if Nat.even n then
    (inject_Z (sorted !!! (n / 2 - 1)%nat) + inject_Z (sorted !!! (n / 2)%nat)) / 2
  else inject_Z (sorted !!! (n / 2)%nat).

(** [max(0, 100 - |page_count - median| / 5)] in binary64: the distance is
    exact, the division and the subtraction from 100 each round once. *)
Definition length_fit (page_count : Z) (median : Q) : Q :=
  Qmax 0 (rnd (100 - rnd (Qabs (inject_Z page_count - median) / 5))).

(** [round(x, 2)] on a float. *)
Definition round_2dp (x : Q) : Q :=
  rnd (inject_Z (round_half_even (x * 100)) / 100).

(** [0.4*a + 0.2*b + 0.3*c + 0.1*d] in binary64, added left to right. *)
Definition weighted_total (a b c d : Q) : Q :=
  rnd (rnd (rnd (rnd (float_lit (4 # 10) * a) + rnd (float_lit (2 # 10) * b))
            + rnd (float_lit (3 # 10) * c))
       + rnd (float_lit (1 # 10) * d)).

Definition in_score_range (a : pynum) : Prop := 0 <= num_val a <= 100.

(** [sb] is candidate [b] with the score and breakdown the engine gives it. *)
Definition scored_from (members : list member) (history : list history_entry)
    (b : book) (sb : scored_book) : Prop :=
  sb_book sb = b /\
  calculate_book_score b members history = Ok (sb_score sb, sb_score_breakdown sb).

(** The eligible set of a recommendation request. *)
Definition eligible_books (db : Database) : list book :=
  apply_hard_constraints db (get_books db) (get_reading_history db)
    (get_current_round db).

(** Best first: no entry scores above one that precedes it. *)
Definition ranked_desc (l : list scored_book) : Prop :=
  StronglySorted (fun x y => num_val (sb_score y) <= num_val (sb_score x)) l.

#[export] Instance Qeq_decision (x y : Q) : Decision (x == y) := Qeq_dec x y.

(** The entries of [l] whose total score equals [s], in the order of [l]. *)
Definition with_score (s : Q) (l : list scored_book) : list scored_book :=
  filter (fun sb => num_val (sb_score sb) == s) l.

(* ===================================================================== *)
(** ** Concrete data for the scenarios *)
(* ===================================================================== *)

Definition mk_history_entry (genre : string) (round_number : Z) : history_entry :=
  {| e_id := round_number; e_book_id := round_number;
     e_round_number := round_number; e_title := ""; e_author := "";
     e_genre := genre; e_page_count := 300 |}.

Definition mk_candidate (genre : string) (page_count : Z)
    (suggested_by : option Z) : book :=
  {| b_id := 100; b_title := ""; b_author := ""; b_genre := genre;
     b_page_count := page_count; b_suggested_by := suggested_by;
     b_suggested_by_name := None |}.

Definition mk_member (preferred_length : Z) (liked_genres : list string) : member :=
  {| m_id := preferred_length; m_name := "";
     m_preferred_length := preferred_length;
     m_liked_genres := liked_genres |}.

(** Two participants and one candidate. *)
Definition scenario_members : list member :=
  [mk_member 350 ["Fantasy"]; mk_member 280 ["Mystery"]].

Definition scenario_book : book := mk_candidate "Fantasy" 310 None.

(** A small store: four books, one read in round 1, one veto for round 2. *)
Definition demo_db : Database :=
  {| tbl_members :=
       [ {| mr_id := 1; mr_name := "Alice"; mr_preferred_length := 350 |};
         {| mr_id := 2; mr_name := "Bob"; mr_preferred_length := 280 |} ];
     tbl_member_genre_preferences :=
       [ {| gp_member_id := 1; gp_genre := "Fantasy" |};
         {| gp_member_id := 2; gp_genre := "Mystery" |} ];
     tbl_books :=
       [ {| br_id := 1; br_title := "Dune"; br_author := "Frank Herbert";
            br_genre := "Science Fiction"; br_page_count := 688;
            br_suggested_by := Some 1%Z |};
         {| br_id := 2; br_title := "Gone Girl"; br_author := "Gillian Flynn";
            br_genre := "Mystery"; br_page_count := 432;
            br_suggested_by := None |};
         {| br_id := 3; br_title := "The Fifth Season"; br_author := "N.K. Jemisin";
            br_genre := "Fantasy"; br_page_count := 512;
            br_suggested_by := Some 1%Z |};
         {| br_id := 4; br_title := "The Silent Patient";
            br_author := "Alex Michaelides";
            br_genre := "Thriller"; br_page_count := 336;
            br_suggested_by := Some 2%Z |} ];
     tbl_reading_history :=
       [ {| hr_id := 1; hr_book_id := 2; hr_round_number := 1 |} ];
     tbl_vetoes :=
       [ {| vr_member_id := 1; vr_genre := "Thriller"; vr_round_number := 2 |} ] |}.

(** What the interface shows of a ranking: title and total score. *)
Definition titles_and_scores (l : list scored_book) : list (string * pynum) :=
  (fun sb => (b_title (sb_book sb), sb_score sb)) <$> l.

(* ===================================================================== *)
(** ** database.py: the writers *)
(* ===================================================================== *)

(** The tables together with the next value of each table's [SERIAL]
    sequence. *)
Record Store := {
  st_db : Database;
  next_member_id : Z;
  next_preference_id : Z;
  next_book_id : Z;
  next_history_id : Z;
  next_veto_id : Z
}.

(** Exceptions of the code that writes the store.  [DataError]: PostgreSQL
    refuses a value outside the range of an [INTEGER] column, or a [SERIAL]
    sequence has run out.  [IntegrityError]: a [FOREIGN KEY] clause of
    [init_db] has no row to point to.  psycopg2 raises both from [execute].
    [StopIteration]: [next] on an exhausted generator. *)
Inductive store_exn : Set :=
| DataError
| IntegrityError
| StopIteration.

(** [Done a]: the statements ran and were committed.  [Fails e]: [e] was
    raised before [commit], so the tables stay as they were; a sequence
    value the failed statement has drawn is lost, which the model does not
    follow: [Fails] ends the modelled run, and what is stated of the
    writers is stated of committed calls from any store.  The connection is
    taken to be available, as for the queries. *)
Inductive db_result (A : Type) : Type :=
| Done (a : A)
| Fails (e : store_exn).

Arguments Done {A} a.
Arguments Fails {A} e.

#[export] Instance db_result_ret : MRet db_result := fun _ a => Done a.

#[export] Instance db_result_bind : MBind db_result := fun _ _ f m =>
  match m with
  | Done a => f a
  | Fails e => Fails e
  end.

#[export] Instance int4_dec (z : Z) : Decision (int4 z).
Proof. unfold int4. apply _. Defined.

(** A nullable [INTEGER] value. *)
Definition int4_or_null (v : option Z) : Prop :=
  match v with None => True | Some z => int4 z end.

#[export] Instance int4_or_null_dec (v : option Z) : Decision (int4_or_null v).
Proof. destruct v; simpl; apply _. Defined.

(** A [SERIAL] sequence stops at 2^31 - 1. *)
Definition in_sequence (next : Z) : Prop := (next < 2 ^ 31)%Z.

#[export] Instance in_sequence_dec (z : Z) : Decision (in_sequence z).
Proof. unfold in_sequence. apply _. Defined.

(** The keys of [members] and of [books]. *)
Definition member_ids (db : Database) : list Z := mr_id <$> tbl_members db.

Definition book_ids (db : Database) : list Z := br_id <$> tbl_books db.

(** A nullable reference to [members(id)]. *)
Definition member_or_null (db : Database) (v : option Z) : Prop :=
  match v with None => True | Some m => m ∈ member_ids db end.

#[export] Instance member_or_null_dec (db : Database) (v : option Z)
  : Decision (member_or_null db v).
Proof. destruct v; simpl; apply _. Defined.

(** The tables as [init_db] creates them. *)
Definition empty_db : Database :=
  {| tbl_members := []; tbl_member_genre_preferences := []; tbl_books := [];
     tbl_reading_history := []; tbl_vetoes := [] |}.

(** [reset_database]: every table is dropped with its sequence, then
    [init_db] creates them again. *)
Definition reset_database (st : Store) : Store :=
  {| st_db := empty_db; next_member_id := 1; next_preference_id := 1;
     next_book_id := 1; next_history_id := 1; next_veto_id := 1 |}.

(** [add_member]: one row in [members], then one preference row per liked
    genre. *)
Definition add_member (st : Store) (name : string) (preferred_length : Z)
    (liked_genres : list string) : db_result (Z * Store) :=
  let db := st_db st in
  let member_id := next_member_id st in
  if bool_decide (int4 preferred_length) then
    if bool_decide (in_sequence member_id /\
                    (liked_genres = [] \/
                     in_sequence (next_preference_id st +
                                  Z.of_nat (length liked_genres) - 1))) then
      Done (member_id,
            {| st_db :=
                 {| tbl_members :=
                      tbl_members db ++
                      [{| mr_id := member_id; mr_name := name;
                          mr_preferred_length := preferred_length |}];
                    tbl_member_genre_preferences :=
                      tbl_member_genre_preferences db ++
                      ((fun genre =>
                          {| gp_member_id := member_id; gp_genre := genre |})
                         <$> liked_genres);
                    tbl_books := tbl_books db;
                    tbl_reading_history := tbl_reading_history db;
                    tbl_vetoes := tbl_vetoes db |};
               next_member_id := member_id + 1;
               next_preference_id :=
                 next_preference_id st + Z.of_nat (length liked_genres);
               next_book_id := next_book_id st;
               next_history_id := next_history_id st;
               next_veto_id := next_veto_id st |})
    else Fails DataError
  else Fails DataError.

(** [add_book] *)
Definition add_book (st : Store) (title author genre : string) (page_count : Z)
    (suggested_by : option Z) : db_result (Z * Store) :=
  let db := st_db st in
  let book_id := next_book_id st in
  if bool_decide (int4 page_count /\ int4_or_null suggested_by) then
    if bool_decide (in_sequence book_id) then
      if bool_decide (member_or_null db suggested_by) then
        Done (book_id,
              {| st_db :=
                   {| tbl_members := tbl_members db;
                      tbl_member_genre_preferences :=
                        tbl_member_genre_preferences db;
                      tbl_books :=
                        tbl_books db ++
                        [{| br_id := book_id; br_title := title;
                            br_author := author; br_genre := genre;
                            br_page_count := page_count;
                            br_suggested_by := suggested_by |}];
                      tbl_reading_history := tbl_reading_history db;
                      tbl_vetoes := tbl_vetoes db |};
                 next_member_id := next_member_id st;
                 next_preference_id := next_preference_id st;
                 next_book_id := book_id + 1;
                 next_history_id := next_history_id st;
                 next_veto_id := next_veto_id st |})
      else Fails IntegrityError
    else Fails DataError
  else Fails DataError.

(** [add_veto]: the member's veto for the round is deleted, then the new
    one is inserted. *)
Definition add_veto (st : Store) (member_id : Z) (genre : string)
    (round_number : Z) : db_result Store :=
  let db := st_db st in
  let kept :=
    filter (fun v => ¬ (vr_member_id v = member_id /\
                        vr_round_number v = round_number)) (tbl_vetoes db) in
  if bool_decide (int4 member_id /\ int4 round_number) then
    if bool_decide (in_sequence (next_veto_id st)) then
      if bool_decide (member_id ∈ member_ids db) then
        Done {| st_db :=
                  {| tbl_members := tbl_members db;
                     tbl_member_genre_preferences :=
                       tbl_member_genre_preferences db;
                     tbl_books := tbl_books db;
                     tbl_reading_history := tbl_reading_history db;
                     tbl_vetoes :=
                       kept ++ [{| vr_member_id := member_id; vr_genre := genre;
                                   vr_round_number := round_number |}] |};
                next_member_id := next_member_id st;
                next_preference_id := next_preference_id st;
                next_book_id := next_book_id st;
                next_history_id := next_history_id st;
                next_veto_id := next_veto_id st + 1 |}
      else Fails IntegrityError
    else Fails DataError
  else Fails DataError.

(** [mark_book_as_read] *)
Definition mark_book_as_read (st : Store) (book_id round_number : Z)
    : db_result Store :=
  let db := st_db st in
  let history_id := next_history_id st in
  if bool_decide (int4 book_id /\ int4 round_number) then
    if bool_decide (in_sequence history_id) then
      if bool_decide (book_id ∈ book_ids db) then
        Done {| st_db :=
                  {| tbl_members := tbl_members db;
                     tbl_member_genre_preferences :=
                       tbl_member_genre_preferences db;
                     tbl_books := tbl_books db;
                     tbl_reading_history :=
                       tbl_reading_history db ++
                       [{| hr_id := history_id; hr_book_id := book_id;
                           hr_round_number := round_number |}];
                     tbl_vetoes := tbl_vetoes db |};
                next_member_id := next_member_id st;
                next_preference_id := next_preference_id st;
                next_book_id := next_book_id st;
                next_history_id := history_id + 1;
                next_veto_id := next_veto_id st |}
      else Fails IntegrityError
    else Fails DataError
  else Fails DataError.

(* ===================================================================== *)
(** ** recommender.py: the genres of the pool *)
(* ===================================================================== *)

(** [sorted(list(set(xs)))] on strings: the distinct elements in increasing
    order.  Python compares strings code point by code point; on the UTF-8
    bytes of the model that is the bytewise order of [String.ltb]. *)
Definition py_sorted_set (xs : list string) : list string :=
  stable_sort String.ltb (elements (list_to_set xs : gset string)).

(** [get_genres_from_pool] *)
Definition get_genres_from_pool (db : Database) : list string :=
  let books := get_books db in
  py_sorted_set (b_genre <$> books).

(* ===================================================================== *)
(** ** demo_data.py *)
(* ===================================================================== *)

(** [next(x for x in xs if ...)] on the elements that pass the test. *)
Definition py_next {A} (passing : list A) : db_result A :=
  match passing with
  | x :: _ => Done x
  | [] => Fails StopIteration
  end.

(** [members] of [load_demo_data]: name, preferred length, liked genres. *)
Definition demo_members : list (string * Z * list string) :=
  [ ("Alice", 350%Z, ["Fantasy"; "Science Fiction"; "Thriller"]);
    ("Bob", 280%Z, ["Mystery"; "Historical Fiction"; "Thriller"]);
    ("Carol", 300%Z, ["Fantasy"; "Historical Fiction"; "Contemporary Fiction"]);
    ("Dan", 320%Z, ["Science Fiction"; "Non-Fiction"; "Fantasy"]) ].

(** [books] of [load_demo_data]: title, author, genre, pages, suggested by. *)
Definition demo_books : list (string * string * string * Z * option string) :=
  [ ("Project Hail Mary", "Andy Weir", "Science Fiction", 476%Z, Some "Alice");
    ("The Name of the Wind", "Patrick Rothfuss", "Fantasy", 662%Z, Some "Carol");
    ("Dune", "Frank Herbert", "Science Fiction", 688%Z, Some "Dan");
    ("The Fifth Season", "N.K. Jemisin", "Fantasy", 512%Z, Some "Alice");
    ("The Silent Patient", "Alex Michaelides", "Thriller", 336%Z, Some "Bob");
    ("Gone Girl", "Gillian Flynn", "Mystery", 432%Z, None);
    ("In the Woods", "Tana French", "Mystery", 464%Z, Some "Bob");
    ("All the Light We Cannot See", "Anthony Doerr", "Historical Fiction", 531%Z,
     Some "Carol");
    ("The Nightingale", "Kristin Hannah", "Historical Fiction", 440%Z, None);
    ("The Book Thief", "Markus Zusak", "Historical Fiction", 584%Z, Some "Bob");
    ("Where the Crawdads Sing", "Delia Owens", "Contemporary Fiction", 384%Z, None);
    ("The Midnight Library", "Matt Haig", "Contemporary Fiction", 304%Z, Some "Carol");
    ("Educated", "Tara Westover", "Non-Fiction", 334%Z, Some "Dan");
    ("Sapiens", "Yuval Noah Harari", "Non-Fiction", 443%Z, Some "Dan");
    ("The Hobbit", "J.R.R. Tolkien", "Fantasy", 310%Z, None);
    ("Recursion", "Blake Crouch", "Science Fiction", 329%Z, Some "Alice");
    ("The Seven Husbands of Evelyn Hugo", "Taylor Jenkins Reid",
     "Contemporary Fiction", 400%Z, None);
    ("Mexican Gothic", "Silvia Moreno-Garcia", "Horror", 301%Z, None);
    ("Circe", "Madeline Miller", "Fantasy", 400%Z, Some "Carol");
    ("The Song of Achilles", "Madeline Miller", "Historical Fiction", 378%Z, None) ].

(** [for member in members]: the member is added and its id kept under its
    name. *)
Fixpoint add_members_loop (members : list (string * Z * list string))
    (st : Store) (member_ids : gmap string Z) : db_result (Store * gmap string Z) :=
  match members with
  | [] => Done (st, member_ids)
  | (name, preferred_length, liked_genres) :: rest =>
      '(member_id, st) ← add_member st name preferred_length liked_genres;
      add_members_loop rest st (<[name := member_id]> member_ids)
  end.

(** [for title, author, genre, pages, suggested_by in books];
    [member_ids.get(suggested_by) if suggested_by else None]. *)
Fixpoint add_books_loop (books : list (string * string * string * Z * option string))
    (st : Store) (member_ids : gmap string Z) : db_result Store :=
  match books with
  | [] => Done st
  | (title, author, genre, pages, suggested_by) :: rest =>
      let suggested_by_id :=
        match suggested_by with
        | Some name => if bool_decide (name = "") then None else member_ids !! name
        | None => None
        end in
      '(_, st) ← add_book st title author genre pages suggested_by_id;
      add_books_loop rest st member_ids
  end.

(** [load_demo_data] *)
Definition load_demo_data (st : Store) : db_result Store :=
  let st := reset_database st in
  '(st, member_ids) ← add_members_loop demo_members st ∅;
  st ← add_books_loop demo_books st member_ids;
  let all_books := get_books (st_db st) in
  book1 ← py_next (filter (fun b => b_title b = "The Midnight Library") all_books);
  st ← mark_book_as_read st (b_id book1) 1;
  book2 ← py_next (filter (fun b => b_title b = "In the Woods") all_books);
  mark_book_as_read st (b_id book2) 2.

(* ===================================================================== *)
(** ** genre_helper.py *)
(* ===================================================================== *)

(** [GENRE_KEYWORDS], in the order the dictionary lists its genres. *)
Definition GENRE_KEYWORDS : list (string * list string) :=
  [ ("Fantasy", ["magic"; "dragon"; "wizard"; "witch"; "fantasy"; "realm";
                 "enchant"; "sorcerer"; "fae"; "basilisk"; "alchemy"; "bewitched"]);
    ("Science Fiction", ["sci-fi"; "space"; "station"; "future"; "atmosphere";
                         "mistborn"]);
    ("Mystery", ["murder"; "detective"; "clue"; "mystery"; "suspect";
                 "investigation"]);
    ("Thriller", ["dark"; "lies"; "lying"; "secret"; "shadow"; "vanishing"]);
    ("Historical Fiction", ["war"; "empire"; "history"; "lessons"; "past";
                            "raven scholar"]);
    ("Contemporary Fiction", ["modern"; "contemporary"; "never told you"; "lovers";
                              "beauty"]);
    ("Romance", ["love"; "kiss"; "heart"; "lovers"; "mate"]);
    ("Horror", ["horror"; "dark"; "blood"; "death"; "damned"]);
    ("Literary Fiction", ["picture"; "dorian"; "kafka"; "steinbeck"; "wilde"]);
    ("Non-Fiction", ["advice"; "unsolicited"; "lessons"]) ].

(** [str.lower] on ASCII text: the letters A to Z become a to z, every
    other character stays (text with letters outside ASCII is not
    modelled). *)
Definition ascii_lower (c : Ascii.ascii) : Ascii.ascii :=
  let n := Ascii.nat_of_ascii c in
  if (65 <=? n)%nat && (n <=? 90)%nat then Ascii.ascii_of_nat (n + 32) else c.

Fixpoint lower (s : string) : string :=
  match s with
  | EmptyString => EmptyString
  | String c s' => String (ascii_lower c) (lower s')
  end.

(** [keyword in combined] *)
Definition py_in (keyword combined : string) : bool :=
  match String.index 0 keyword combined with
  | Some _ => true
  | None => false
  end.

(** [sum(1 for keyword in keywords if keyword in combined)] *)
Definition keyword_score (keywords : list string) (combined : string) : Z :=
  Z.of_nat (List.length (filter (fun keyword => py_in keyword combined = true) keywords)).

(** A [dict] with string keys, in insertion order. *)
Fixpoint dict_set {V} (d : list (string * V)) (k : string) (v : V)
    : list (string * V) :=
  match d with
  | [] => [(k, v)]
  | (k', v') :: rest =>
      if decide (k' = k) then (k, v) :: rest else (k', v') :: dict_set rest k v
  end.

(** [d.get(k)] *)
Fixpoint dict_get {V} (d : list (string * V)) (k : string) : option V :=
  match d with
  | [] => None
  | (k', v') :: rest => if decide (k' = k) then Some v' else dict_get rest k
  end.

(** [for genre, keywords in GENRE_KEYWORDS.items()] *)
Fixpoint scores_loop (items : list (string * list string)) (combined : string)
    (scores : list (string * Z)) : list (string * Z) :=
  match items with
  | [] => scores
  | (genre, keywords) :: rest =>
      let score := keyword_score keywords combined in
      scores_loop rest combined
        (if bool_decide (score > 0)%Z then dict_set scores genre score else scores)
  end.

(** [max(scores, key=scores.get)] on a non-empty dictionary: the keys are
    visited in order with the value stored under each, and a key replaces
    the best one so far only when its value is strictly greater. *)
Fixpoint max_loop (rest : list (string * Z)) (best : string * Z) : string :=
  match rest with
  | [] => best.1
  | item :: rest =>
      max_loop rest (if bool_decide (item.2 > best.2)%Z then item else best)
  end.

(** [suggest_genre] *)
Definition suggest_genre (title author : string) : string :=
  let title_lower := lower title in
  let author_lower := lower author in
  let combined := title_lower +:+ " " +:+ author_lower in
  let scores := scores_loop GENRE_KEYWORDS combined [] in
  match scores with
  | first :: rest => max_loop rest first
  | [] => "Unspecified"
  end.

(** [all_genres] of [update_book_genres]: the genres of the pool other than
    'Unspecified' together with the genres of [GENRE_KEYWORDS], sorted. *)
Definition all_genres (db : Database) : list string :=
  let books := get_books db in
  let existing_genres :=
    elements (list_to_set (b_genre <$> filter (fun b => b_genre b ≠ "Unspecified")
                                              books) : gset string) in
  py_sorted_set (existing_genres ++ GENRE_KEYWORDS.*1).

(* ===================================================================== *)
(** ** app.py *)
(* ===================================================================== *)

(** The options of the navigation box. *)
Definition navigation_options : list string :=
  ["Home"; "Manage Members"; "Manage Books"; "Get Recommendations";
   "Reading History"].

(** The branches of the [if page == ...] chain. *)
Inductive page_body : Set :=
| HomePage
| ManageMembersPage
| ManageBooksPage
| GetRecommendationsPage
| ReadingHistoryPage
| NoPage.

(** Which branch runs for the value of [page]; [NoPage] when no test of
    the chain holds. *)
Definition page_body_of (page : string) : page_body :=
  if bool_decide (page = "🏠 Home") then HomePage
  else if bool_decide (page = "Manage Members") then ManageMembersPage
  else if bool_decide (page = "Manage Books") then ManageBooksPage
  else if bool_decide (page = "Get Recommendations") then GetRecommendationsPage
  else if bool_decide (page = "📊 Reading History") then ReadingHistoryPage
  else NoPage.

(** [genre_counts.get(genre, 0)] *)
Definition dict_get_default {V} (d : list (string * V)) (k : string) (v : V) : V :=
  default v (dict_get d k).

(** [for entry in history: genre_counts[...] = genre_counts.get(..., 0) + 1] *)
Fixpoint genre_counts_loop (history : list history_entry)
    (genre_counts : list (string * Z)) : list (string * Z) :=
  match history with
  | [] => genre_counts
  | entry :: rest =>
      genre_counts_loop rest
        (dict_set genre_counts (e_genre entry)
           (dict_get_default genre_counts (e_genre entry) 0 + 1)%Z)
  end.

(** [sorted(genre_counts.items(), key=lambda x: x[1], reverse=True)] *)
Definition genre_distribution (history : list history_entry) : list (string * Z) :=
  let genre_counts := genre_counts_loop history [] in
  py_sort (fun x => PInt x.2) true genre_counts.

(* ===================================================================== *)
(** ** Notions for the statements about the writers and the helpers *)
(* ===================================================================== *)

(** What the constraints of the schema and the sequences keep true of a
    store: ids are unique and below their sequence, references point to
    existing rows, [INTEGER] columns are in range, and a member has at most
    one veto per round. *)
Record store_ok (st : Store) : Prop := {
  ok_member_ids : NoDup (member_ids (st_db st));
  ok_book_ids : NoDup (book_ids (st_db st));
  ok_member_seq :
    Forall (fun i => (i < next_member_id st)%Z) (member_ids (st_db st));
  ok_book_seq : Forall (fun i => (i < next_book_id st)%Z) (book_ids (st_db st));
  ok_preferences_fk :
    Forall (fun p => gp_member_id p ∈ member_ids (st_db st))
           (tbl_member_genre_preferences (st_db st));
  ok_suggested_by_fk :
    Forall (fun b => member_or_null (st_db st) (br_suggested_by b))
           (tbl_books (st_db st));
  ok_history_fk :
    Forall (fun r => hr_book_id r ∈ book_ids (st_db st))
           (tbl_reading_history (st_db st));
  ok_vetoes_fk :
    Forall (fun v => vr_member_id v ∈ member_ids (st_db st)) (tbl_vetoes (st_db st));
  ok_one_veto :
    NoDup ((fun v => (vr_member_id v, vr_round_number v)) <$> tbl_vetoes (st_db st));
  ok_columns : wf_db (st_db st)
}.

(** One committed call of a writer that keeps the rows there are
    ([reset_database] is the only writer that does not). *)
Inductive writes : Store -> Store -> Prop :=
| writes_add_member st name preferred_length liked_genres member_id st' :
    add_member st name preferred_length liked_genres = Done (member_id, st') ->
    writes st st'
| writes_add_book st title author genre page_count suggested_by book_id st' :
    add_book st title author genre page_count suggested_by = Done (book_id, st') ->
    writes st st'
| writes_add_veto st member_id genre round_number st' :
    add_veto st member_id genre round_number = Done st' ->
    writes st st'
| writes_mark_book_as_read st book_id round_number st' :
    mark_book_as_read st book_id round_number = Done st' ->
    writes st st'.

(** Two member dictionaries that differ at most in the order of the liked
    genres, which [get_members] selects without an [ORDER BY]. *)
Definition same_member (m m' : member) : Prop :=
  m_id m = m_id m' /\ m_name m = m_name m' /\
  m_preferred_length m = m_preferred_length m' /\
  m_liked_genres m ≡ₚ m_liked_genres m'.

(** Two results of [get_members] that differ at most in the order of the
    rows and of the liked genres. *)
Definition same_members (l k : list member) : Prop :=
  ∃ l', l ≡ₚ l' /\ Forall2 same_member l' k.

(** Text without a character outside ASCII. *)
Fixpoint ascii_text (s : string) : bool :=
  match s with
  | EmptyString => true
  | String c s' => (Ascii.nat_of_ascii c <? 128)%nat && ascii_text s'
  end.

(** [MAX(round_number)] over the rows of the history table. *)
Definition max_round (history : list reading_history_row) : option Z :=
  foldr (fun r acc =>
           match acc with
           | None => Some (hr_round_number r)
           | Some m => Some (Z.max (hr_round_number r) m)
           end) None history.

(** A copy of a book with another suggester. *)
Definition with_suggested_by (b : book) (s : option Z) : book :=
  {| b_id := b_id b; b_title := b_title b; b_author := b_author b;
     b_genre := b_genre b; b_page_count := b_page_count b;
     b_suggested_by := s; b_suggested_by_name := b_suggested_by_name b |}.

(** A copy of a book with another page count. *)
Definition with_page_count (b : book) (p : Z) : book :=
  {| b_id := b_id b; b_title := b_title b; b_author := b_author b;
     b_genre := b_genre b; b_page_count := p;
     b_suggested_by := b_suggested_by b;
     b_suggested_by_name := b_suggested_by_name b |}.

(** [k] is a substring of [s]. *)
Definition occurs_in (k s : string) : Prop := ∃ pre post, s = pre +:+ k +:+ post.

(** Number of entries of a genre. *)
Definition count_genre (genre : string) (history : list history_entry) : Z :=
  Z.of_nat (length (filter (fun e => e_genre e = genre) history)).

(** Sum of a list of integers. *)
Definition sum_Z (l : list Z) : Z := foldr Z.add 0%Z l.


(** The small store with its sequences. *)
Definition demo_store : Store :=
  {| st_db := demo_db; next_member_id := 3; next_preference_id := 3;
     next_book_id := 5; next_history_id := 2; next_veto_id := 2 |}.

(* ===================================================================== *)
(** ** Powers of two and the integer logarithm *)
(* ===================================================================== *)

Lemma pow2_pos (e : Z) : 0 < 2 ^ e.
Proof. apply Qpower_0_lt. reflexivity. Qed.

Lemma pow2_add (a b : Z) : 2 ^ (a + b) == 2 ^ a * 2 ^ b.
Proof. apply Qpower_plus. discriminate. Qed.

Lemma pow2_succ (e : Z) : 2 ^ (e + 1) == 2 * 2 ^ e.
Proof. rewrite pow2_add. change (2 ^ 1) with 2. ring. Qed.

Lemma pow2_pred (e : Z) : 2 ^ e == 2 * 2 ^ (e - 1).
Proof. rewrite <- pow2_succ. replace (e - 1 + 1)%Z with e by lia. reflexivity. Qed.

Lemma pow2_le (a b : Z) : (a <= b)%Z -> 2 ^ a <= 2 ^ b.
Proof. intros. apply Qpower_le_compat_l; [done|]. discriminate. Qed.

Lemma pow2_lt (a b : Z) : (a < b)%Z -> 2 ^ a < 2 ^ b.
Proof. intros. apply Qpower_lt_compat_l; [done|]. reflexivity. Qed.

Lemma pow2_lt_inv (a b : Z) : 2 ^ a < 2 ^ b -> (a < b)%Z.
Proof. intros. eapply Qpower_lt_compat_l_inv; [done|]. reflexivity. Qed.

Lemma pow2_inject (a : Z) : (0 <= a)%Z -> inject_Z (2 ^ a) == 2 ^ a.
Proof. intros. rewrite Zpower_Qpower by done. reflexivity. Qed.

Lemma pow2_div (x : Q) (q : Z) : x / 2 ^ q == x * 2 ^ (- q).
Proof. rewrite Qpower_opp. reflexivity. Qed.

Lemma ilog2_spec (x : Q) : 0 < x -> 2 ^ ilog2 x <= x /\ x < 2 ^ (ilog2 x + 1).
Proof.
  intros Hx. unfold ilog2.
  destruct x as [n d]. cbn [Qnum Qden].
  assert (Hn : (0 < n)%Z) by (unfold Qlt in Hx; cbn in Hx; lia).
  set (a := Z.log2 n). set (b := Z.log2 (Z.pos d)).
  destruct (Z.log2_spec n Hn) as [Ha1 Ha2]. fold a in Ha1, Ha2.
  destruct (Z.log2_spec (Z.pos d) ltac:(lia)) as [Hb1 Hb2]. fold b in Hb1, Hb2.
  assert (Ha0 : (0 <= a)%Z) by apply Z.log2_nonneg.
  assert (Hb0 : (0 <= b)%Z) by apply Z.log2_nonneg.
  assert (HA := pow2_inject a Ha0). assert (HB := pow2_inject b Hb0).
  assert (HA1 : 2 ^ a <= inject_Z n) by (rewrite <- HA, <- Zle_Qle; done).
  assert (HA2 : inject_Z n < 2 * 2 ^ a).
  { rewrite <- pow2_succ, <- pow2_inject by lia. rewrite <- Zlt_Qlt.
    replace (a + 1)%Z with (Z.succ a) by lia. done. }
  assert (HB1 : 2 ^ b <= inject_Z (Z.pos d)) by (rewrite <- HB, <- Zle_Qle; done).
  assert (HB2 : inject_Z (Z.pos d) < 2 * 2 ^ b).
  { rewrite <- pow2_succ, <- pow2_inject by lia. rewrite <- Zlt_Qlt.
    replace (b + 1)%Z with (Z.succ b) by lia. done. }
  assert (HD : 0 < inject_Z (Z.pos d)) by (rewrite <- (Zlt_Qlt 0); lia).
  assert (Hx' : n # d == inject_Z n / inject_Z (Z.pos d)) by apply Qmake_Qdiv.
  assert (Hxd : (n # d) * inject_Z (Z.pos d) == inject_Z n).
  { rewrite Hx'. field. lra. }
  assert (Hab : 2 ^ (a - b) * 2 ^ b == 2 ^ a).
  { rewrite <- pow2_add. replace (a - b + b)%Z with a by lia. reflexivity. }
  assert (Pa := pow2_pos a). assert (Pb := pow2_pos b).
  assert (Pab := pow2_pos (a - b)).
  set (X := n # d) in *. set (D := inject_Z (Z.pos d)) in *.
  set (N := inject_Z n) in *.
  set (A := 2 ^ a) in *. set (B := 2 ^ b) in *. set (E := 2 ^ (a - b)) in *.
  destruct (Qle_bool E X) eqn:Hle.
  - apply Qle_bool_iff in Hle. split; [done|].
    rewrite pow2_succ. fold E. nra.
  - assert (X < E).
    { apply Qnot_le_lt. intros H. apply Qle_bool_iff in H. congruence. }
    split.
    + assert (HE : E == 2 * 2 ^ (a - b - 1)) by apply pow2_pred.
      assert (0 < 2 ^ (a - b - 1)) by apply pow2_pos.
      set (E' := 2 ^ (a - b - 1)) in *. nra.
    + replace (a - b - 1 + 1)%Z with (a - b)%Z by lia. done.
Qed.

Lemma ilog2_unique (x : Q) (e : Z) :
  2 ^ e <= x -> x < 2 ^ (e + 1) -> ilog2 x = e.
Proof.
  intros H1 H2.
  assert (Hx : 0 < x) by (pose proof (pow2_pos e); lra).
  destruct (ilog2_spec x Hx) as [H3 H4].
  assert (ilog2 x < e + 1)%Z by (apply pow2_lt_inv; lra).
  assert (e < ilog2 x + 1)%Z by (apply pow2_lt_inv; lra).
  lia.
Qed.

Lemma ilog2_comp (x y : Q) : 0 < x -> x == y -> ilog2 x = ilog2 y.
Proof.
  intros Hx Hxy. destruct (ilog2_spec x Hx).
  symmetry. apply ilog2_unique; lra.
Qed.

Lemma ilog2_mono (x y : Q) : 0 < x -> x <= y -> (ilog2 x <= ilog2 y)%Z.
Proof.
  intros Hx Hxy.
  destruct (ilog2_spec x Hx) as [H1 _].
  destruct (ilog2_spec y ltac:(lra)) as [_ H2].
  assert (ilog2 x < ilog2 y + 1)%Z by (apply pow2_lt_inv; lra).
  lia.
Qed.

(* ===================================================================== *)
(** ** Rounding to the nearest integer *)
(* ===================================================================== *)

Lemma round_half_even_spec (x : Q) :
  let n := inject_Z (round_half_even x) in
  - (1 # 2) <= x - n <= 1 # 2 /\
  (x - n == 1 # 2 -> Z.even (round_half_even x) = true) /\
  (x - n == - (1 # 2) -> Z.even (round_half_even x) = true).
Proof.
  unfold round_half_even.
  pose proof (Qfloor_le x) as Hf1. pose proof (Qlt_floor x) as Hf2.
  rewrite inject_Z_plus in Hf2. change (inject_Z 1) with 1 in Hf2.
  set (f := Qfloor x) in *.
  destruct (Qcompare (x - inject_Z f) (1 # 2)) eqn:Hc; cbn zeta.
  - apply Qeq_alt in Hc.
    destruct (Z.even f) eqn:He.
    + repeat split; try lra. intros; done.
    + rewrite inject_Z_plus. change (inject_Z 1) with 1.
      repeat split; try lra.
      intros _. rewrite Z.even_add, He. reflexivity.
  - apply Qlt_alt in Hc. repeat split; lra.
  - apply Qgt_alt in Hc. rewrite inject_Z_plus. change (inject_Z 1) with 1.
    repeat split; lra.
Qed.

Lemma round_half_even_mono (x y : Q) :
  x <= y -> (round_half_even x <= round_half_even y)%Z.
Proof.
  intros Hxy.
  destruct (round_half_even_spec x) as ([Hx1 Hx2] & Hx3 & Hx4).
  destruct (round_half_even_spec y) as ([Hy1 Hy2] & Hy3 & Hy4).
  cbn zeta in *.
  set (n := round_half_even x) in *. set (m := round_half_even y) in *.
  destruct (Z_le_gt_dec n m) as [|Hgt]; [done|exfalso].
  assert (Hm : inject_Z m + 1 <= inject_Z n).
  { change 1 with (inject_Z 1). rewrite <- inject_Z_plus, <- Zle_Qle. lia. }
  assert (Hn : inject_Z n <= inject_Z m + 1).
  { lra. }
  assert (n = m + 1)%Z.
  { assert (inject_Z n <= inject_Z (m + 1)).
    { rewrite inject_Z_plus. done. }
    rewrite <- Zle_Qle in *. lia. }
  assert (En : Z.even n = true) by (apply Hx4; lra).
  assert (Em : Z.even m = true) by (apply Hy3; lra).
  subst n. rewrite H, Z.even_add, Em in En. discriminate.
Qed.

Lemma round_half_even_comp (x y : Q) :
  x == y -> round_half_even x = round_half_even y.
Proof.
  intros H. apply Z.le_antisymm; apply round_half_even_mono; lra.
Qed.

Lemma round_half_even_Z (z : Z) : round_half_even (inject_Z z) = z.
Proof.
  unfold round_half_even. rewrite Qfloor_Z.
  destruct (Qcompare _ _) eqn:Hc; [apply Qeq_alt in Hc|done|apply Qgt_alt in Hc]; lra.
Qed.

Lemma round_half_even_opp (x : Q) : round_half_even (- x) = (- round_half_even x)%Z.
Proof.
  destruct (round_half_even_spec x) as ([Hx1 Hx2] & Hx3 & Hx4).
  destruct (round_half_even_spec (- x)) as ([Hy1 Hy2] & Hy3 & Hy4).
  cbn zeta in *.
  set (n := round_half_even x) in *. set (m := round_half_even (- x)) in *.
  assert (Hs : -1 <= inject_Z (m + n) <= 1).
  { rewrite inject_Z_plus. lra. }
  change (-1) with (inject_Z (-1)) in Hs. change 1 with (inject_Z 1) in Hs.
  rewrite <- !Zle_Qle in Hs.
  assert (Hc : (m + n = 0 \/ m + n = 1 \/ m + n = -1)%Z) by lia.
  destruct Hc as [Hc|[Hc|Hc]]; [lia|exfalso..].
  - assert (Hq : inject_Z m + inject_Z n == 1).
    { rewrite <- inject_Z_plus, Hc. reflexivity. }
    assert (En : Z.even n = true) by (apply Hx4; lra).
    assert (Em : Z.even m = true) by (apply Hy4; lra).
    replace m with (1 - n)%Z in Em by lia.
    rewrite Z.even_sub, En in Em. discriminate.
  - assert (Hq : inject_Z m + inject_Z n == -1).
    { rewrite <- inject_Z_plus, Hc. reflexivity. }
    assert (En : Z.even n = true) by (apply Hx3; lra).
    assert (Em : Z.even m = true) by (apply Hy3; lra).
    replace m with (-1 - n)%Z in Em by lia.
    rewrite Z.even_sub, En in Em. discriminate.
Qed.

Lemma round_half_even_ge (x : Q) (z : Z) :
  inject_Z z <= x -> (z <= round_half_even x)%Z.
Proof.
  intros H. rewrite <- (round_half_even_Z z). by apply round_half_even_mono.
Qed.

Lemma round_half_even_le (x : Q) (z : Z) :
  x <= inject_Z z -> (round_half_even x <= z)%Z.
Proof.
  intros H. rewrite <- (round_half_even_Z z). by apply round_half_even_mono.
Qed.

(* ===================================================================== *)
(** ** Rounding to binary64 *)
(* ===================================================================== *)

Lemma rnd_val (x : Q) :
  rnd x == inject_Z (round_half_even (x / 2 ^ ulp_exp x)) * 2 ^ ulp_exp x.
Proof. unfold rnd. cbn zeta. apply Qred_correct. Qed.

Lemma Qabs_pos_ne (x : Q) : ~ x == 0 -> 0 < Qabs x.
Proof.
  intros H. destruct (Qlt_le_dec 0 (Qabs x)) as [|Hle]; [done|].
  exfalso. apply H. pose proof (Qabs_nonneg x).
  assert (Qabs x == 0) by lra.
  pose proof (Qle_Qabs x). pose proof (Qle_Qabs (- x)) as H3.
  rewrite Qabs_opp in H3. lra.
Qed.

Lemma ulp_exp_comp (x y : Q) : ~ x == 0 -> x == y -> ulp_exp x = ulp_exp y.
Proof.
  intros H0 Hxy. unfold ulp_exp. f_equal. f_equal.
  apply ilog2_comp; [by apply Qabs_pos_ne|]. by rewrite Hxy.
Qed.

Lemma rnd_zero (x : Q) : x == 0 -> rnd x == 0.
Proof.
  intros H. rewrite rnd_val. generalize (ulp_exp x). intros q.
  assert (Hz : x / 2 ^ q == inject_Z 0).
  { rewrite H. unfold Qdiv. change (inject_Z 0) with 0. ring. }
  rewrite (round_half_even_comp _ _ Hz), round_half_even_Z.
  change (inject_Z 0) with 0. ring.
Qed.

Lemma rnd_canonical (x y : Q) : rnd x == rnd y -> rnd x = rnd y.
Proof.
  unfold rnd. cbn zeta. intros H.
  apply Qred_eq_iff. by apply Qeq_Qred_iff.
Qed.

Lemma rnd_comp (x y : Q) : x == y -> rnd x = rnd y.
Proof.
  intros Hxy. apply rnd_canonical.
  destruct (Qeq_dec x 0) as [H0|H0].
  - rewrite !rnd_zero; [reflexivity| |done]. by rewrite <- Hxy.
  - rewrite !rnd_val.
    rewrite <- (ulp_exp_comp x y H0 Hxy). generalize (ulp_exp x). intros q.
    assert (Hd : x / 2 ^ q == y / 2 ^ q) by (by rewrite Hxy).
    by rewrite (round_half_even_comp _ _ Hd).
Qed.

#[export] Instance rnd_proper : Proper (Qeq ==> eq) rnd.
Proof. intros x y. apply rnd_comp. Qed.

Lemma Qabs_opp_eq (x : Q) : Qabs (- x) = Qabs x.
Proof. destruct x as [[|n|n] d]; reflexivity. Qed.

Lemma rnd_opp (x : Q) : rnd (- x) == - rnd x.
Proof.
  rewrite !rnd_val.
  assert (Hu : ulp_exp (- x) = ulp_exp x).
  { unfold ulp_exp. f_equal. f_equal.
    by rewrite Qabs_opp_eq. }
  rewrite Hu.
  assert (Hd : - x / 2 ^ ulp_exp x == - (x / 2 ^ ulp_exp x)).
  { unfold Qdiv. ring. }
  rewrite (round_half_even_comp _ _ Hd), round_half_even_opp, inject_Z_opp.
  ring.
Qed.

Lemma rnd_nonneg (x : Q) : 0 <= x -> 0 <= rnd x.
Proof.
  intros Hx. rewrite rnd_val.
  pose proof (pow2_pos (ulp_exp x)) as Hp.
  assert (0 <= inject_Z (round_half_even (x / 2 ^ ulp_exp x))).
  { rewrite <- (Zle_Qle 0). apply round_half_even_ge.
    change (inject_Z 0) with 0. apply Qle_shift_div_l; [done|]. lra. }
  nra.
Qed.

Lemma rnd_nonpos (x : Q) : x <= 0 -> rnd x <= 0.
Proof.
  intros Hx. assert (H := rnd_nonneg (- x) ltac:(lra)).
  rewrite rnd_opp in H. lra.
Qed.

Lemma rnd_mono_pos (x y : Q) : 0 < x -> x <= y -> rnd x <= rnd y.
Proof.
  intros Hx Hxy. rewrite !rnd_val.
  assert (Hy : 0 < y) by lra.
  unfold ulp_exp.
  rewrite (ilog2_comp (Qabs x) x), (ilog2_comp (Qabs y) y);
    try (apply Qabs_pos; lra); try (rewrite Qabs_pos; lra).
  pose proof (ilog2_mono x y Hx Hxy) as He.
  destruct (ilog2_spec x Hx) as [Hx1 Hx2].
  destruct (ilog2_spec y Hy) as [Hy1 Hy2].
  set (ex := ilog2 x) in *. set (ey := ilog2 y) in *.
  set (qx := Z.max (ex - 52) (-1074)). set (qy := Z.max (ey - 52) (-1074)).
  assert (Hq : (qx <= qy)%Z) by lia.
  pose proof (pow2_pos qx) as Pqx. pose proof (pow2_pos qy) as Pqy.
  destruct (Z.eq_dec qx qy) as [Heq|Hne].
  - rewrite <- Heq.
    assert (Hm : (round_half_even (x / 2 ^ qx) <= round_half_even (y / 2 ^ qx))%Z).
    { apply round_half_even_mono. apply Qmult_le_compat_r; [done|].
      apply Qinv_le_0_compat. lra. }
    rewrite Zle_Qle in Hm. nra.
  - assert (Hqy : qy = (ey - 52)%Z) by lia.
    assert (Hex : (ex + 1 <= ey)%Z) by lia.
    apply Qle_trans with (2 ^ ey).
    + assert (Hm : (round_half_even (x / 2 ^ qx) <= 2 ^ (ey - qx))%Z).
      { apply round_half_even_le. rewrite pow2_inject by lia.
        apply Qle_shift_div_r; [done|].
        rewrite <- pow2_add. replace (ey - qx + qx)%Z with ey by lia.
        pose proof (pow2_le (ex + 1) ey Hex). lra. }
      rewrite Zle_Qle, pow2_inject in Hm by lia.
      assert (Hs : 2 ^ (ey - qx) * 2 ^ qx == 2 ^ ey).
      { rewrite <- pow2_add. replace (ey - qx + qx)%Z with ey by lia. reflexivity. }
      set (E := 2 ^ (ey - qx)) in *. nra.
    + assert (Hm : (2 ^ 52 <= round_half_even (y / 2 ^ qy))%Z).
      { apply round_half_even_ge. rewrite pow2_inject by lia.
        apply Qle_shift_div_l; [done|].
        rewrite <- pow2_add. replace (52 + qy)%Z with ey by lia. done. }
      rewrite Zle_Qle, pow2_inject in Hm by lia.
      assert (Hs : 2 ^ 52 * 2 ^ qy == 2 ^ ey).
      { rewrite <- pow2_add. replace (52 + qy)%Z with ey by lia. reflexivity. }
      set (E := 2 ^ 52) in *. nra.
Qed.

Lemma rnd_mono (x y : Q) : x <= y -> rnd x <= rnd y.
Proof.
  intros Hxy.
  destruct (Qlt_le_dec 0 x) as [Hx|Hx].
  - by apply rnd_mono_pos.
  - destruct (Qlt_le_dec y 0) as [Hy|Hy].
    + assert (H := rnd_mono_pos (- y) (- x) ltac:(lra) ltac:(lra)).
      rewrite !rnd_opp in H. lra.
    + pose proof (rnd_nonpos x Hx). pose proof (rnd_nonneg y Hy). lra.
Qed.

Lemma rnd_exact (m e : Z) :
  (Z.abs m < 2 ^ 53)%Z -> (-1074 <= e)%Z ->
  rnd (inject_Z m * 2 ^ e) == inject_Z m * 2 ^ e.
Proof.
  intros Hm He.
  destruct (Z.eq_dec m 0%Z) as [->|Hm0].
  { rewrite rnd_zero; [|]; change (inject_Z 0) with 0; ring. }
  set (x := inject_Z m * 2 ^ e).
  assert (Hx0 : ~ x == 0).
  { unfold x. pose proof (pow2_pos e).
    assert (~ inject_Z m == 0).
    { change 0 with (inject_Z 0). rewrite inject_Z_injective. done. }
    intros Hc. apply Qmult_integral in Hc. destruct Hc; [done|lra]. }
  assert (Hax : Qabs x == inject_Z (Z.abs m) * 2 ^ e).
  { unfold x. rewrite Qabs_Qmult, (Qabs_pos (2 ^ e)) by (pose proof (pow2_pos e); lra).
    reflexivity. }
  assert (Hlt : Qabs x < 2 ^ (53 + e)).
  { rewrite Hax, pow2_add. rewrite <- (pow2_inject 53) by lia.
    apply Qmult_lt_compat_r; [apply pow2_pos|]. by rewrite <- Zlt_Qlt. }
  destruct (ilog2_spec (Qabs x) (Qabs_pos_ne x Hx0)) as [Hl1 Hl2].
  assert (Hl : (ilog2 (Qabs x) < 53 + e)%Z) by (apply pow2_lt_inv; lra).
  rewrite rnd_val. 
  assert (Hq : (ulp_exp x <= e)%Z) by (unfold ulp_exp; lia).
  set (q := ulp_exp x) in *.
  assert (Hd : x / 2 ^ q == inject_Z (m * 2 ^ (e - q))).
  { rewrite inject_Z_mult, pow2_inject by lia. unfold x.
    rewrite pow2_div, <- Qmult_assoc, <- pow2_add.
    replace (e + - q)%Z with (e - q)%Z by lia. reflexivity. }
  rewrite (round_half_even_comp _ _ Hd), round_half_even_Z.
  rewrite inject_Z_mult, pow2_inject by lia. unfold x.
  rewrite <- Qmult_assoc, <- pow2_add. replace (e - q + q)%Z with e by lia.
  reflexivity.
Qed.

(* ===================================================================== *)
(** ** Float operations that stay in range *)
(* ===================================================================== *)

Lemma overflows_bound (r B : Q) :
  Qabs r <= B -> B < 2 ^ 1024 -> overflows r = false.
Proof.
  intros H1 H2. unfold overflows.
  destruct (Qle_bool _ _) eqn:Hb; [|done].
  apply Qle_bool_iff in Hb. lra.
Qed.

Lemma rnd_abs_le (x B : Q) : Qabs x <= B -> Qabs (rnd x) <= rnd B.
Proof.
  intros H. apply Qabs_Qle_condition in H as [H1 H2].
  apply Qabs_Qle_condition. split.
  - rewrite <- rnd_opp. by apply rnd_mono.
  - by apply rnd_mono.
Qed.

Lemma rnd_inject_Z (z : Z) :
  (Z.abs z < 2 ^ 53)%Z -> rnd (inject_Z z) = inject_Z z.
Proof.
  intros H.
  assert (He : inject_Z z == inject_Z z * 2 ^ 0) by (change (2 ^ 0) with 1; ring).
  assert (Hr : rnd (inject_Z z) == inject_Z z).
  { rewrite (rnd_comp _ _ He), rnd_exact by lia. by symmetry. }
  apply Qred_complete in Hr. rewrite inject_Z_Qred in Hr.
  unfold rnd in Hr |- *. cbn zeta in *.
  by rewrite Qcanon.Qred_involutive in Hr.
Qed.

Lemma fl_ok (x B : Q) :
  Qabs x <= B -> rnd B < 2 ^ 1024 -> fl x = Ok (rnd x).
Proof.
  intros H1 H2. unfold fl. cbn zeta.
  rewrite (overflows_bound (rnd x) (rnd B)); [done|by apply rnd_abs_le|done].
Qed.

Lemma float_of_int_ok (z : Z) :
  (Z.abs z < 2 ^ 53)%Z -> float_of_int z = Ok (inject_Z z).
Proof.
  intros H. unfold float_of_int. cbn zeta. rewrite rnd_inject_Z by done.
  rewrite (overflows_bound _ (inject_Z (2 ^ 53))); [done| |done].
  change (Qabs (inject_Z z)) with (inject_Z (Z.abs z)).
  rewrite <- Zle_Qle. lia.
Qed.

(* ===================================================================== *)
(** ** The stable sort *)
(* ===================================================================== *)

Section StableSort.
Context {A : Type} (lt : A -> A -> bool).

Lemma sort_insert_perm (x : A) (l : list A) : sort_insert lt x l ≡ₚ x :: l.
Proof.
  induction l as [|y l IH]; cbn; [done|].
  destruct (lt y x); [|done].
  rewrite IH. apply perm_swap.
Qed.

Lemma stable_sort_perm (l : list A) : stable_sort lt l ≡ₚ l.
Proof.
  induction l as [|x l IH]; cbn; [done|].
  by rewrite sort_insert_perm, IH.
Qed.

Lemma stable_sort_length (l : list A) : length (stable_sort lt l) = length l.
Proof. by rewrite stable_sort_perm. Qed.

(** Elements that are pairwise not below one another keep their order. *)
Lemma sort_insert_filter (P : A -> Prop) `{!∀ x, Decision (P x)} x l :
  (∀ y z, P y -> P z -> lt y z = false) ->
  filter P (sort_insert lt x l) = filter P (x :: l).
Proof.
  intros HP. induction l as [|y l IH]; cbn; [done|].
  destruct (lt y x) eqn:Hyx; [|done].
  rewrite filter_cons, IH, !filter_cons.
  destruct (decide (P y)) as [Py|]; [|done].
  destruct (decide (P x)) as [Px|]; [|done].
  by rewrite (HP y x) in Hyx.
Qed.

Lemma stable_sort_filter (P : A -> Prop) `{!∀ x, Decision (P x)} l :
  (∀ y z, P y -> P z -> lt y z = false) ->
  filter P (stable_sort lt l) = filter P l.
Proof.
  intros HP. induction l as [|x l IH]; cbn; [done|].
  rewrite sort_insert_filter by done. by rewrite !filter_cons, IH.
Qed.

Hypothesis lt_asym : ∀ x y, lt x y = true -> lt y x = false.
Hypothesis le_trans :
  ∀ x y z, sort_le lt x y -> sort_le lt y z -> sort_le lt x z.

Lemma sort_insert_sorted (x : A) (l : list A) :
  StronglySorted (sort_le lt) l -> StronglySorted (sort_le lt) (sort_insert lt x l).
Proof.
  induction 1 as [|y l Hs IH Hy]; cbn.
  - by repeat constructor.
  - destruct (lt y x) eqn:Hyx.
    + constructor; [done|].
      rewrite sort_insert_perm. constructor; [|done].
      by apply lt_asym.
    + constructor; [by constructor|].
      constructor; [done|].
      eapply Forall_impl; [exact Hy|]. intros z Hz. by eapply le_trans.
Qed.

Lemma stable_sort_sorted (l : list A) : StronglySorted (sort_le lt) (stable_sort lt l).
Proof.
  induction l as [|x l IH]; cbn; [constructor|].
  by apply sort_insert_sorted.
Qed.
End StableSort.

(** A strongly sorted list read backwards is strongly sorted for the
    converse relation. *)
Lemma StronglySorted_app_inv {A} (R : A -> A -> Prop) (l1 l2 : list A) :
  StronglySorted R (l1 ++ l2) ->
  StronglySorted R l1 /\ StronglySorted R l2 /\
  ∀ x y, x ∈ l1 -> y ∈ l2 -> R x y.
Proof.
  induction l1 as [|a l1 IH]; cbn; intros H.
  - split_and!; [constructor|done|]. intros x y Hx. by apply elem_of_nil in Hx.
  - apply StronglySorted_inv in H as [H1 H2].
    destruct (IH H1) as (Ha & Hb & Hc).
    apply Forall_app in H2 as [H2 H3].
    split_and!; [by constructor|done|].
    intros x y [->|Hx]%elem_of_cons Hy.
    + rewrite Forall_forall in H3. by apply H3.
    + by apply Hc.
Qed.

Lemma StronglySorted_snoc {A} (R : A -> A -> Prop) (l : list A) (x : A) :
  StronglySorted R l -> Forall (fun y => R y x) l -> StronglySorted R (l ++ [x]).
Proof.
  induction 1 as [|y l Hs IH Hy]; cbn; intros Hx.
  - by repeat constructor.
  - apply Forall_cons in Hx as [Hyx Hx].
    constructor; [by apply IH|].
    apply Forall_app. split; [done|]. by constructor.
Qed.

Lemma StronglySorted_reverse {A} (R : A -> A -> Prop) (l : list A) :
  StronglySorted R l -> StronglySorted (flip R) (reverse l).
Proof.
  induction 1 as [|y l Hs IH Hy]; [constructor|].
  rewrite reverse_cons. apply StronglySorted_snoc; [done|].
  rewrite Forall_forall in Hy |- *. intros z Hz.
  apply Hy. by apply elem_of_reverse.
Qed.

(** A sorted list of integers is determined by its elements. *)
Lemma sorted_perm_unique (l1 l2 : list Z) :
  StronglySorted Z.le l1 -> StronglySorted Z.le l2 -> l1 ≡ₚ l2 -> l1 = l2.
Proof.
  intros H1. revert l2. induction H1 as [|x l1 Hs IH Hx]; intros l2 H2 Hp.
  - by apply Permutation_nil_l in Hp.
  - destruct H2 as [|y l2 Hs2 Hy].
    + by apply Permutation_nil_r in Hp.
    + assert (x = y) as ->.
      { assert (Hxin : x ∈ y :: l2) by (rewrite <- Hp; left).
        assert (Hyin : y ∈ x :: l1) by (rewrite Hp; left).
        rewrite Forall_forall in Hx, Hy.
        apply elem_of_cons in Hxin as [|Hxin]; [done|].
        apply elem_of_cons in Hyin as [|Hyin]; [done|].
        apply Hy in Hxin. apply Hx in Hyin. lia. }
      f_equal. apply IH; [done|]. by apply Permutation_cons_inv in Hp.
Qed.

(* ===================================================================== *)
(** ** The constraint filter *)
(* ===================================================================== *)

Lemma hard_constraints_loop_filter ids last vet books acc :
  hard_constraints_loop ids last vet books acc =
  acc ++ filter (passes_hard_constraints ids last vet) books.
Proof.
  revert acc. induction books as [|b books IH]; intros acc;
    cbn [hard_constraints_loop].
  - by rewrite filter_nil, app_nil_r.
  - rewrite filter_cons. unfold passes_hard_constraints at 2.
    repeat case_bool_decide; rewrite IH;
      destruct (decide _) as [(? & ? & ?)|Hn]; try done.
    + by rewrite <- app_assoc.
    + exfalso. by apply Hn.
Qed.

Lemma apply_hard_constraints_filter db pool history round :
  apply_hard_constraints db pool history round =
  filter (passes_hard_constraints (list_to_set (e_book_id <$> history))
            (get_last_n_genres db 2) (get_vetoes db round)) pool.
Proof. unfold apply_hard_constraints. by rewrite hard_constraints_loop_filter. Qed.

Lemma StronglySorted_impl {A} (R1 R2 : A -> A -> Prop) (l : list A) :
  (∀ x y, R1 x y -> R2 x y) -> StronglySorted R1 l -> StronglySorted R2 l.
Proof.
  intros HR. induction 1 as [|x l Hs IH Hx]; constructor; [done|].
  eapply Forall_impl; [exact Hx|]. intros y. apply HR.
Qed.

Lemma order_by_desc_sorted {A} (key : A -> Z) (rows : list A) :
  StronglySorted (fun x y => (key y <= key x)%Z) (order_by_desc key rows).
Proof.
  unfold order_by_desc.
  eapply StronglySorted_impl; last apply stable_sort_sorted.
  - intros x y. unfold sort_le. rewrite bool_decide_eq_false. lia.
  - intros x y. rewrite bool_decide_eq_true, bool_decide_eq_false. lia.
  - intros x y z. unfold sort_le. rewrite !bool_decide_eq_false. lia.
Qed.

Lemma take_two_most_recent db :
  most_recent_two (take 2 (get_reading_history db)) (get_reading_history db).
Proof.
  exists (drop 2 (get_reading_history db)). split_and!.
  - by rewrite take_drop.
  - by rewrite length_take.
  - pose proof (order_by_desc_sorted e_round_number (history_join_books db)) as Hs.
    fold (get_reading_history db) in Hs.
    rewrite <- (take_drop 2 (get_reading_history db)) in Hs.
    apply StronglySorted_app_inv in Hs as (_ & _ & Hs).
    intros t r Ht Hr. by apply Hs.
Qed.

(** C1, as stated, fails: the genre test reads the store, not the history
    argument.  On the small store, with an empty history argument, the book
    'Gone Girl' passes the three tests read on that argument, yet the filter
    removes it: the store's own history ends with a Mystery. *)
Lemma apply_hard_constraints_history_argument :
  ∃ b top,
    most_recent_two top [] /\
    b ∈ get_books demo_db /\
    (∀ e : history_entry, e ∈ [] -> e_book_id e ≠ b_id b) /\
    (∀ t, t ∈ top -> e_genre t ≠ b_genre b) /\
    (∀ v, v ∈ tbl_vetoes demo_db -> vr_round_number v = 2%Z ->
          vr_genre v ≠ b_genre b) /\
    b ∉ apply_hard_constraints demo_db (get_books demo_db) [] 2.
Proof.
  exists {| b_id := 2; b_title := "Gone Girl"; b_author := "Gillian Flynn";
            b_genre := "Mystery"; b_page_count := 432; b_suggested_by := None;
            b_suggested_by_name := None |}, [].
  split_and!.
  - exists []. split_and!; [done|done|]. by intros t r ?%elem_of_nil.
  - apply list_elem_of_lookup. by exists 1%nat.
  - by intros e ?%elem_of_nil.
  - by intros t ?%elem_of_nil.
  - intros v Hv _. cbn in Hv. apply list_elem_of_singleton in Hv as ->. done.
  - intros Hin.
    assert (Hid : 2%Z ∈ b_id <$> apply_hard_constraints demo_db (get_books demo_db) [] 2).
    { apply list_elem_of_fmap. eexists. split; [|exact Hin]. done. }
    revert Hid. apply (bool_decide_unpack _). vm_compute. exact I.
Qed.

(** C1, amended: for every store, candidate pool, history argument and
    round number, a book is in the output of the constraint filter exactly
    when it is in the pool, its id is the book id of no entry of the history
    argument, its genre differs from the genre of each of the (up to) two
    entries with the highest round numbers of the reading history of the
    store (the filter asks the store for them and does not look at its
    argument), and no veto recorded for that round names its genre.  With
    the history the store returns as argument, as [get_recommendations]
    passes it, the two histories are the same; with an empty store history
    the second test removes nothing. *)
Theorem apply_hard_constraints_iff (db : Database) (pool : list book)
    (history : list history_entry) (round : Z) :
  ∃ top,
    most_recent_two top (get_reading_history db) /\
    ∀ b,
      b ∈ apply_hard_constraints db pool history round <->
      b ∈ pool /\
      (∀ e, e ∈ history -> e_book_id e ≠ b_id b) /\
      (∀ t, t ∈ top -> e_genre t ≠ b_genre b) /\
      (∀ v, v ∈ tbl_vetoes db -> vr_round_number v = round ->
            vr_genre v ≠ b_genre b).
Proof.
  exists (take 2 (get_reading_history db)).
  split; [apply take_two_most_recent|]. intros b.
  rewrite apply_hard_constraints_filter, list_elem_of_filter.
  unfold passes_hard_constraints, get_last_n_genres, get_vetoes.
  fold (get_reading_history db).
  rewrite elem_of_list_to_set, !list_elem_of_fmap.
  split.
  - intros ((Hid & Hlast & Hveto) & Hin). split_and!; [done|..].
    + intros e He Heq. apply Hid. by exists e.
    + intros t Ht Heq. apply Hlast. by exists t.
    + intros v Hv Hr Heq. apply Hveto. exists v. split; [done|].
      by apply list_elem_of_filter.
  - intros (Hin & Hid & Hlast & Hveto). split; [|done]. split_and!.
    + intros (e & Heq & He). by apply (Hid e).
    + intros (t & Heq & Ht). by apply (Hlast t).
    + intros (v & Heq & [Hr Hv]%list_elem_of_filter). by apply (Hveto v).
Qed.

(* ===================================================================== *)
(** ** The diversity bonus *)
(* ===================================================================== *)

Lemma books_since_loop_gap genre history k0 :
  books_since_loop genre history k0 =
  (fun k => (k0 + Z.of_nat k)%Z) <$> recency_gap genre history.
Proof.
  revert k0. induction history as [|e rest IH]; intros k0; cbn; [done|].
  case_bool_decide; case_decide; try done.
  - cbn. f_equal. lia.
  - rewrite IH. destruct (recency_gap genre rest); cbn; [|done].
    f_equal. lia.
Qed.

Lemma calculate_diversity_bonus_gap book history :
  calculate_diversity_bonus book history =
  match recency_gap (b_genre book) history with
  | None => PFloat 100
  | Some k => diversity_tier k
  end.
Proof.
  unfold calculate_diversity_bonus.
  destruct history as [|e rest]; [done|].
  rewrite books_since_loop_gap.
  destruct (recency_gap _ _) as [k|]; cbn; [|done].
  unfold diversity_tier.
  repeat case_bool_decide; repeat case_decide; try lia; done.
Qed.

Lemma recency_gap_None genre history :
  (∀ e, e ∈ history -> e_genre e ≠ genre) -> recency_gap genre history = None.
Proof.
  induction history as [|e rest IH]; intros H; cbn; [done|].
  case_decide as He.
  - exfalso. by apply (H e); [left|].
  - rewrite IH; [done|]. intros e' He'. apply H. by right.
Qed.

Lemma recency_gap_Some genre before e after :
  e_genre e = genre ->
  (∀ e', e' ∈ before -> e_genre e' ≠ genre) ->
  recency_gap genre (before ++ e :: after) = Some (length before).
Proof.
  intros He. induction before as [|e' before IH]; intros H; cbn.
  - by rewrite decide_True.
  - rewrite decide_False by (apply H; left).
    rewrite IH; [done|]. intros e'' He''. apply H. by right.
Qed.

(** C4: the diversity bonus is 100.0 when no history entry has the
    candidate's genre (in particular on an empty history); otherwise, with
    [k] the number of entries in front of the first entry of that genre, it
    is 100.0 for [k >= 5], 70.0 for [3 <= k < 5] and 0.0 for [k < 3].  For the
    history Mystery (round 5), Fantasy (round 4), SciFi (round 3) and a
    Fantasy candidate, [k = 1] and the bonus is 0.0. *)
Theorem calculate_diversity_bonus_tiers (book : book) (history : list history_entry) :
  ((∀ e, e ∈ history -> e_genre e ≠ b_genre book) ->
   calculate_diversity_bonus book history = PFloat 100) /\
  (∀ before e after,
     history = before ++ e :: after ->
     e_genre e = b_genre book ->
     (∀ e', e' ∈ before -> e_genre e' ≠ b_genre book) ->
     let k := length before in
     ((5 <= k)%nat -> calculate_diversity_bonus book history = PFloat 100) /\
     ((3 <= k < 5)%nat -> calculate_diversity_bonus book history = PFloat 70) /\
     ((k < 3)%nat -> calculate_diversity_bonus book history = PFloat 0)) /\
  calculate_diversity_bonus (mk_candidate "Fantasy" 300 None)
    [mk_history_entry "Mystery" 5; mk_history_entry "Fantasy" 4;
     mk_history_entry "SciFi" 3] = PFloat 0 /\
  recency_gap "Fantasy"
    [mk_history_entry "Mystery" 5; mk_history_entry "Fantasy" 4;
     mk_history_entry "SciFi" 3] = Some 1%nat.
Proof.
  split_and!.
  - intros H. by rewrite calculate_diversity_bonus_gap, recency_gap_None.
  - intros before e after -> He Hb k.
    rewrite calculate_diversity_bonus_gap, recency_gap_Some by done.
    fold k. unfold diversity_tier.
    split_and!; intros; repeat case_decide; try lia; done.
  - vm_compute. reflexivity.
  - vm_compute. reflexivity.
Qed.

Lemma calculate_diversity_bonus_tiers_witness :
  calculate_diversity_bonus (mk_candidate "Fantasy" 300 None)
    ([mk_history_entry "Mystery" 5] ++ mk_history_entry "Fantasy" 4 ::
       [mk_history_entry "SciFi" 3]) = PFloat 0.
Proof.
  refine (proj2 (proj2 (proj1 (proj2
    (calculate_diversity_bonus_tiers (mk_candidate "Fantasy" 300 None)
       ([mk_history_entry "Mystery" 5] ++ mk_history_entry "Fantasy" 4 ::
          [mk_history_entry "SciFi" 3])))
    [mk_history_entry "Mystery" 5] (mk_history_entry "Fantasy" 4)
    [mk_history_entry "SciFi" 3] eq_refl eq_refl _)) _).
  - intros e' He'. apply list_elem_of_singleton in He' as ->. vm_compute. discriminate.
  - cbn. lia.
Defined.

(** C10: the diversity bonus never decreases when the recency gap grows: if
    the first entry of the candidate's genre has at least as many entries in
    front of it in [history'] as in [history], or [history'] has no entry of
    that genre while [history] has one, the bonus on [history'] is at least
    the bonus on [history]. *)
Theorem calculate_diversity_bonus_monotone (book : book)
    (history history' : list history_entry) :
  ((∃ k k', recency_gap (b_genre book) history = Some k /\
            recency_gap (b_genre book) history' = Some k' /\ (k <= k')%nat) \/
   (recency_gap (b_genre book) history' = None /\
    is_Some (recency_gap (b_genre book) history))) ->
  num_val (calculate_diversity_bonus book history) <=
  num_val (calculate_diversity_bonus book history').
Proof.
  rewrite !calculate_diversity_bonus_gap.
  intros [(k & k' & -> & -> & Hk)|[-> [k ->]]]; unfold diversity_tier;
    repeat case_decide; try lia; cbn; lra.
Qed.

Lemma calculate_diversity_bonus_monotone_witness :
  num_val (calculate_diversity_bonus (mk_candidate "Fantasy" 300 None)
             [mk_history_entry "Mystery" 5; mk_history_entry "Fantasy" 4]) <=
  num_val (calculate_diversity_bonus (mk_candidate "Fantasy" 300 None)
             [mk_history_entry "Mystery" 5; mk_history_entry "SciFi" 4;
              mk_history_entry "Horror" 3; mk_history_entry "Fantasy" 2]).
Proof.
  apply calculate_diversity_bonus_monotone.
  left. exists 1%nat, 3%nat. vm_compute. split_and!; [reflexivity..|lia].
Defined.

(* ===================================================================== *)
(** ** The length preference *)
(* ===================================================================== *)

Lemma rnd_exact_eq (x : Q) (m e : Z) :
  x == inject_Z m * 2 ^ e -> (Z.abs m < 2 ^ 53)%Z -> (-1074 <= e)%Z ->
  rnd x == x.
Proof.
  intros Hx Hm He. rewrite (rnd_comp _ _ Hx), rnd_exact by done. by symmetry.
Qed.

Lemma rnd_pow2 (k : Z) : (-1074 <= k)%Z -> rnd (2 ^ k) == 2 ^ k.
Proof.
  intros Hk. apply (rnd_exact_eq _ 1 k); [|done..].
  change (inject_Z 1) with 1. ring.
Qed.

Lemma rnd_abs_le_pow2 (x : Q) (k : Z) :
  (-1074 <= k)%Z -> Qabs x <= 2 ^ k -> Qabs (rnd x) <= 2 ^ k.
Proof.
  intros Hk Hx. rewrite <- (rnd_pow2 k) by done. by apply rnd_abs_le.
Qed.

Lemma fl_ok_pow2 (x : Q) (k : Z) :
  (-1074 <= k < 1024)%Z -> Qabs x <= 2 ^ k -> fl x = Ok (rnd x).
Proof.
  intros Hk Hx. apply (fl_ok x (2 ^ k)); [done|].
  rewrite rnd_pow2 by lia. apply pow2_lt. lia.
Qed.

Lemma overflows_pow2 (r : Q) (k : Z) :
  (k < 1024)%Z -> Qabs r <= 2 ^ k -> overflows r = false.
Proof.
  intros Hk Hr. apply (overflows_bound r (2 ^ k)); [done|]. by apply pow2_lt.
Qed.

Lemma py_getitem_ok {A} `{!Inhabited A} (l : list A) (i : Z) :
  (0 <= i < Z.of_nat (length l))%Z -> py_getitem l i = Ok (l !!! Z.to_nat i).
Proof.
  intros Hi. unfold py_getitem. cbn zeta.
  rewrite (bool_decide_eq_false_2 (i < 0)%Z) by lia.
  rewrite (bool_decide_eq_false_2 (i < 0)%Z) by lia.
  destruct (lookup_lt_is_Some_2 l (Z.to_nat i)) as [x Hx]; [lia|].
  rewrite Hx. by rewrite (list_lookup_total_correct _ _ _ Hx).
Qed.

Lemma int4_abs (z : Z) : int4 z -> (Z.abs z <= 2 ^ 31)%Z.
Proof. unfold int4. lia. Qed.

Lemma Qabs_inject_Z (z : Z) : Qabs (inject_Z z) = inject_Z (Z.abs z).
Proof. reflexivity. Qed.

Lemma inject_Z_le_pow2 (z k : Z) :
  (0 <= k)%Z -> (z <= 2 ^ k)%Z -> inject_Z z <= 2 ^ k.
Proof. intros Hk Hz. rewrite <- pow2_inject by done. by rewrite <- Zle_Qle. Qed.

Lemma py_max_zero (x : pynum) : num_val (py_max (PInt 0) x) == Qmax 0 (num_val x).
Proof.
  unfold py_max, py_lt. cbn [num_val]. change (inject_Z 0) with 0.
  destruct (Qle_bool (num_val x) 0) eqn:Hle; cbn.
  - apply Qle_bool_iff in Hle. change (inject_Z 0) with 0.
    symmetry. by apply Q.max_l.
  - assert (0 <= num_val x).
    { apply Qlt_le_weak, Qnot_le_lt. intros H. apply Qle_bool_iff in H. congruence. }
    symmetry. by apply Q.max_r.
Qed.

Lemma bind_Ok {A B} (f : A -> outcome B) (a : A) : (Ok a ≫= f) = f a.
Proof. done. Qed.

Lemma fmap_Ok {A B} (f : A -> B) (a : A) : f <$> Ok a = Ok (f a).
Proof. done. Qed.

Lemma py_sub_int_float (z : Z) (f : Q) :
  (Z.abs z < 2 ^ 53)%Z ->
  py_sub (PInt z) (PFloat f) = PFloat <$> fl (inject_Z z - f).
Proof. intros Hz. cbn. by rewrite float_of_int_ok. Qed.

Lemma py_truediv_float_int (f : Q) (z : Z) :
  (Z.abs z < 2 ^ 53)%Z -> z ≠ 0%Z ->
  py_truediv (PFloat f) (PInt z) = PFloat <$> fl (f / inject_Z z).
Proof.
  intros Hz Hz0. cbn. rewrite float_of_int_ok by done. cbn.
  destruct (Qeq_bool (inject_Z z) 0) eqn:Hq; [|done].
  apply Qeq_bool_iff in Hq. change 0 with (inject_Z 0) in Hq.
  rewrite inject_Z_injective in Hq. done.
Qed.

Lemma py_truediv_int_int (x y : Z) (k : Z) :
  y ≠ 0%Z -> (k < 1024)%Z ->
  Qabs (rnd (inject_Z x / inject_Z y)) <= 2 ^ k ->
  py_truediv (PInt x) (PInt y) = Ok (PFloat (rnd (inject_Z x / inject_Z y))).
Proof.
  intros Hy Hk Hr. cbn. rewrite bool_decide_eq_false_2 by done.
  by rewrite (overflows_pow2 _ k).
Qed.

Lemma py_mul_float (f : Q) (b : pynum) (y : Q) :
  to_float b = Ok y -> py_mul (PFloat f) b = PFloat <$> fl (f * y).
Proof. intros Hb. unfold py_mul. cbn [to_float]. by destruct b; rewrite Hb. Qed.

Lemma py_add_float (f g : Q) :
  py_add (PFloat f) (PFloat g) = PFloat <$> fl (f + g).
Proof. done. Qed.

(** The last two steps of [calculate_length_preference], from the penalty. *)
Lemma length_score_from_distance (d : pynum) :
  0 <= num_val d <= 2 ^ 40 ->
  ∃ pen rest,
    py_truediv d (PInt 5) = Ok (PFloat pen) /\
    pen = rnd (num_val d / 5) /\
    py_sub (PInt 100) (PFloat pen) = Ok (PFloat rest) /\
    rest = rnd (100 - pen).
Proof.
  intros [Hd0 Hd1].
  assert (Hq : Qabs (num_val d / 5) <= 2 ^ 40).
  { rewrite Qabs_pos; [|apply Qle_shift_div_l; lra].
    apply Qle_shift_div_r; [done|]. pose proof (pow2_pos 40). lra. }
  assert (Hpen : Qabs (rnd (num_val d / 5)) <= 2 ^ 40) by (by apply rnd_abs_le_pow2).
  assert (Hpen0 : 0 <= rnd (num_val d / 5)).
  { apply rnd_nonneg. apply Qle_shift_div_l; lra. }
  exists (rnd (num_val d / 5)), (rnd (100 - rnd (num_val d / 5))).
  split_and!; [|done| |done].
  - destruct d as [z|f]; cbn [num_val] in *.
    + by apply (py_truediv_int_int _ _ 40).
    + rewrite py_truediv_float_int by done.
      change (inject_Z 5) with 5. by rewrite (fl_ok_pow2 _ 40).
  - rewrite py_sub_int_float by done.
    change (inject_Z 100) with 100.
    rewrite (fl_ok_pow2 _ 41); [done|lia|].
    apply Qabs_Qle_condition in Hpen as [Hp1 Hp2].
    apply Qabs_Qle_condition.
    assert (H41 : 2 ^ 41 == 2 * 2 ^ 40) by (apply (pow2_succ 40)).
    assert (100 <= 2 ^ 40) by (rewrite <- (pow2_inject 40) by done; by vm_compute).
    lra.
Qed.

Lemma nat_half_even (N : nat) :
  Nat.even N = true ->
  ∃ k, N = (2 * k)%nat /\ (Z.of_nat N / 2)%Z = Z.of_nat k /\
       (N / 2)%nat = k /\ (Z.of_nat N mod 2 = 0)%Z.
Proof.
  intros [k ->]%Nat.even_spec. exists k. split_and!; [done|..].
  - rewrite Nat2Z.inj_mul, Z.mul_comm, Z.div_mul; lia.
  - rewrite Nat.mul_comm. apply Nat.div_mul. lia.
  - rewrite Nat2Z.inj_mul, Z.mul_comm. apply Z.mod_mul. lia.
Qed.

Lemma nat_half_odd (N : nat) :
  Nat.even N = false ->
  ∃ k, N = (2 * k + 1)%nat /\ (Z.of_nat N / 2)%Z = Z.of_nat k /\
       (N / 2)%nat = k /\ (Z.of_nat N mod 2 <> 0)%Z.
Proof.
  intros Hodd. rewrite <- Nat.negb_odd in Hodd. apply negb_false_iff in Hodd.
  apply Nat.odd_spec in Hodd as [k ->]. exists k. split_and!; [done|..].
  - symmetry. apply (Z.div_unique _ 2 _ 1); lia.
  - symmetry. apply (Nat.div_unique _ 2 k 1); lia.
  - replace (Z.of_nat (2 * k + 1)) with (1 + Z.of_nat k * 2)%Z by lia.
    rewrite Z.mod_add by lia. done.
Qed.

Lemma calculate_length_preference_value (book : book) (members : list member) :
  members ≠ [] -> Forall wf_member members -> wf_book book ->
  ∃ v, calculate_length_preference book members = Ok v /\
       num_val v ==
       length_fit (b_page_count book)
         (median_of (stable_sort Z.ltb (m_preferred_length <$> members))).
Proof.
  intros Hne Hwf Hb.
  unfold calculate_length_preference.
  destruct members as [|m0 ms0]; [done|].
  set (members := m0 :: ms0) in *.
  set (S := stable_sort Z.ltb (m_preferred_length <$> members)).
  cbv zeta.
  assert (HS : Forall int4 S).
  { unfold S. rewrite stable_sort_perm. apply Forall_fmap.
    eapply Forall_impl; [exact Hwf|]. done. }
  assert (HN : (length S <> 0)%nat).
  { unfold S. rewrite stable_sort_length, length_fmap. done. }
  assert (Hget : ∀ i, (i < length S)%nat -> int4 (S !!! i)).
  { intros i Hi. rewrite Forall_lookup in HS.
    destruct (lookup_lt_is_Some_2 S i Hi) as [x Hx].
    rewrite (list_lookup_total_correct _ _ _ Hx). by eapply HS. }
  unfold wf_book in Hb. set (p := b_page_count book) in *.
  pose proof (int4_abs p Hb) as Hp.
  assert (Hfin : ∀ d : pynum,
    0 <= num_val d <= 2 ^ 40 ->
    num_val d == Qabs (inject_Z p - median_of S) ->
    ∃ v, (penalty ← py_truediv d (PInt 5);
          rest ← py_sub (PInt 100) penalty;
          Ok (py_max (PInt 0) rest)) = Ok v /\
         num_val v == length_fit p (median_of S)).
  { intros d Hd Hdm.
    destruct (length_score_from_distance d Hd) as (pen & rest & H1 & -> & H2 & ->).
    rewrite H1, bind_Ok, H2, bind_Ok.
    eexists; split; [done|].
    rewrite py_max_zero. cbn [num_val]. unfold length_fit.
    by rewrite (rnd_comp _ _ (Qdiv_comp _ _ Hdm 5 5 (Qeq_refl 5))). }
  unfold median_of in Hfin |- *. cbv zeta in Hfin.
  destruct (Nat.even (length S)) eqn:Heven.
  - destruct (nat_half_even _ Heven) as (k & HNk & HZk & Hk & Hmod).
    rewrite bool_decide_eq_true_2 by done.
    rewrite HZk, Hk in *.
    rewrite !py_getitem_ok by lia.
    replace (Z.to_nat (Z.of_nat k - 1)) with (k - 1)%nat by lia.
    rewrite Nat2Z.id, !bind_Ok.
    pose proof (int4_abs _ (Hget (k - 1)%nat ltac:(lia))) as Ha.
    pose proof (int4_abs _ (Hget k ltac:(lia))) as Hc.
    set (lo := S !!! (k - 1)%nat) in *.
    set (hi := S !!! k) in *.
    set (med := (inject_Z lo + inject_Z hi) / 2) in *.
    assert (Hmed : inject_Z (lo + hi) / inject_Z 2 == med).
    { unfold med. rewrite inject_Z_plus. reflexivity. }
    assert (Hmed2 : med == inject_Z (lo + hi) * 2 ^ (-1)).
    { rewrite <- Hmed. reflexivity. }
    assert (Hrm : rnd (inject_Z (lo + hi) / inject_Z 2) == med).
    { rewrite (rnd_comp _ _ Hmed). apply (rnd_exact_eq _ _ _ Hmed2); lia. }
    assert (Hmabs : Qabs med <= 2 ^ 32).
    { rewrite Hmed2, Qabs_Qmult, Qabs_inject_Z.
      change (Qabs (2 ^ (-1))) with (1 # 2).
      assert (inject_Z (Z.abs (lo + hi)) <= 2 ^ 32) by (apply inject_Z_le_pow2; lia).
      lra. }
    rewrite (py_truediv_int_int _ _ 32); [|done|lia|by rewrite Hrm].
    rewrite bind_Ok, py_sub_int_float by lia.
    set (r := rnd (inject_Z (lo + hi) / inject_Z 2)) in *.
    assert (Hdiff : inject_Z p - r == inject_Z (2 * p - lo - hi) * 2 ^ (-1)).
    { rewrite Hrm, Hmed2. change (2 ^ (-1)) with (1 # 2).
      unfold Z.sub. rewrite !inject_Z_plus, inject_Z_mult, !inject_Z_opp.
      change (inject_Z 2) with 2. ring. }
    assert (Hrd : rnd (inject_Z p - r) == inject_Z p - med).
    { rewrite (rnd_exact_eq _ _ _ Hdiff) by lia. by rewrite Hrm. }
    assert (Hdabs : Qabs (inject_Z p - r) <= 2 ^ 33).
    { rewrite Hdiff, Qabs_Qmult, Qabs_inject_Z.
      change (Qabs (2 ^ (-1))) with (1 # 2).
      assert (inject_Z (Z.abs (2 * p - lo - hi)) <= 2 ^ 33) by (apply inject_Z_le_pow2; lia).
      lra. }
    rewrite (fl_ok_pow2 _ 33), fmap_Ok, bind_Ok by (done || lia).
    cbn [py_abs].
    apply (Hfin (PFloat (Qabs (rnd (inject_Z p - r))))); cbn [num_val].
    + split; [apply Qabs_nonneg|].
      apply Qle_trans with (2 ^ 33); [by apply rnd_abs_le_pow2|].
      by apply pow2_le.
    + by rewrite Hrd.
  - destruct (nat_half_odd _ Heven) as (k & HNk & HZk & Hk & Hmod).
    rewrite bool_decide_eq_false_2 by done.
    rewrite HZk, Hk in *.
    rewrite py_getitem_ok by lia.
    rewrite Nat2Z.id, fmap_Ok, bind_Ok.
    pose proof (int4_abs _ (Hget k ltac:(lia))) as Hc.
    set (mid := S !!! k) in *.
    cbn [py_sub]. rewrite bind_Ok. cbn [py_abs].
    apply (Hfin (PInt (Z.abs (p - mid)))); cbn [num_val].
    + split; [rewrite <- (Zle_Qle 0); lia|].
      apply inject_Z_le_pow2; lia.
    + rewrite <- Qabs_inject_Z. unfold Z.sub.
      by rewrite inject_Z_plus, inject_Z_opp.
Qed.

(* ===================================================================== *)
(** ** The weighted total *)
(* ===================================================================== *)

Lemma rnd_between (x lo hi : Q) : lo <= x <= hi -> rnd lo <= rnd x <= rnd hi.
Proof. intros [H1 H2]. split; by apply rnd_mono. Qed.

Lemma rnd_in_range (x lo hi : Q) :
  rnd lo = lo -> rnd hi = hi -> lo <= x <= hi -> lo <= rnd x <= hi.
Proof.
  intros Hlo Hhi H. destruct (rnd_between x lo hi H) as [A B].
  rewrite Hlo in A. rewrite Hhi in B. done.
Qed.

Lemma Qabs_le_of_range (x hi : Q) : 0 <= x <= hi -> Qabs x <= hi.
Proof. intros [H1 H2]. by rewrite Qabs_pos. Qed.

Lemma to_float_small (a : pynum) :
  0 <= num_val a <= 100 -> to_float a = Ok (num_val a).
Proof.
  destruct a as [z|f]; cbn [to_float num_val]; [|done].
  intros [H1 H2]. apply float_of_int_ok.
  change 0 with (inject_Z 0) in H1. change 100 with (inject_Z 100) in H2.
  rewrite <- Zle_Qle in H1, H2. lia.
Qed.

Lemma pow2_7 : 2 ^ 7 == 128.
Proof. reflexivity. Qed.

(** One term [w * score] of the weighted total. *)
Lemma weight_mul (w : Q) (a : pynum) :
  0 <= w <= 1 -> 0 <= num_val a <= 100 ->
  py_mul (PFloat w) a = Ok (PFloat (rnd (w * num_val a))) /\
  0 <= rnd (w * num_val a) <= rnd (w * 100).
Proof.
  intros Hw Ha.
  assert (Hr : 0 <= w * num_val a <= w * 100) by nra.
  rewrite (py_mul_float _ _ _ (to_float_small a Ha)).
  rewrite (fl_ok_pow2 _ 7); [|lia|].
  - split; [done|]. split; [apply rnd_nonneg|apply rnd_mono]; lra.
  - rewrite pow2_7. apply Qabs_le_of_range. nra.
Qed.

Lemma float_add (f g hi : Q) :
  0 <= f -> 0 <= g -> f + g <= hi -> hi <= 128 ->
  py_add (PFloat f) (PFloat g) = Ok (PFloat (rnd (f + g))) /\
  0 <= rnd (f + g) <= rnd hi.
Proof.
  intros Hf Hg Hhi H128.
  rewrite py_add_float, (fl_ok_pow2 _ 7); [|lia|].
  - split; [done|]. split; [apply rnd_nonneg|apply rnd_mono]; lra.
  - rewrite pow2_7. apply Qabs_le_of_range. lra.
Qed.

Lemma py_round2_range (t : Q) :
  0 <= t <= 100 ->
  py_round2 (PFloat t) = Ok (PFloat (round_2dp t)) /\ 0 <= round_2dp t <= 100.
Proof.
  intros Ht. unfold round_2dp. cbn [py_round2].
  assert (Hn : (0 <= round_half_even (t * 100) <= 10000)%Z).
  { split; [apply round_half_even_ge|apply round_half_even_le];
      [change (inject_Z 0) with 0|change (inject_Z 10000) with 10000]; lra. }
  destruct Hn as [Hn1 Hn2]. rewrite Zle_Qle in Hn1, Hn2.
  change (inject_Z 0) with 0 in Hn1. change (inject_Z 10000) with 10000 in Hn2.
  set (n := inject_Z (round_half_even (t * 100))) in *.
  assert (Hq : 0 <= n / 100 <= 100).
  { split; [apply Qle_shift_div_l|apply Qle_shift_div_r]; lra. }
  rewrite (fl_ok_pow2 _ 7); [|lia|].
  - split; [done|]. by apply rnd_in_range; [vm_compute..|].
  - rewrite pow2_7. apply Qabs_le_of_range. lra.
Qed.

Lemma weights_range :
  0 <= w_genre_match WEIGHTS <= 1 /\ 0 <= w_length_preference WEIGHTS <= 1 /\
  0 <= w_member_interest WEIGHTS <= 1 /\ 0 <= w_diversity_bonus WEIGHTS <= 1.
Proof. vm_compute. repeat split; discriminate. Qed.

(** The weighted sum and its rounding, for sub-scores in [0, 100], followed
    by the rest [k] of the computation. *)
Lemma weighted_total_value {B} (a b c d : pynum) (k : pynum -> outcome B) :
  in_score_range a -> in_score_range b -> in_score_range c -> in_score_range d ->
  let total :=
    round_2dp (weighted_total (num_val a) (num_val b) (num_val c) (num_val d)) in
  (t1 ← py_mul (PFloat (w_genre_match WEIGHTS)) a;
   t2 ← py_mul (PFloat (w_length_preference WEIGHTS)) b;
   s12 ← py_add t1 t2;
   t3 ← py_mul (PFloat (w_member_interest WEIGHTS)) c;
   s123 ← py_add s12 t3;
   t4 ← py_mul (PFloat (w_diversity_bonus WEIGHTS)) d;
   total_score ← py_add s123 t4;
   rounded ← py_round2 total_score;
   k rounded) = k (PFloat total) /\
  0 <= total <= 100.
Proof.
  intros Ha Hb Hc Hd total.
  destruct weights_range as (W1 & W2 & W3 & W4).
  destruct (weight_mul _ a W1 Ha) as [E1 R1].
  destruct (weight_mul _ b W2 Hb) as [E2 R2].
  destruct (weight_mul _ c W3 Hc) as [E3 R3].
  destruct (weight_mul _ d W4 Hd) as [E4 R4].
  replace (rnd (w_genre_match WEIGHTS * 100)) with 40 in R1
    by (vm_compute; reflexivity).
  replace (rnd (w_length_preference WEIGHTS * 100)) with 20 in R2
    by (vm_compute; reflexivity).
  replace (rnd (w_member_interest WEIGHTS * 100)) with 30 in R3
    by (vm_compute; reflexivity).
  replace (rnd (w_diversity_bonus WEIGHTS * 100)) with 10 in R4
    by (vm_compute; reflexivity).
  rewrite E1, bind_Ok, E2, bind_Ok.
  destruct (float_add _ _ 60 (proj1 R1) (proj1 R2)) as [E12 R12]; [lra..|].
  replace (rnd 60) with 60 in R12 by (vm_compute; reflexivity).
  rewrite E12, bind_Ok, E3, bind_Ok.
  destruct (float_add _ _ 90 (proj1 R12) (proj1 R3)) as [E123 R123]; [lra..|].
  replace (rnd 90) with 90 in R123 by (vm_compute; reflexivity).
  rewrite E123, bind_Ok, E4, bind_Ok.
  destruct (float_add _ _ 100 (proj1 R123) (proj1 R4)) as [E1234 R1234]; [lra..|].
  replace (rnd 100) with 100 in R1234 by (vm_compute; reflexivity).
  rewrite E1234, bind_Ok.
  destruct (py_round2_range _ R1234) as [E R].
  rewrite E, bind_Ok.
  assert (Et : total =
    round_2dp (rnd (rnd (rnd (rnd (w_genre_match WEIGHTS * num_val a) +
                              rnd (w_length_preference WEIGHTS * num_val b)) +
                         rnd (w_member_interest WEIGHTS * num_val c)) +
                    rnd (w_diversity_bonus WEIGHTS * num_val d)))).
  { reflexivity. }
  rewrite Et. split; [reflexivity|exact R].
Qed.

Lemma calculate_genre_match_value (book : book) (members : list member) :
  members ≠ [] ->
  let k := inject_Z (members_who_like book members) in
  let n := inject_Z (Z.of_nat (length members)) in
  calculate_genre_match book members = Ok (PFloat (rnd (rnd (k / n) * 100))) /\
  0 <= rnd (rnd (k / n) * 100) <= 100.
Proof.
  intros Hne k n. unfold calculate_genre_match.
  destruct members as [|m0 ms0]; [done|].
  set (members := m0 :: ms0) in *.
  assert (Hn : (1 <= Z.of_nat (length members))%Z) by (cbn; lia).
  assert (Hk : (0 <= members_who_like book members <= Z.of_nat (length members))%Z).
  { unfold members_who_like. pose proof (length_filter (fun m => b_genre book ∈ m_liked_genres m) members). lia. }
  destruct Hk as [Hk1 Hk2]. pose proof Hn as HnZ.
  rewrite Zle_Qle in Hn, Hk1, Hk2.
  fold k n in Hn, Hk1, Hk2. change (inject_Z 1) with 1 in Hn. change (inject_Z 0) with 0 in Hk1.
  assert (Hq : 0 <= k / n <= 1).
  { split; [apply Qle_shift_div_l|apply Qle_shift_div_r]; lra. }
  assert (Hr : 0 <= rnd (k / n) <= 1).
  { by apply rnd_in_range; [vm_compute..|]. }
  rewrite (py_truediv_int_int _ _ 0); [|lia|lia|].
  2:{ fold k n. change (2 ^ 0) with 1. by apply Qabs_le_of_range. }
  fold k n. rewrite bind_Ok.
  rewrite (py_mul_float _ _ 100) by (by apply float_of_int_ok).
  assert (Hm : 0 <= rnd (k / n) * 100 <= 100) by lra.
  rewrite (fl_ok_pow2 _ 7); [|lia|].
  - split; [done|]. by apply rnd_in_range; [vm_compute..|].
  - rewrite pow2_7. apply Qabs_le_of_range. lra.
Qed.

(* ===================================================================== *)
(** ** Ranges of the sub-scores *)
(* ===================================================================== *)

Lemma length_fit_range (p : Z) (med : Q) : 0 <= length_fit p med <= 100.
Proof.
  unfold length_fit.
  set (pen := rnd (Qabs (inject_Z p - med) / 5)).
  assert (Hpen : 0 <= pen).
  { apply rnd_nonneg. apply Qle_shift_div_l; [done|].
    pose proof (Qabs_nonneg (inject_Z p - med)). lra. }
  assert (Hr : rnd (100 - pen) <= 100).
  { replace 100 with (rnd 100) at 2 by (vm_compute; reflexivity).
    apply rnd_mono. lra. }
  split.
  - apply Q.le_max_l.
  - apply Q.max_lub; [done|exact Hr].
Qed.

Lemma calculate_length_preference_range (book : book) (members : list member) :
  Forall wf_member members -> wf_book book ->
  ∃ b, calculate_length_preference book members = Ok b /\ in_score_range b.
Proof.
  intros Hwf Hb. destruct (decide (members = [])) as [->|Hne].
  - eexists. split; [reflexivity|]. vm_compute. split; discriminate.
  - destruct (calculate_length_preference_value book members Hne Hwf Hb) as (v & Hv & Hval).
    exists v. split; [done|]. unfold in_score_range. rewrite Hval.
    apply length_fit_range.
Qed.

Lemma calculate_genre_match_range (book : book) (members : list member) :
  ∃ a, calculate_genre_match book members = Ok a /\ in_score_range a.
Proof.
  destruct (decide (members = [])) as [->|Hne].
  - eexists. split; [reflexivity|]. vm_compute. split; discriminate.
  - destruct (calculate_genre_match_value book members Hne) as [Hv Hr].
    eexists. split; [exact Hv|]. exact Hr.
Qed.

Lemma calculate_member_interest_range (book : book) (members : list member) :
  in_score_range (calculate_member_interest book members).
Proof.
  unfold calculate_member_interest.
  destruct (b_suggested_by book); vm_compute; split; discriminate.
Qed.

Lemma calculate_diversity_bonus_range (book : book) (history : list history_entry) :
  in_score_range (calculate_diversity_bonus book history).
Proof.
  rewrite calculate_diversity_bonus_gap.
  destruct (recency_gap _ _) as [k|]; [unfold diversity_tier; repeat case_decide|];
    vm_compute; split; discriminate.
Qed.

(** What [calculate_book_score] returns on rows of the schema. *)
Lemma calculate_book_score_value (book : book) (members : list member)
    (history : list history_entry) :
  Forall wf_member members -> wf_book book ->
  ∃ a b,
    calculate_genre_match book members = Ok a /\
    calculate_length_preference book members = Ok b /\
    in_score_range a /\ in_score_range b /\
    let c := calculate_member_interest book members in
    let d := calculate_diversity_bonus book history in
    let total :=
      round_2dp (weighted_total (num_val a) (num_val b) (num_val c) (num_val d)) in
    calculate_book_score book members history =
      Ok (PFloat total,
          {| genre_match := a; length_preference := b;
             member_interest := c; diversity_bonus := d |}) /\
    0 <= total <= 100.
Proof.
  intros Hwf Hb.
  destruct (calculate_genre_match_range book members) as (a & Ha & Ra).
  destruct (calculate_length_preference_range book members Hwf Hb) as (b & Hbv & Rb).
  exists a, b. split_and!; [done..|]. intros c d total.
  pose proof (calculate_member_interest_range book members) as Rc.
  pose proof (calculate_diversity_bonus_range book history) as Rd.
  unfold calculate_book_score. rewrite Ha, bind_Ok, Hbv, bind_Ok.
  cbv zeta. fold c d.
  exact (weighted_total_value a b c d _ Ra Rb Rc Rd).
Qed.

(* ===================================================================== *)
(** ** The scoring claims *)
(* ===================================================================== *)

Lemma scenario_members_wf : Forall wf_member scenario_members.
Proof. repeat constructor; unfold wf_member, int4; cbn; lia. Defined.

Lemma scenario_book_wf : wf_book scenario_book.
Proof. unfold wf_book, int4; cbn; lia. Defined.

(** C3: on rows of the schema the scoring operation returns a total and a
    breakdown; the breakdown holds the four sub-scores as their functions
    return them (unrounded), and the total is
    [round(0.4*a + 0.2*b + 0.3*c + 0.1*d, 2)] of exactly those four values,
    evaluated in binary64 from left to right. *)
Theorem calculate_book_score_weighted_total (book : book) (members : list member)
    (history : list history_entry) :
  Forall wf_member members -> wf_book book ->
  ∃ total bd,
    calculate_book_score book members history = Ok (total, bd) /\
    calculate_genre_match book members = Ok (genre_match bd) /\
    calculate_length_preference book members = Ok (length_preference bd) /\
    member_interest bd = calculate_member_interest book members /\
    diversity_bonus bd = calculate_diversity_bonus book history /\
    total =
      PFloat (round_2dp (weighted_total
                (num_val (genre_match bd)) (num_val (length_preference bd))
                (num_val (member_interest bd)) (num_val (diversity_bonus bd)))).
Proof.
  intros Hwf Hb.
  destruct (calculate_book_score_value book members history Hwf Hb)
    as (a & b & Ha & Hbv & _ & _ & Hs & _).
  eexists _, _. split; [exact Hs|]. by cbn.
Qed.

Lemma calculate_book_score_weighted_total_witness :
  ∃ total bd,
    calculate_book_score scenario_book scenario_members [] = Ok (total, bd) /\
    calculate_genre_match scenario_book scenario_members = Ok (genre_match bd) /\
    calculate_length_preference scenario_book scenario_members
      = Ok (length_preference bd) /\
    member_interest bd = calculate_member_interest scenario_book scenario_members /\
    diversity_bonus bd = calculate_diversity_bonus scenario_book [] /\
    total =
      PFloat (round_2dp (weighted_total
                (num_val (genre_match bd)) (num_val (length_preference bd))
                (num_val (member_interest bd)) (num_val (diversity_bonus bd)))).
Proof.
  exact (calculate_book_score_weighted_total scenario_book scenario_members []
           scenario_members_wf scenario_book_wf).
Defined.

(** C5: with at least one participant the length-fit sub-score is
    [max(0, 100 - |page_count - median| / 5)], where the median of the
    preferred lengths is the middle value of their sorted list, or the mean
    of the two middle values when their number is even; with no participant
    it is 50.0.  For participants preferring 350 pages (liking Fantasy) and
    280 pages (liking Mystery) and a Fantasy candidate of 310 pages with no
    suggester and an empty history, the median is 315, the sub-scores are
    50.0, 99.0, 50.0, 100.0 and the total is 64.8. *)
Theorem calculate_length_preference_median :
  (∀ (book : book) (members : list member) (sorted : list Z),
     members ≠ [] -> Forall wf_member members -> wf_book book ->
     Sorted Z.le sorted -> sorted ≡ₚ m_preferred_length <$> members ->
     ∃ v, calculate_length_preference book members = Ok v /\
          num_val v == length_fit (b_page_count book) (median_of sorted)) /\
  (∀ book : book, calculate_length_preference book [] = Ok (PFloat 50)) /\
  median_of [280; 350]%Z == 315 /\
  calculate_book_score scenario_book scenario_members [] =
    Ok (PFloat (float_lit (648 # 10)),
        {| genre_match := PFloat 50; length_preference := PFloat 99;
           member_interest := PFloat 50; diversity_bonus := PFloat 100 |}).
Proof.
  split_and!.
  - intros book members sorted Hne Hwf Hb Hs Hp.
    destruct (calculate_length_preference_value book members Hne Hwf Hb)
      as (v & Hv & Hval).
    exists v. split; [done|].
    replace sorted with (stable_sort Z.ltb (m_preferred_length <$> members)); [done|].
    apply sorted_perm_unique.
    + eapply StronglySorted_impl; last apply stable_sort_sorted.
      * intros x y. unfold sort_le. rewrite Z.ltb_ge. done.
      * intros x y. rewrite Z.ltb_lt, Z.ltb_ge. lia.
      * intros x y z. unfold sort_le. rewrite !Z.ltb_ge. lia.
    + apply Sorted_StronglySorted; [|done]. intros x y z. apply Z.le_trans.
    + by rewrite stable_sort_perm.
  - done.
  - reflexivity.
  - vm_compute. reflexivity.
Qed.

Lemma calculate_length_preference_median_witness :
  ∃ v, calculate_length_preference scenario_book scenario_members = Ok v /\
       num_val v == length_fit 310 (median_of [280; 350]%Z).
Proof.
  refine (proj1 calculate_length_preference_median scenario_book scenario_members
            [280; 350]%Z _ scenario_members_wf scenario_book_wf _ _).
  - discriminate.
  - repeat constructor; lia.
  - apply perm_swap.
Defined.

(** C6: on rows of the schema each of the four sub-scores lies in
    [0, 100], and so does the total score. *)
Theorem calculate_book_score_range (book : book) (members : list member)
    (history : list history_entry) :
  Forall wf_member members -> wf_book book ->
  ∃ total bd,
    calculate_book_score book members history = Ok (total, bd) /\
    0 <= num_val (genre_match bd) <= 100 /\
    0 <= num_val (length_preference bd) <= 100 /\
    0 <= num_val (member_interest bd) <= 100 /\
    0 <= num_val (diversity_bonus bd) <= 100 /\
    0 <= num_val total <= 100.
Proof.
  intros Hwf Hb.
  destruct (calculate_book_score_value book members history Hwf Hb)
    as (a & b & Ha & Hbv & Ra & Rb & Hs & Rt).
  eexists _, _. split; [exact Hs|]. cbn [genre_match length_preference member_interest diversity_bonus num_val].
  split; [exact Ra|]. split; [exact Rb|].
  split; [apply calculate_member_interest_range|].
  split; [apply calculate_diversity_bonus_range|]. exact Rt.
Qed.

Lemma calculate_book_score_range_witness :
  ∃ total bd,
    calculate_book_score scenario_book scenario_members [] = Ok (total, bd) /\
    0 <= num_val (genre_match bd) <= 100 /\
    0 <= num_val (length_preference bd) <= 100 /\
    0 <= num_val (member_interest bd) <= 100 /\
    0 <= num_val (diversity_bonus bd) <= 100 /\
    0 <= num_val total <= 100.
Proof.
  exact (calculate_book_score_range scenario_book scenario_members []
           scenario_members_wf scenario_book_wf).
Defined.

(** C7, as stated, fails: added in binary64 in the order the dictionary
    lists them, the four weights give a value above 1. *)
Lemma weights_sum_not_one :
  ∃ s, sum_weights WEIGHTS = Ok (PFloat s) /\ 1 < s.
Proof.
  exists (4503599627370497 # 4503599627370496). split.
  - vm_compute. reflexivity.
  - reflexivity.
Qed.

(** C7, amended: the four weights are the binary64 values nearest to 0.4,
    0.2, 0.3 and 0.1; these decimals sum to 1 exactly, while the binary64 sum
    of the weights in their declared order is [1 + 2^-52]
    (1.0000000000000002).  The weighted total of four sub-scores of 100.0,
    which is where the program adds the weights up, is exactly 100.0. *)
Theorem weights_sum :
  WEIGHTS = {| w_genre_match := float_lit (4 # 10);
               w_length_preference := float_lit (2 # 10);
               w_member_interest := float_lit (3 # 10);
               w_diversity_bonus := float_lit (1 # 10) |} /\
  (4 # 10) + (2 # 10) + (3 # 10) + (1 # 10) == 1 /\
  sum_weights WEIGHTS = Ok (PFloat (1 + 2 ^ (-52))) /\
  weighted_total 100 100 100 100 = 100.
Proof.
  split_and!; [reflexivity|reflexivity| |]; vm_compute; reflexivity.
Qed.

(** Replays on the kernel's binary64 floats. *)
Example binary64_weights_sum :
  prim2Q (0 + 0.4 + 0.2 + 0.3 + 0.1)%float = Some (1 + 2 ^ (-52)) /\
  PrimFloat.eqb (0 + 0.4 + 0.2 + 0.3 + 0.1) 1 = false.
Proof. vm_compute. split; reflexivity. Qed.

Example binary64_weights :
  prim2Q 0.4%float = Some (w_genre_match WEIGHTS) /\
  prim2Q 0.2%float = Some (w_length_preference WEIGHTS) /\
  prim2Q 0.3%float = Some (w_member_interest WEIGHTS) /\
  prim2Q 0.1%float = Some (w_diversity_bonus WEIGHTS).
Proof. vm_compute. repeat split. Qed.

Example binary64_scenario_total :
  prim2Q (0.4 * 50 + 0.2 * 99 + 0.3 * 50 + 0.1 * 100)%float =
    Some (weighted_total 50 99 50 100) /\
  prim2Q 64.8%float = Some (round_2dp (weighted_total 50 99 50 100)).
Proof. vm_compute. repeat split. Qed.

(** [round(x, 2)] on the cases Python's documentation discusses: 2.675 is
    stored below the tie and goes down, 0.125 and 0.375 are exact ties and go
    to the even digit, 1.005 is stored below the tie. *)
Example round_2dp_samples :
  round_2dp (float_lit (2675 # 1000)) = float_lit (267 # 100) /\
  round_2dp (1 # 8) = float_lit (12 # 100) /\
  round_2dp (3 # 8) = float_lit (38 # 100) /\
  round_2dp (float_lit (1005 # 1000)) = float_lit 1.
Proof. vm_compute. repeat split. Qed.

Example binary64_rounding_samples :
  prim2Q (1 / 3)%float = Some (rnd (1 / 3)) /\
  prim2Q (2 / 3 * 100)%float = Some (rnd (rnd (2 / 3) * 100)) /\
  prim2Q (100 - 7 / 5)%float = Some (rnd (100 - rnd (7 / 5))) /\
  prim2Q (0x1p-1074 / 2)%float = Some (rnd (rnd (2 ^ (-1074)) / 2)) /\
  prim2Q (0x3p-1074 / 2)%float = Some (rnd (rnd (3 * 2 ^ (-1074)) / 2)).
Proof. vm_compute. repeat split. Qed.

(* ===================================================================== *)
(** ** The recommendation request *)
(* ===================================================================== *)

Lemma calculate_book_score_ok book members history :
  Forall wf_member members -> wf_book book ->
  ∃ total bd, calculate_book_score book members history = Ok (total, bd).
Proof.
  intros Hm Hb.
  destruct (calculate_book_score_value book members history Hm Hb)
    as (x & y & _ & _ & _ & _ & Hs & _).
  eexists _, _. exact Hs.
Qed.

Lemma score_loop_ok members history books acc :
  Forall wf_member members -> Forall wf_book books ->
  ∃ scored,
    score_loop members history books acc = Ok (acc ++ scored) /\
    Forall2 (scored_from members history) books scored.
Proof.
  intros Hm Hb. revert acc.
  induction Hb as [|b books Hb Hbs IH]; intros acc; cbn [score_loop].
  - exists []. by rewrite app_nil_r.
  - destruct (calculate_book_score_ok b members history Hm Hb) as (total & bd & Hs).
    rewrite Hs, bind_Ok.
    set (sb := {| sb_book := b; sb_score := total; sb_score_breakdown := bd |}).
    destruct (IH (acc ++ [sb])) as (scored & Hl & Hf).
    exists (sb :: scored). split.
    + rewrite Hl, <- app_assoc. done.
    + constructor; [|done]. split; [done|]. exact Hs.
Qed.

Lemma get_members_wf db : wf_db db -> Forall wf_member (get_members db).
Proof.
  intros [_ Hm]. unfold get_members. apply Forall_fmap.
  eapply Forall_impl; [exact Hm|]. done.
Qed.

Lemma get_books_wf db : wf_db db -> Forall wf_book (get_books db).
Proof.
  intros [Hb _]. unfold get_books. apply Forall_bind.
  eapply Forall_impl; [exact Hb|]. intros b Hbw. unfold compose.
  destruct (filter (fun m => br_suggested_by b = Some (mr_id m)) (tbl_members db))
    as [|m ms].
  - constructor; [exact Hbw|constructor].
  - apply Forall_fmap, Forall_forall. intros m' _. exact Hbw.
Qed.

Lemma eligible_books_sublist db : eligible_books db `sublist_of` get_books db.
Proof.
  unfold eligible_books. rewrite apply_hard_constraints_filter.
  apply sublist_filter.
Qed.

Lemma eligible_books_wf db : wf_db db -> Forall wf_book (eligible_books db).
Proof.
  intros Hwf. pose proof (get_books_wf db Hwf) as Hb.
  rewrite Forall_forall in Hb |- *. intros b Hin. apply Hb.
  eapply elem_of_sublist; [exact Hin|apply eligible_books_sublist].
Qed.

Lemma py_sort_score_perm (l : list scored_book) : py_sort sb_score true l ≡ₚ l.
Proof.
  unfold py_sort. by rewrite reverse_Permutation, stable_sort_perm, reverse_Permutation.
Qed.

Lemma py_sort_score_ranked (l : list scored_book) :
  ranked_desc (py_sort sb_score true l).
Proof.
  unfold py_sort, ranked_desc.
  apply (StronglySorted_reverse
           (fun x y => num_val (sb_score x) <= num_val (sb_score y))).
  eapply StronglySorted_impl; last apply stable_sort_sorted.
  - intros x y. unfold sort_le, py_lt. rewrite negb_false_iff. apply Qle_bool_iff.
  - intros x y. unfold py_lt. rewrite negb_true_iff, negb_false_iff.
    intros H. apply Qle_bool_iff. apply Qlt_le_weak, Qnot_le_lt.
    intros Hle. apply Qle_bool_iff in Hle. congruence.
  - intros x y z. unfold sort_le, py_lt. rewrite !negb_false_iff.
    intros H1%Qle_bool_iff H2%Qle_bool_iff. apply Qle_bool_iff. lra.
Qed.

Lemma py_sort_score_stable (s : Q) (l : list scored_book) :
  with_score s (py_sort sb_score true l) = with_score s l.
Proof.
  unfold with_score, py_sort.
  rewrite filter_reverse, stable_sort_filter, filter_reverse, reverse_involutive; [done|].
  intros y z Hy Hz. unfold py_lt. rewrite negb_false_iff. apply Qle_bool_iff. lra.
Qed.

Lemma py_slice_to_nil {A} (n : Z) : py_slice_to (@nil A) n = [].
Proof. unfold py_slice_to. case_bool_decide; apply take_nil. Qed.

Lemma get_recommendations_value (db : Database) (n : Z) :
  wf_db db ->
  ∃ scored,
    Forall2 (scored_from (get_members db) (get_reading_history db))
            (eligible_books db) scored /\
    get_recommendations db n = Ok (py_slice_to (py_sort sb_score true scored) n).
Proof.
  intros Hwf. unfold get_recommendations. cbv zeta. fold (eligible_books db).
  pose proof (eligible_books_wf db Hwf) as He.
  destruct (score_loop_ok (get_members db) (get_reading_history db)
              (eligible_books db) [] (get_members_wf db Hwf) He) as (scored & Hl & Hf).
  exists scored. split; [done|].
  destruct (eligible_books db) as [|b bs] eqn:Heq.
  - apply Forall2_nil_inv_l in Hf as ->.
    change (py_sort sb_score true []) with (@nil scored_book).
    by rewrite py_slice_to_nil.
  - rewrite Hl. done.
Qed.

Lemma ranked_desc_take (k : nat) (l : list scored_book) :
  ranked_desc l -> ranked_desc (take k l).
Proof.
  unfold ranked_desc. intros H. rewrite <- (take_drop k l) in H.
  by apply StronglySorted_app_inv in H as (? & _ & _).
Qed.

Lemma demo_db_wf : wf_db demo_db.
Proof. split; repeat constructor; unfold int4; cbn; lia. Defined.

(** The request on the demo store: round 2, Mystery read last and Thriller
    vetoed, so two books are eligible; 72.12 and 45.08 are their totals. *)
Example demo_recommendations :
  get_current_round demo_db = 2%Z /\
  titles_and_scores <$> get_recommendations demo_db 10 =
  Ok [("The Fifth Season", PFloat (float_lit (7212 # 100)));
      ("Dune", PFloat (float_lit (4508 # 100)))].
Proof. vm_compute. split; reflexivity. Qed.

(** C2: for a store that respects the schema and [n >= 1], the request
    returns the first [n] entries of a ranking of the scored eligible books,
    hence [min(n, |eligible|)] entries; the eligible books are a subsequence
    of the pool, the ranking is a permutation of the scored eligible books
    with non-increasing total score, and entries of equal total score stand
    in it in the order the filter produced them. *)
Theorem get_recommendations_top_n (db : Database) (n : Z) :
  wf_db db -> (1 <= n)%Z ->
  ∃ out scored ranked,
    get_recommendations db n = Ok out /\
    eligible_books db `sublist_of` get_books db /\
    Forall2 (scored_from (get_members db) (get_reading_history db))
            (eligible_books db) scored /\
    ranked ≡ₚ scored /\
    ranked_desc ranked /\
    (∀ s, with_score s ranked = with_score s scored) /\
    out = take (Z.to_nat n) ranked /\
    ranked_desc out /\
    length out = Nat.min (Z.to_nat n) (length (eligible_books db)).
Proof.
  intros Hwf Hn.
  destruct (get_recommendations_value db n Hwf) as (scored & Hf & Hr).
  exists (take (Z.to_nat n) (py_sort sb_score true scored)), scored,
         (py_sort sb_score true scored).
  split_and!.
  - rewrite Hr. unfold py_slice_to. by rewrite bool_decide_eq_true_2 by lia.
  - apply eligible_books_sublist.
  - done.
  - apply py_sort_score_perm.
  - apply py_sort_score_ranked.
  - intros s. apply py_sort_score_stable.
  - done.
  - apply ranked_desc_take, py_sort_score_ranked.
  - rewrite length_take, py_sort_score_perm.
    by rewrite (Forall2_length _ _ _ Hf).
Qed.

Lemma get_recommendations_top_n_witness :
  ∃ out scored ranked,
    get_recommendations demo_db 1 = Ok out /\
    eligible_books demo_db `sublist_of` get_books demo_db /\
    Forall2 (scored_from (get_members demo_db) (get_reading_history demo_db))
            (eligible_books demo_db) scored /\
    ranked ≡ₚ scored /\
    ranked_desc ranked /\
    (∀ s, with_score s ranked = with_score s scored) /\
    out = take (Z.to_nat 1) ranked /\
    ranked_desc out /\
    length out = Nat.min (Z.to_nat 1) (length (eligible_books demo_db)).
Proof.
  apply (get_recommendations_top_n demo_db 1 demo_db_wf). lia.
Defined.

(** C9: for [top_n = 0] the request returns the empty list, whatever the
    eligible set; for a negative [top_n] of magnitude below the number of
    eligible books it returns the full ranking without its last [|top_n|]
    entries, none of which scores above an entry that is kept, and the
    result is not empty. *)
Theorem get_recommendations_nonpositive (db : Database) (n : Z) :
  wf_db db ->
  get_recommendations db 0 = Ok [] /\
  ((n < 0)%Z -> (- n < Z.of_nat (length (eligible_books db)))%Z ->
   ∃ ranked out dropped,
     get_recommendations db (Z.of_nat (length (eligible_books db))) = Ok ranked /\
     ranked_desc ranked /\
     get_recommendations db n = Ok out /\
     ranked = out ++ dropped /\
     length dropped = Z.to_nat (- n) /\
     out ≠ [] /\
     ∀ x y, x ∈ out -> y ∈ dropped ->
            num_val (sb_score y) <= num_val (sb_score x)).
Proof.
  intros Hwf. split.
  - destruct (get_recommendations_value db 0 Hwf) as (scored & _ & ->).
    unfold py_slice_to. by rewrite bool_decide_eq_true_2, take_0 by lia.
  - intros Hn Hlen.
    destruct (get_recommendations_value db n Hwf) as (scored & Hf & Hr).
    destruct (get_recommendations_value db (Z.of_nat (length (eligible_books db))) Hwf)
      as (scored' & Hf' & Hr').
    assert (scored' = scored) as ->.
    { clear -Hf Hf'. revert scored scored' Hf Hf'.
      generalize (eligible_books db) as books.
      induction books as [|b books IH]; intros scored scored' Hf Hf'.
      - apply Forall2_nil_inv_l in Hf as ->. by apply Forall2_nil_inv_l in Hf' as ->.
      - apply Forall2_cons_inv_l in Hf as (sb & l & [E1 E2] & Hl & ->).
        apply Forall2_cons_inv_l in Hf' as (sb' & l' & [E1' E2'] & Hl' & ->).
        f_equal; [|by apply IH].
        destruct sb, sb'. cbn in *. congruence. }
    set (ranked := py_sort sb_score true scored) in *.
    assert (Hlr : length ranked = length (eligible_books db)).
    { unfold ranked. rewrite py_sort_score_perm. by rewrite (Forall2_length _ _ _ Hf). }
    assert (Hs : ranked_desc ranked) by apply py_sort_score_ranked.
    set (k := Z.to_nat (Z.of_nat (length ranked) + n)).
    exists ranked, (take k ranked), (drop k ranked).
    split_and!.
    + rewrite Hr'. unfold py_slice_to.
      rewrite bool_decide_eq_true_2, Nat2Z.id, <- Hlr by lia. by rewrite firstn_all.
    + done.
    + rewrite Hr. unfold py_slice_to. by rewrite bool_decide_eq_false_2 by lia.
    + by rewrite take_drop.
    + rewrite length_drop. lia.
    + assert (Hk : length (take k ranked) = k) by (rewrite length_take; lia).
      intros Ht. rewrite Ht in Hk. cbn [length] in Hk. lia.
    + unfold ranked_desc in Hs. rewrite <- (take_drop k ranked) in Hs.
      apply StronglySorted_app_inv in Hs as (_ & _ & Hs). done.
Qed.

Lemma get_recommendations_nonpositive_witness :
  ∃ ranked out dropped,
    get_recommendations demo_db (Z.of_nat (length (eligible_books demo_db))) = Ok ranked /\
    ranked_desc ranked /\
    get_recommendations demo_db (-1) = Ok out /\
    ranked = out ++ dropped /\
    length dropped = Z.to_nat (- -1) /\
    out ≠ [] /\
    ∀ x y, x ∈ out -> y ∈ dropped ->
           num_val (sb_score y) <= num_val (sb_score x).
Proof.
  refine (proj2 (get_recommendations_nonpositive demo_db (-1) demo_db_wf) _ _).
  - lia.
  - vm_compute. reflexivity.
Defined.

(** C8: on a store that respects the schema the request always returns a
    list and raises nothing; an empty eligible set gives the empty list, an
    empty pool makes [get_recommendations(10)] return the empty list, with
    no participant the category-match and the length-fit sub-scores are both
    50.0, and scoring a candidate always returns a total and a breakdown. *)
Theorem recommendation_engine_total (db : Database) (n : Z) :
  wf_db db ->
  (∃ out, get_recommendations db n = Ok out) /\
  (eligible_books db = [] -> get_recommendations db n = Ok []) /\
  (tbl_books db = [] -> get_recommendations db 10 = Ok []) /\
  (∀ book : book,
     calculate_genre_match book [] = Ok (PFloat 50) /\
     calculate_length_preference book [] = Ok (PFloat 50)) /\
  (∀ (book : book) (members : list member) (history : list history_entry),
     Forall wf_member members -> wf_book book ->
     ∃ total bd, calculate_book_score book members history = Ok (total, bd)).
Proof.
  intros Hwf. split_and!.
  - destruct (get_recommendations_value db n Hwf) as (scored & _ & ->). by eexists.
  - intros He. unfold get_recommendations. cbv zeta.
    fold (eligible_books db). by rewrite He.
  - intros Hb. unfold get_recommendations, apply_hard_constraints, get_books.
    by rewrite Hb.
  - done.
  - intros book members history. apply calculate_book_score_ok.
Qed.

Lemma recommendation_engine_total_witness :
  ∃ out, get_recommendations demo_db 10 = Ok out.
Proof.
  exact (proj1 (recommendation_engine_total demo_db 10 demo_db_wf)).
Defined.

(* ===================================================================== *)
(** ** Comparing the scores of two candidates *)
(* ===================================================================== *)

Lemma round_2dp_mono (x y : Q) : x <= y -> round_2dp x <= round_2dp y.
Proof.
  intros H. unfold round_2dp. apply rnd_mono.
  apply Qmult_le_compat_r; [|done].
  rewrite <- Zle_Qle. apply round_half_even_mono. lra.
Qed.

Lemma weighted_total_mono (a b c d a' b' c' d' : Q) :
  a <= a' -> b <= b' -> c <= c' -> d <= d' ->
  weighted_total a b c d <= weighted_total a' b' c' d'.
Proof.
  intros Ha Hb Hc Hd. unfold weighted_total.
  assert (W1 : 0 <= float_lit (4 # 10)) by done.
  assert (W2 : 0 <= float_lit (2 # 10)) by done.
  assert (W3 : 0 <= float_lit (3 # 10)) by done.
  assert (W4 : 0 <= float_lit (1 # 10)) by done.
  set (w1 := float_lit (4 # 10)) in *. set (w2 := float_lit (2 # 10)) in *.
  set (w3 := float_lit (3 # 10)) in *. set (w4 := float_lit (1 # 10)) in *.
  assert (T1 : rnd (w1 * a) <= rnd (w1 * a')) by (apply rnd_mono; nra).
  assert (T2 : rnd (w2 * b) <= rnd (w2 * b')) by (apply rnd_mono; nra).
  assert (T3 : rnd (w3 * c) <= rnd (w3 * c')) by (apply rnd_mono; nra).
  assert (T4 : rnd (w4 * d) <= rnd (w4 * d')) by (apply rnd_mono; nra).
  apply rnd_mono. apply Qplus_le_compat; [|done].
  apply rnd_mono. apply Qplus_le_compat; [|done].
  apply rnd_mono. by apply Qplus_le_compat.
Qed.

(** Two scored candidates compared sub-score by sub-score. *)
Lemma calculate_book_score_compare (b1 b2 : book) (members : list member)
    (h1 h2 : list history_entry) :
  Forall wf_member members -> wf_book b1 -> wf_book b2 ->
  ∃ t1 bd1 t2 bd2,
    calculate_book_score b1 members h1 = Ok (t1, bd1) /\
    calculate_book_score b2 members h2 = Ok (t2, bd2) /\
    calculate_genre_match b1 members = Ok (genre_match bd1) /\
    calculate_genre_match b2 members = Ok (genre_match bd2) /\
    calculate_length_preference b1 members = Ok (length_preference bd1) /\
    calculate_length_preference b2 members = Ok (length_preference bd2) /\
    member_interest bd1 = calculate_member_interest b1 members /\
    member_interest bd2 = calculate_member_interest b2 members /\
    diversity_bonus bd1 = calculate_diversity_bonus b1 h1 /\
    diversity_bonus bd2 = calculate_diversity_bonus b2 h2 /\
    (num_val (genre_match bd1) <= num_val (genre_match bd2) ->
     num_val (length_preference bd1) <= num_val (length_preference bd2) ->
     num_val (member_interest bd1) <= num_val (member_interest bd2) ->
     num_val (diversity_bonus bd1) <= num_val (diversity_bonus bd2) ->
     num_val t1 <= num_val t2).
Proof.
  intros Hm H1 H2.
  destruct (calculate_book_score_value b1 members h1 Hm H1)
    as (a1 & l1 & Ha1 & Hl1 & _ & _ & Hs1 & _).
  destruct (calculate_book_score_value b2 members h2 Hm H2)
    as (a2 & l2 & Ha2 & Hl2 & _ & _ & Hs2 & _).
  eexists _, _, _, _. split; [exact Hs1|]. split; [exact Hs2|].
  cbn [genre_match length_preference member_interest diversity_bonus num_val].
  split_and!; try done.
  intros. by apply round_2dp_mono, weighted_total_mono.
Qed.

Lemma Ok_inj {A} (x y : A) : Ok x = Ok y -> x = y.
Proof. by intros [= ->]. Qed.

(** X1: a candidate that a participant suggested never scores below the
    same candidate without a suggester: for participants and a page count
    in the range of the schema both scorings return, and the total with
    [suggested_by] set is at least the total with [suggested_by] empty. *)
Theorem suggested_book_scores_no_lower (book : book) (members : list member)
    (history : list history_entry) (s : Z) :
  Forall wf_member members -> wf_book book ->
  ∃ t bd t' bd',
    calculate_book_score (with_suggested_by book None) members history = Ok (t, bd) /\
    calculate_book_score (with_suggested_by book (Some s)) members history
      = Ok (t', bd') /\
    num_val t <= num_val t'.
Proof.
  intros Hm Hb.
  destruct (calculate_book_score_compare
              (with_suggested_by book None) (with_suggested_by book (Some s))
              members history history Hm Hb Hb)
    as (t & bd & t' & bd' & H1 & H2 & Ga & Ga' & La & La' & Ia & Ia' & Da & Da' & Hle).
  exists t, bd, t', bd'. split_and!; [done..|].
  apply Hle.
  - change (calculate_genre_match (with_suggested_by book (Some s)) members)
      with (calculate_genre_match (with_suggested_by book None) members) in Ga'.
    rewrite Ga in Ga'. apply Ok_inj in Ga' as ->. apply Qle_refl.
  - change (calculate_length_preference (with_suggested_by book (Some s)) members)
      with (calculate_length_preference (with_suggested_by book None) members) in La'.
    rewrite La in La'. apply Ok_inj in La' as ->. apply Qle_refl.
  - rewrite Ia, Ia'. by vm_compute.
  - rewrite Da, Da'. apply Qle_refl.
Qed.

Lemma suggested_book_scores_no_lower_witness :
  ∃ t bd t' bd',
    calculate_book_score (with_suggested_by scenario_book None) scenario_members []
      = Ok (t, bd) /\
    calculate_book_score (with_suggested_by scenario_book (Some 1%Z)) scenario_members []
      = Ok (t', bd') /\
    num_val t <= num_val t'.
Proof.
  exact (suggested_book_scores_no_lower scenario_book scenario_members [] 1
           scenario_members_wf scenario_book_wf).
Defined.

Lemma stable_sort_ltb_unique (sorted l : list Z) :
  Sorted Z.le sorted -> sorted ≡ₚ l -> stable_sort Z.ltb l = sorted.
Proof.
  intros Hs Hp. apply sorted_perm_unique.
  - eapply StronglySorted_impl; last apply stable_sort_sorted.
    + intros x y. unfold sort_le. rewrite Z.ltb_ge. done.
    + intros x y. rewrite Z.ltb_lt, Z.ltb_ge. lia.
    + intros x y z. unfold sort_le. rewrite !Z.ltb_ge. lia.
  - apply Sorted_StronglySorted; [|done]. intros x y z. apply Z.le_trans.
  - by rewrite stable_sort_perm.
Qed.

Lemma length_fit_antitone (p1 p2 : Z) (med : Q) :
  Qabs (inject_Z p1 - med) <= Qabs (inject_Z p2 - med) ->
  length_fit p2 med <= length_fit p1 med.
Proof.
  intros H. unfold length_fit.
  apply Q.max_le_compat_l. apply rnd_mono.
  assert (rnd (Qabs (inject_Z p1 - med) / 5) <= rnd (Qabs (inject_Z p2 - med) / 5)).
  { apply rnd_mono. apply Qmult_le_compat_r; [done|]. done. }
  lra.
Qed.

(** X2: of two page counts for the same candidate, the one at least as
    close to the median of the participants' preferred lengths gets a
    length sub-score and a total score at least as high (participants not
    empty, all values in the range of the schema). *)
Theorem closer_length_scores_no_lower (book : book) (members : list member)
    (history : list history_entry) (sorted : list Z) (p1 p2 : Z) :
  members ≠ [] -> Forall wf_member members -> int4 p1 -> int4 p2 ->
  Sorted Z.le sorted -> sorted ≡ₚ m_preferred_length <$> members ->
  Qabs (inject_Z p1 - median_of sorted) <= Qabs (inject_Z p2 - median_of sorted) ->
  ∃ t1 bd1 t2 bd2,
    calculate_book_score (with_page_count book p1) members history = Ok (t1, bd1) /\
    calculate_book_score (with_page_count book p2) members history = Ok (t2, bd2) /\
    num_val (length_preference bd2) <= num_val (length_preference bd1) /\
    num_val t2 <= num_val t1.
Proof.
  intros Hne Hm H1 H2 Hs Hp Hd.
  destruct (calculate_book_score_compare
              (with_page_count book p2) (with_page_count book p1)
              members history history Hm H2 H1)
    as (t2 & bd2 & t1 & bd1 & E2 & E1 & Ga & Ga' & La & La' & Ia & Ia' & Da & Da' & Hle).
  assert (Hl : num_val (length_preference bd2) <= num_val (length_preference bd1)).
  { destruct (calculate_length_preference_value (with_page_count book p1) members
                Hne Hm H1) as (v1 & Hv1 & Q1).
    destruct (calculate_length_preference_value (with_page_count book p2) members
                Hne Hm H2) as (v2 & Hv2 & Q2).
    rewrite La' in Hv1. apply Ok_inj in Hv1 as <-.
    rewrite La in Hv2. apply Ok_inj in Hv2 as <-.
    rewrite Q1, Q2. rewrite (stable_sort_ltb_unique sorted) by done.
    by apply length_fit_antitone. }
  exists t1, bd1, t2, bd2. split_and!; [done..|].
  apply Hle; [|done|..].
  - change (calculate_genre_match (with_page_count book p1) members)
      with (calculate_genre_match (with_page_count book p2) members) in Ga'.
    rewrite Ga in Ga'. apply Ok_inj in Ga' as ->. apply Qle_refl.
  - rewrite Ia, Ia'. apply Qle_refl.
  - rewrite Da, Da'. apply Qle_refl.
Qed.

Lemma closer_length_scores_no_lower_witness :
  ∃ t1 bd1 t2 bd2,
    calculate_book_score (with_page_count scenario_book 310) scenario_members []
      = Ok (t1, bd1) /\
    calculate_book_score (with_page_count scenario_book 512) scenario_members []
      = Ok (t2, bd2) /\
    num_val (length_preference bd2) <= num_val (length_preference bd1) /\
    num_val t2 <= num_val t1.
Proof.
  refine (closer_length_scores_no_lower scenario_book scenario_members []
            [280; 350]%Z 310 512 _ scenario_members_wf _ _ _ _ _).
  - discriminate.
  - unfold int4. lia.
  - unfold int4. lia.
  - repeat constructor; lia.
  - apply perm_swap.
  - vm_compute. discriminate.
Defined.

(* ===================================================================== *)
(** ** The genre match over the participants *)
(* ===================================================================== *)

Lemma members_who_like_app book ms ms' :
  members_who_like book (ms ++ ms') =
  (members_who_like book ms + members_who_like book ms')%Z.
Proof. unfold members_who_like. rewrite filter_app, length_app. lia. Qed.

Lemma members_who_like_bounds book ms :
  (0 <= members_who_like book ms <= Z.of_nat (length ms))%Z.
Proof.
  unfold members_who_like.
  pose proof (length_filter (fun m => b_genre book ∈ m_liked_genres m) ms). lia.
Qed.

(** X3: with at least one participant, [calculate_genre_match] returns
    exactly 100.0 when every participant likes the candidate's genre and
    exactly 0.0 when none does. *)
Theorem calculate_genre_match_extremes (book : book) (members : list member) :
  members ≠ [] ->
  (Forall (fun m => b_genre book ∈ m_liked_genres m) members ->
   calculate_genre_match book members = Ok (PFloat 100)) /\
  (Forall (fun m => b_genre book ∉ m_liked_genres m) members ->
   calculate_genre_match book members = Ok (PFloat 0)).
Proof.
  intros Hne.
  destruct (calculate_genre_match_value book members Hne) as [Hv _].
  assert (Hn : (0 < Z.of_nat (length members))%Z) by (destruct members; [done|cbn; lia]).
  split; intros Hall; rewrite Hv; do 2 f_equal.
  - assert (Hk : members_who_like book members = Z.of_nat (length members)).
    { unfold members_who_like. f_equal. clear -Hall.
      induction Hall as [|m ms Hm _ IH]; [done|].
      rewrite filter_cons_True by done. cbn. by rewrite IH. }
    rewrite Hk.
    assert (E : inject_Z (Z.of_nat (length members)) /
                inject_Z (Z.of_nat (length members)) == 1).
    { field. change 0 with (inject_Z 0). rewrite inject_Z_injective. lia. }
    rewrite (rnd_comp _ _ E). by vm_compute.
  - assert (Hk : members_who_like book members = 0%Z).
    { unfold members_who_like. clear -Hall.
      induction Hall as [|m ms Hm _ IH]; [done|].
      by rewrite filter_cons_False by done. }
    rewrite Hk.
    assert (E : inject_Z 0 / inject_Z (Z.of_nat (length members)) == 0).
    { unfold Qdiv. change (inject_Z 0) with 0. ring. }
    rewrite (rnd_comp _ _ E). by vm_compute.
Qed.

Lemma calculate_genre_match_extremes_witness :
  calculate_genre_match scenario_book [mk_member 350 ["Fantasy"]] = Ok (PFloat 100).
Proof.
  refine (proj1 (calculate_genre_match_extremes scenario_book
                   [mk_member 350 ["Fantasy"]] _) _).
  - discriminate.
  - repeat constructor.
Defined.

(** X4: adding one participant to a non-empty club never lowers the genre
    match of a candidate whose genre the new participant likes, and never
    raises it when the new participant does not like the genre. *)
Theorem calculate_genre_match_new_member (book : book) (members : list member)
    (m : member) :
  members ≠ [] ->
  ∃ f f',
    calculate_genre_match book members = Ok (PFloat f) /\
    calculate_genre_match book (members ++ [m]) = Ok (PFloat f') /\
    (b_genre book ∈ m_liked_genres m -> f <= f') /\
    (b_genre book ∉ m_liked_genres m -> f' <= f).
Proof.
  intros Hne.
  destruct (calculate_genre_match_value book members Hne) as [Hv _].
  assert (Hne' : members ++ [m] ≠ []) by (by destruct members).
  destruct (calculate_genre_match_value book (members ++ [m]) Hne') as [Hv' _].
  eexists _, _. split; [exact Hv|]. split; [exact Hv'|].
  pose proof (members_who_like_bounds book members) as [Hk0 Hkn].
  assert (Hn : (0 < Z.of_nat (length members))%Z) by (destruct members; [done|cbn; lia]).
  rewrite members_who_like_app, length_app, Nat2Z.inj_add.
  cbn [length]. change (Z.of_nat 1) with 1%Z.
  rewrite !inject_Z_plus. change (inject_Z 1) with 1.
  rewrite Zle_Qle in Hk0, Hkn. rewrite Zlt_Qlt in Hn.
  change (inject_Z 0) with 0 in Hk0, Hn.
  set (k := inject_Z (members_who_like book members)) in *.
  set (n := inject_Z (Z.of_nat (length members))) in *.
  assert (Hmono : ∀ x y, x <= y -> rnd (rnd x * 100) <= rnd (rnd y * 100)).
  { intros x y Hxy. apply rnd_mono. apply Qmult_le_compat_r; [|done].
    by apply rnd_mono. }
  split; intros Hm; apply Hmono.
  - assert (Hk1 : members_who_like book [m] = 1%Z).
    { unfold members_who_like. by rewrite filter_cons_True. }
    rewrite Hk1. change (inject_Z 1) with 1.
    apply Qle_shift_div_l; [lra|]. unfold Qdiv.
    rewrite <- Qmult_assoc, (Qmult_comm (/ n)), Qmult_assoc.
    apply Qle_shift_div_r; [done|]. nra.
  - assert (Hk1 : members_who_like book [m] = 0%Z).
    { unfold members_who_like. by rewrite filter_cons_False. }
    rewrite Hk1. change (inject_Z 0) with 0.
    apply Qle_shift_div_r; [lra|]. unfold Qdiv.
    rewrite <- Qmult_assoc, (Qmult_comm (/ n)), Qmult_assoc.
    apply Qle_shift_div_l; [done|]. nra.
Qed.

Lemma calculate_genre_match_new_member_witness :
  ∃ f f',
    calculate_genre_match scenario_book scenario_members = Ok (PFloat f) /\
    calculate_genre_match scenario_book
      (scenario_members ++ [mk_member 300 ["Fantasy"]]) = Ok (PFloat f') /\
    (b_genre scenario_book ∈ m_liked_genres (mk_member 300 ["Fantasy"]) -> f <= f') /\
    (b_genre scenario_book ∉ m_liked_genres (mk_member 300 ["Fantasy"]) -> f' <= f).
Proof.
  apply (calculate_genre_match_new_member scenario_book scenario_members
           (mk_member 300 ["Fantasy"])).
  discriminate.
Defined.

(* ===================================================================== *)
(** ** Totals have two decimals *)
(* ===================================================================== *)

Lemma round_2dp_hundredths (x : Q) :
  0 <= round_2dp x <= 100 ->
  ∃ n : Z, (0 <= n <= 10000)%Z /\ round_2dp x = float_lit (inject_Z n / 100).
Proof.
  intros [Hr0 Hr1]. exists (round_half_even (x * 100)). split; [|reflexivity].
  unfold round_2dp in Hr0, Hr1. generalize dependent (round_half_even (x * 100)).
  intros n Hr0 Hr1. split.
  - destruct (Z_le_gt_dec 0 n) as [|Hneg]; [done|exfalso].
    assert (Hle : inject_Z n / 100 <= - (1 # 100)).
    { apply Qle_shift_div_r; [reflexivity|].
      assert (inject_Z n <= inject_Z (-1)) by (rewrite <- Zle_Qle; lia).
      change (inject_Z (-1)) with (-1) in *. lra. }
    apply rnd_mono in Hle.
    assert (Hc : rnd (- (1 # 100)) < 0) by (vm_compute; reflexivity).
    generalize dependent (rnd (- (1 # 100))). intros c Hle Hc.
    generalize dependent (rnd (inject_Z n / 100)). intros r; intros. lra.
  - destruct (Z_le_gt_dec n 10000) as [|Hbig]; [done|exfalso].
    assert (Hle : 10001 # 100 <= inject_Z n / 100).
    { apply Qle_shift_div_l; [reflexivity|].
      assert (inject_Z 10001 <= inject_Z n) by (rewrite <- Zle_Qle; lia).
      change (inject_Z 10001) with 10001 in *. lra. }
    apply rnd_mono in Hle.
    assert (Hc : 100 < rnd (10001 # 100)) by (vm_compute; reflexivity).
    generalize dependent (rnd (10001 # 100)). intros c Hle Hc.
    generalize dependent (rnd (inject_Z n / 100)). intros r; intros. lra.
Qed.

(** X5: the total score [calculate_book_score] returns is the float
    nearest to [n / 100] for an integer [n] between 0 and 10000: a number
    of hundredths between 0.00 and 100.00. *)
Theorem calculate_book_score_hundredths (book : book) (members : list member)
    (history : list history_entry) :
  Forall wf_member members -> wf_book book ->
  ∃ (n : Z) bd,
    (0 <= n <= 10000)%Z /\
    calculate_book_score book members history
      = Ok (PFloat (float_lit (inject_Z n / 100)), bd).
Proof.
  intros Hm Hb.
  destruct (calculate_book_score_value book members history Hm Hb)
    as (a & b & _ & _ & _ & _ & Hs & Hr).
  destruct (round_2dp_hundredths _ Hr) as (n & Hn & E).
  exists n. eexists. split; [exact Hn|]. rewrite <- E. exact Hs.
Qed.

Lemma calculate_book_score_hundredths_witness :
  ∃ (n : Z) bd,
    (0 <= n <= 10000)%Z /\
    calculate_book_score scenario_book scenario_members []
      = Ok (PFloat (float_lit (inject_Z n / 100)), bd).
Proof.
  exact (calculate_book_score_hundredths scenario_book scenario_members []
           scenario_members_wf scenario_book_wf).
Defined.

(* ===================================================================== *)
(** ** One ranking for every request *)
(* ===================================================================== *)

(** One ranking serves every [top_n]. *)
Lemma get_recommendations_ranking (db : Database) :
  wf_db db ->
  ∃ scored,
    Forall2 (scored_from (get_members db) (get_reading_history db))
            (eligible_books db) scored /\
    ∀ n, get_recommendations db n = Ok (py_slice_to (py_sort sb_score true scored) n).
Proof.
  intros Hwf.
  pose proof (eligible_books_wf db Hwf) as He.
  destruct (score_loop_ok (get_members db) (get_reading_history db)
              (eligible_books db) [] (get_members_wf db Hwf) He) as (scored & Hl & Hf).
  exists scored. split; [done|]. intros n.
  unfold get_recommendations. cbv zeta. fold (eligible_books db).
  destruct (eligible_books db) as [|b bs] eqn:Heq.
  - apply Forall2_nil_inv_l in Hf as ->.
    change (py_sort sb_score true []) with (@nil scored_book).
    by rewrite py_slice_to_nil.
  - rewrite Hl. done.
Qed.

Lemma scored_from_books members history books scored :
  Forall2 (scored_from members history) books scored -> sb_book <$> scored = books.
Proof.
  induction 1 as [|b sb books scored [Hb _] _ IH]; [done|].
  cbn. by rewrite Hb, IH.
Qed.

Lemma py_slice_to_sublist {A} (l : list A) (n : Z) : py_slice_to l n `sublist_of` l.
Proof. unfold py_slice_to. case_bool_decide; apply sublist_take. Qed.

(** X6: the requests for different sizes agree: for [0 <= n <= m] the
    result of [get_recommendations(n)] is the first [n] entries of the
    result of [get_recommendations(m)] on the same store. *)
Theorem get_recommendations_prefix (db : Database) (n m : Z) :
  wf_db db -> (0 <= n <= m)%Z ->
  ∃ short long,
    get_recommendations db n = Ok short /\
    get_recommendations db m = Ok long /\
    short = take (Z.to_nat n) long.
Proof.
  intros Hwf Hnm.
  destruct (get_recommendations_ranking db Hwf) as (scored & _ & Hr).
  eexists _, _. split; [apply Hr|]. split; [apply Hr|].
  unfold py_slice_to. rewrite !bool_decide_eq_true_2 by lia.
  rewrite take_take. f_equal. lia.
Qed.

Lemma get_recommendations_prefix_witness :
  ∃ short long,
    get_recommendations demo_db 1 = Ok short /\
    get_recommendations demo_db 10 = Ok long /\
    short = take (Z.to_nat 1) long.
Proof.
  apply (get_recommendations_prefix demo_db 1 10 demo_db_wf). lia.
Defined.

(** X7: a request for at least as many recommendations as there are
    eligible books returns every eligible book exactly once: the books of
    the result are a permutation of the filter output. *)
Theorem get_recommendations_lists_all (db : Database) (n : Z) :
  wf_db db -> (Z.of_nat (length (eligible_books db)) <= n)%Z ->
  ∃ out,
    get_recommendations db n = Ok out /\
    sb_book <$> out ≡ₚ eligible_books db.
Proof.
  intros Hwf Hn.
  destruct (get_recommendations_ranking db Hwf) as (scored & Hf & Hr).
  eexists. split; [apply Hr|].
  unfold py_slice_to. rewrite bool_decide_eq_true_2 by lia.
  rewrite take_ge.
  - by rewrite py_sort_score_perm, (scored_from_books _ _ _ _ Hf).
  - rewrite py_sort_score_perm, <- (Forall2_length _ _ _ Hf). lia.
Qed.

Lemma get_recommendations_lists_all_witness :
  ∃ out,
    get_recommendations demo_db 10 = Ok out /\
    sb_book <$> out ≡ₚ eligible_books demo_db.
Proof.
  apply (get_recommendations_lists_all demo_db 10 demo_db_wf).
  vm_compute. discriminate.
Defined.

Lemma get_books_row db b :
  b ∈ get_books db -> ∃ br, br ∈ tbl_books db /\ b_id b = br_id br /\
                            b_genre b = br_genre br.
Proof.
  unfold get_books. intros (br & Hb & Hbr)%list_elem_of_bind.
  exists br. split; [done|].
  destruct (filter _ _) as [|m ms].
  - by apply list_elem_of_singleton in Hb as ->.
  - by apply list_elem_of_fmap in Hb as (m' & -> & _).
Qed.

Lemma get_reading_history_row db rh br :
  rh ∈ tbl_reading_history db -> br ∈ tbl_books db -> hr_book_id rh = br_id br ->
  mk_entry rh br ∈ get_reading_history db.
Proof.
  intros Hrh Hbr Hid. unfold get_reading_history, order_by_desc.
  rewrite stable_sort_perm. unfold history_join_books.
  apply list_elem_of_bind. exists rh. split; [|done].
  apply list_elem_of_fmap. exists br. split; [done|].
  by apply list_elem_of_filter.
Qed.

(** X8: every recommended book comes from the pool, no row of the
    reading history names its id, and no veto recorded for the current
    round names its genre. *)
Theorem get_recommendations_respects_constraints (db : Database) (n : Z) :
  wf_db db ->
  ∃ out,
    get_recommendations db n = Ok out /\
    ∀ sb, sb ∈ out ->
      sb_book sb ∈ get_books db /\
      (∀ rh, rh ∈ tbl_reading_history db -> hr_book_id rh ≠ b_id (sb_book sb)) /\
      (∀ v, v ∈ tbl_vetoes db -> vr_round_number v = get_current_round db ->
            vr_genre v ≠ b_genre (sb_book sb)).
Proof.
  intros Hwf.
  destruct (get_recommendations_ranking db Hwf) as (scored & Hf & Hr).
  eexists. split; [apply Hr|]. intros sb Hsb.
  assert (He : sb_book sb ∈ eligible_books db).
  { rewrite <- (scored_from_books _ _ _ _ Hf). apply list_elem_of_fmap.
    exists sb. split; [done|]. rewrite <- (py_sort_score_perm scored).
    eapply elem_of_sublist; [exact Hsb|apply py_slice_to_sublist]. }
  unfold eligible_books in He. rewrite apply_hard_constraints_filter in He.
  apply list_elem_of_filter in He as [(Hid & _ & Hveto) Hin].
  split; [done|]. split.
  - intros rh Hrh Heq.
    destruct (get_books_row db _ Hin) as (br & Hbr & Hbid & _).
    apply Hid. apply elem_of_list_to_set, list_elem_of_fmap.
    exists (mk_entry rh br). split; [by cbn|].
    apply get_reading_history_row; [done..|congruence].
  - intros v Hv Hround Heq. apply Hveto.
    unfold get_vetoes. apply list_elem_of_fmap. exists v. split; [done|].
    by apply list_elem_of_filter.
Qed.

Lemma get_recommendations_respects_constraints_witness :
  ∃ out,
    get_recommendations demo_db 10 = Ok out /\
    ∀ sb, sb ∈ out ->
      sb_book sb ∈ get_books demo_db /\
      (∀ rh, rh ∈ tbl_reading_history demo_db -> hr_book_id rh ≠ b_id (sb_book sb)) /\
      (∀ v, v ∈ tbl_vetoes demo_db -> vr_round_number v = get_current_round demo_db ->
            vr_genre v ≠ b_genre (sb_book sb)).
Proof.
  exact (get_recommendations_respects_constraints demo_db 10 demo_db_wf).
Defined.

(** X9: filtering the output of [apply_hard_constraints] again, with the
    same store, history and round, removes nothing. *)
Theorem apply_hard_constraints_idempotent (db : Database) (pool : list book)
    (history : list history_entry) (round : Z) :
  apply_hard_constraints db (apply_hard_constraints db pool history round)
    history round
  = apply_hard_constraints db pool history round.
Proof.
  rewrite !apply_hard_constraints_filter.
  induction pool as [|b pool IH]; [done|].
  rewrite filter_cons. case_decide as Hb; [|done].
  by rewrite filter_cons_True, IH.
Qed.

(* ===================================================================== *)
(** ** The genres of the pool *)
(* ===================================================================== *)

Lemma ascii_compare_lt_trans (a b c : Ascii.ascii) :
  Ascii.compare a b = Lt -> Ascii.compare b c = Lt -> Ascii.compare a c = Lt.
Proof.
  unfold Ascii.compare. rewrite !N.compare_lt_iff. lia.
Qed.

Lemma string_compare_lt_trans (s1 s2 s3 : string) :
  String.compare s1 s2 = Lt -> String.compare s2 s3 = Lt ->
  String.compare s1 s3 = Lt.
Proof.
  revert s2 s3. induction s1 as [|a s1 IH]; intros [|b s2] [|c s3]; cbn; try done.
  destruct (Ascii.compare a b) eqn:Hab; try done;
    destruct (Ascii.compare b c) eqn:Hbc; try done; intros H1 H2.
  - apply Ascii.compare_eq_iff in Hab as ->. apply Ascii.compare_eq_iff in Hbc as ->.
    assert (Hcc : Ascii.compare c c = Eq).
    { unfold Ascii.compare. apply N.compare_refl. }
    rewrite Hcc. by eapply IH.
  - apply Ascii.compare_eq_iff in Hab as ->. by rewrite Hbc.
  - apply Ascii.compare_eq_iff in Hbc as ->. by rewrite Hab.
  - by rewrite (ascii_compare_lt_trans a b c).
Qed.

Lemma string_ltb_irrefl (s : string) : String.ltb s s = false.
Proof.
  unfold String.ltb.
  assert (String.compare s s = Eq) as ->; [|done].
  induction s as [|a s IH]; cbn; [done|].
  assert (Ascii.compare a a = Eq) as ->; [|done].
  unfold Ascii.compare. apply N.compare_refl.
Qed.

Lemma string_ltb_trans (s1 s2 s3 : string) :
  String.ltb s1 s2 = true -> String.ltb s2 s3 = true -> String.ltb s1 s3 = true.
Proof.
  unfold String.ltb. intros H1 H2.
  destruct (String.compare s1 s2) eqn:E1; try done.
  destruct (String.compare s2 s3) eqn:E2; try done.
  by rewrite (string_compare_lt_trans s1 s2 s3).
Qed.

Lemma string_ltb_total (s1 s2 : string) :
  String.ltb s1 s2 = false -> String.ltb s2 s1 = false -> s1 = s2.
Proof.
  unfold String.ltb. rewrite (String.compare_antisym s2 s1).
  destruct (String.compare s1 s2) eqn:E; cbn; try done.
  intros _ _. by apply String.compare_eq_iff.
Qed.

(** A duplicate-free list sorted with [String.ltb] is strictly increasing. *)
Lemma stable_sort_strings_strict (l : list string) :
  NoDup l ->
  StronglySorted (fun x y => String.ltb x y = true) (stable_sort String.ltb l).
Proof.
  intros Hnd.
  assert (Hs : StronglySorted (sort_le String.ltb) (stable_sort String.ltb l)).
  { apply stable_sort_sorted.
    - intros x y Hxy. destruct (String.ltb y x) eqn:Hyx; [|done].
      pose proof (string_ltb_trans x y x Hxy Hyx) as Hxx.
      by rewrite string_ltb_irrefl in Hxx.
    - unfold sort_le. intros x y z Hyx Hzy.
      destruct (String.ltb z x) eqn:Hzx; [|done].
      destruct (String.ltb x y) eqn:Hxy.
      + by rewrite (string_ltb_trans z x y Hzx Hxy) in Hzy.
      + assert (x = y) as -> by (by apply string_ltb_total). congruence. }
  assert (Hnd' : NoDup (stable_sort String.ltb l)) by (by rewrite stable_sort_perm).
  induction Hs as [|x r Hs IH Hx]; [constructor|].
  apply NoDup_cons in Hnd' as [Hin Hnd']. constructor; [by apply IH|].
  rewrite Forall_forall in Hx |- *. intros y Hy.
  specialize (Hx y Hy). unfold sort_le in Hx.
  destruct (String.ltb x y) eqn:Hxy; [done|].
  assert (x = y) as -> by (by apply string_ltb_total). done.
Qed.

(** X10: [get_genres_from_pool] returns exactly the genres that some book
    of the pool has, each once, in strictly increasing order. *)
Theorem get_genres_from_pool_sorted (db : Database) :
  (∀ g, g ∈ get_genres_from_pool db <-> ∃ b, b ∈ get_books db /\ b_genre b = g) /\
  StronglySorted (fun x y => String.ltb x y = true) (get_genres_from_pool db) /\
  NoDup (get_genres_from_pool db).
Proof.
  unfold get_genres_from_pool, py_sorted_set. cbv zeta. split_and!.
  - intros g. rewrite stable_sort_perm, elem_of_elements, elem_of_list_to_set.
    rewrite list_elem_of_fmap. split; intros (b & H1 & H2); exists b; done.
  - apply stable_sort_strings_strict, NoDup_elements.
  - rewrite stable_sort_perm. apply NoDup_elements.
Qed.

(** X11: [get_genres_from_pool] depends only on which genres occur in the
    pool: two stores whose pools show the same genres give the same list,
    whatever the number and order of their books. *)
Theorem get_genres_from_pool_same_genres (db1 db2 : Database) :
  (∀ g, g ∈ (b_genre <$> get_books db1) <-> g ∈ (b_genre <$> get_books db2)) ->
  get_genres_from_pool db1 = get_genres_from_pool db2.
Proof.
  intros H. unfold get_genres_from_pool, py_sorted_set. cbv zeta.
  do 2 f_equal. apply set_eq. intros g. by rewrite !elem_of_list_to_set.
Qed.

Lemma get_genres_from_pool_same_genres_witness :
  get_genres_from_pool demo_db =
  get_genres_from_pool
    {| tbl_members := tbl_members demo_db;
       tbl_member_genre_preferences := tbl_member_genre_preferences demo_db;
       tbl_books := reverse (tbl_books demo_db) ++ tbl_books demo_db;
       tbl_reading_history := tbl_reading_history demo_db;
       tbl_vetoes := tbl_vetoes demo_db |}.
Proof.
  apply get_genres_from_pool_same_genres. intros g.
  vm_compute get_books. vm_compute fmap.
  rewrite !elem_of_cons, !elem_of_nil. tauto.
Defined.

Example get_genres_from_pool_demo :
  get_genres_from_pool demo_db =
  ["Fantasy"; "Mystery"; "Science Fiction"; "Thriller"]%string.
Proof. vm_compute. reflexivity. Qed.

(* ===================================================================== *)
(** ** The writers: what a committed call leaves *)
(* ===================================================================== *)

Lemma Done_inj {A} (x y : A) : Done x = Done y -> x = y.
Proof. by intros [= ->]. Qed.

Lemma add_member_Done st name len genres id st' :
  add_member st name len genres = Done (id, st') ->
  int4 len /\ id = next_member_id st /\
  tbl_members (st_db st') =
    tbl_members (st_db st) ++
    [{| mr_id := id; mr_name := name; mr_preferred_length := len |}] /\
  tbl_member_genre_preferences (st_db st') =
    tbl_member_genre_preferences (st_db st) ++
    ((fun genre => {| gp_member_id := id; gp_genre := genre |}) <$> genres) /\
  tbl_books (st_db st') = tbl_books (st_db st) /\
  tbl_reading_history (st_db st') = tbl_reading_history (st_db st) /\
  tbl_vetoes (st_db st') = tbl_vetoes (st_db st) /\
  next_member_id st' = (id + 1)%Z /\
  next_book_id st' = next_book_id st /\
  next_history_id st' = next_history_id st.
Proof.
  unfold add_member. repeat case_bool_decide; try done.
  intros [= <- <-]. done.
Qed.

Lemma add_book_Done st title author genre pages by_id id st' :
  add_book st title author genre pages by_id = Done (id, st') ->
  int4 pages /\ member_or_null (st_db st) by_id /\ id = next_book_id st /\
  tbl_members (st_db st') = tbl_members (st_db st) /\
  tbl_member_genre_preferences (st_db st') =
    tbl_member_genre_preferences (st_db st) /\
  tbl_books (st_db st') =
    tbl_books (st_db st) ++
    [{| br_id := id; br_title := title; br_author := author; br_genre := genre;
        br_page_count := pages; br_suggested_by := by_id |}] /\
  tbl_reading_history (st_db st') = tbl_reading_history (st_db st) /\
  tbl_vetoes (st_db st') = tbl_vetoes (st_db st) /\
  next_member_id st' = next_member_id st /\
  next_book_id st' = (id + 1)%Z /\
  next_history_id st' = next_history_id st.
Proof.
  unfold add_book. repeat case_bool_decide; try done.
  intros [= <- <-]. cbn. tauto.
Qed.

Lemma add_veto_Done st member_id genre round st' :
  add_veto st member_id genre round = Done st' ->
  member_id ∈ member_ids (st_db st) /\
  tbl_members (st_db st') = tbl_members (st_db st) /\
  tbl_member_genre_preferences (st_db st') =
    tbl_member_genre_preferences (st_db st) /\
  tbl_books (st_db st') = tbl_books (st_db st) /\
  tbl_reading_history (st_db st') = tbl_reading_history (st_db st) /\
  tbl_vetoes (st_db st') =
    filter (fun v => ¬ (vr_member_id v = member_id /\ vr_round_number v = round))
           (tbl_vetoes (st_db st)) ++
    [{| vr_member_id := member_id; vr_genre := genre; vr_round_number := round |}] /\
  next_member_id st' = next_member_id st /\
  next_book_id st' = next_book_id st /\
  next_history_id st' = next_history_id st.
Proof.
  unfold add_veto. repeat case_bool_decide; try done.
  intros [= <-]. done.
Qed.

Lemma mark_book_as_read_Done st book_id round st' :
  mark_book_as_read st book_id round = Done st' ->
  book_id ∈ book_ids (st_db st) /\
  tbl_members (st_db st') = tbl_members (st_db st) /\
  tbl_member_genre_preferences (st_db st') =
    tbl_member_genre_preferences (st_db st) /\
  tbl_books (st_db st') = tbl_books (st_db st) /\
  tbl_reading_history (st_db st') =
    tbl_reading_history (st_db st) ++
    [{| hr_id := next_history_id st; hr_book_id := book_id;
        hr_round_number := round |}] /\
  tbl_vetoes (st_db st') = tbl_vetoes (st_db st) /\
  next_member_id st' = next_member_id st /\
  next_book_id st' = next_book_id st /\
  next_history_id st' = (next_history_id st + 1)%Z.
Proof.
  unfold mark_book_as_read. repeat case_bool_decide; try done.
  intros [= <-]. done.
Qed.

(* ===================================================================== *)
(** ** The writers keep the invariant *)
(* ===================================================================== *)

Lemma member_ids_snoc db db' r :
  tbl_members db' = tbl_members db ++ [r] ->
  member_ids db' = member_ids db ++ [mr_id r].
Proof. unfold member_ids. intros ->. by rewrite fmap_app. Qed.

Lemma member_or_null_mono db db' v :
  member_ids db ⊆ member_ids db' -> member_or_null db v -> member_or_null db' v.
Proof. intros Hsub. destruct v; cbn; [apply Hsub|done]. Qed.

Lemma NoDup_snoc_fresh (l : list Z) (next : Z) :
  NoDup l -> Forall (fun i => (i < next)%Z) l -> NoDup (l ++ [next]).
Proof.
  intros Hnd Hlt. apply NoDup_app. split; [done|]. split; [|apply NoDup_singleton].
  intros x Hx ->%list_elem_of_singleton.
  rewrite Forall_forall in Hlt. specialize (Hlt _ Hx). lia.
Qed.

Lemma Forall_snoc_next (l : list Z) (next : Z) :
  Forall (fun i => (i < next)%Z) l -> Forall (fun i => (i < next + 1)%Z) (l ++ [next]).
Proof.
  intros Hlt. apply Forall_app. split.
  - eapply Forall_impl; [exact Hlt|]. cbn. lia.
  - repeat constructor. lia.
Qed.

Lemma Forall_of_sublist {A} (P : A -> Prop) (l k : list A) :
  l `sublist_of` k -> Forall P k -> Forall P l.
Proof.
  intros Hsub. rewrite !Forall_forall. intros Hk x Hx. apply Hk.
  by eapply elem_of_sublist.
Qed.


Lemma store_ok_add_member st name len genres id st' :
  store_ok st -> add_member st name len genres = Done (id, st') -> store_ok st'.
Proof.
  intros [Hmi Hbi Hms Hbs Hpf Hsf Hhf Hvf Hov Hcol] (Hlen & -> & Hm & Hp & Hb & Hh & Hv & Hnm & Hnb & Hnh)%add_member_Done.
  pose proof (member_ids_snoc _ _ _ Hm) as Hids. cbn in Hids.
  assert (Hsub : member_ids (st_db st) ⊆ member_ids (st_db st')).
  { rewrite Hids. intros x Hx. apply elem_of_app. by left. }
  constructor.
  - rewrite Hids. by apply NoDup_snoc_fresh.
  - unfold book_ids. by rewrite Hb.
  - rewrite Hids, Hnm. by apply Forall_snoc_next.
  - unfold book_ids. by rewrite Hb, Hnb.
  - rewrite Hp. apply Forall_app. split.
    + eapply Forall_impl; [eassumption|]. intros p Hin. by apply Hsub.
    + apply Forall_fmap, Forall_true. intros g. cbn. rewrite Hids.
      apply elem_of_app. right. by apply list_elem_of_singleton.
  - rewrite Hb. eapply Forall_impl; [eassumption|]. intros b.
    by apply member_or_null_mono.
  - rewrite Hh. unfold book_ids. by rewrite Hb.
  - rewrite Hv. eapply Forall_impl; [eassumption|]. intros v Hin. by apply Hsub.
  - by rewrite Hv.
  - destruct Hcol as [Hc1 Hc2]. split; [by rewrite Hb|].
    rewrite Hm. apply Forall_app. split; [done|]. by apply Forall_singleton.
Qed.

Lemma store_ok_add_book st title author genre pages by_id id st' :
  store_ok st -> add_book st title author genre pages by_id = Done (id, st') ->
  store_ok st'.
Proof.
  intros [Hmi Hbi Hms Hbs Hpf Hsf Hhf Hvf Hov Hcol] (Hpages & Hby & -> & Hm & Hp & Hb & Hh & Hv & Hnm & Hnb & Hnh)%add_book_Done.
  assert (Hids : member_ids (st_db st') = member_ids (st_db st)).
  { unfold member_ids. by rewrite Hm. }
  assert (Hbids : book_ids (st_db st') = book_ids (st_db st) ++ [next_book_id st]).
  { unfold book_ids. rewrite Hb. by rewrite fmap_app. }
  assert (Hmn : ∀ v, member_or_null (st_db st) v -> member_or_null (st_db st') v).
  { intros v. apply member_or_null_mono. by rewrite Hids. }
  constructor.
  - by rewrite Hids.
  - rewrite Hbids. by apply NoDup_snoc_fresh.
  - by rewrite Hids, Hnm.
  - rewrite Hbids, Hnb. by apply Forall_snoc_next.
  - rewrite Hp, Hids. done.
  - rewrite Hb. apply Forall_app. split.
    + eapply Forall_impl; [eassumption|]. intros b. apply Hmn.
    + apply Forall_singleton. cbn. by apply Hmn.
  - rewrite Hh, Hbids. eapply Forall_impl; [eassumption|]. intros r Hin.
    apply elem_of_app. by left.
  - by rewrite Hv, Hids.
  - by rewrite Hv.
  - destruct Hcol as [Hc1 Hc2]. split; [|by rewrite Hm].
    rewrite Hb. apply Forall_app. split; [done|]. by apply Forall_singleton.
Qed.

Lemma store_ok_add_veto st member_id genre round st' :
  store_ok st -> add_veto st member_id genre round = Done st' -> store_ok st'.
Proof.
  intros [Hmi Hbi Hms Hbs Hpf Hsf Hhf Hvf Hov Hcol] (Hmem & Hm & Hp & Hb & Hh & Hv & Hnm & Hnb & Hnh)%add_veto_Done.
  assert (Hids : member_ids (st_db st') = member_ids (st_db st)).
  { unfold member_ids. by rewrite Hm. }
  assert (Hbids : book_ids (st_db st') = book_ids (st_db st)).
  { unfold book_ids. by rewrite Hb. }
  constructor.
  - by rewrite Hids.
  - by rewrite Hbids.
  - by rewrite Hids, Hnm.
  - by rewrite Hbids, Hnb.
  - by rewrite Hp, Hids.
  - rewrite Hb. eapply Forall_impl; [eassumption|]. intros b.
    apply member_or_null_mono. by rewrite Hids.
  - by rewrite Hh, Hbids.
  - rewrite Hv, Hids. apply Forall_app. split.
    + eapply Forall_of_sublist; [apply sublist_filter|done].
    + by apply Forall_singleton.
  - rewrite Hv, fmap_app. apply NoDup_app. split; [|split].
    + eapply sublist_NoDup; [eassumption|].
      apply fmap_sublist, sublist_filter.
    + intros [m r] (v & Hmr & [Hneq Hin]%list_elem_of_filter)%list_elem_of_fmap
        [= -> ->]%list_elem_of_singleton.
      apply Hneq. by inversion Hmr.
    + apply NoDup_singleton.
  - destruct Hcol as [Hc1 Hc2]. split; [by rewrite Hb|by rewrite Hm].
Qed.

Lemma store_ok_mark_book_as_read st book_id round st' :
  store_ok st -> mark_book_as_read st book_id round = Done st' -> store_ok st'.
Proof.
  intros [Hmi Hbi Hms Hbs Hpf Hsf Hhf Hvf Hov Hcol] (Hbook & Hm & Hp & Hb & Hh & Hv & Hnm & Hnb & Hnh)%mark_book_as_read_Done.
  assert (Hids : member_ids (st_db st') = member_ids (st_db st)).
  { unfold member_ids. by rewrite Hm. }
  assert (Hbids : book_ids (st_db st') = book_ids (st_db st)).
  { unfold book_ids. by rewrite Hb. }
  constructor.
  - by rewrite Hids.
  - by rewrite Hbids.
  - by rewrite Hids, Hnm.
  - by rewrite Hbids, Hnb.
  - by rewrite Hp, Hids.
  - rewrite Hb. eapply Forall_impl; [eassumption|]. intros b.
    apply member_or_null_mono. by rewrite Hids.
  - rewrite Hh, Hbids. apply Forall_app. split; [done|]. by apply Forall_singleton.
  - by rewrite Hv, Hids.
  - by rewrite Hv.
  - destruct Hcol as [Hc1 Hc2]. split; [by rewrite Hb|by rewrite Hm].
Qed.

(* ===================================================================== *)
(** ** Joins over unique keys *)
(* ===================================================================== *)

Lemma filter_key_none {A} (P : A -> Prop) `{!∀ x, Decision (P x)}
    (f : A -> Z) (l : list A) (x : Z) :
  (∀ m, P m <-> f m = x) -> x ∉ f <$> l -> filter P l = [].
Proof.
  intros HP Hx. induction l as [|a l IH]; [done|].
  rewrite fmap_cons, not_elem_of_cons in Hx. destruct Hx as [Hne Hx].
  rewrite filter_cons_False; [by apply IH|]. rewrite HP. congruence.
Qed.

Lemma filter_key_unique {A} (P : A -> Prop) `{!∀ x, Decision (P x)}
    (f : A -> Z) (l : list A) (x : Z) :
  (∀ m, P m <-> f m = x) -> NoDup (f <$> l) -> x ∈ f <$> l ->
  ∃ r, r ∈ l /\ f r = x /\ filter P l = [r].
Proof.
  intros HP Hnd Hx. induction l as [|a l IH]; [by apply elem_of_nil in Hx|].
  rewrite fmap_cons in Hnd, Hx. apply NoDup_cons in Hnd as [Ha Hnd].
  destruct (decide (f a = x)) as [Heq|Hne].
  - exists a. split; [apply elem_of_cons; by left|]. split; [done|].
    rewrite filter_cons_True by by apply HP.
    f_equal. apply (filter_key_none P f l x HP). congruence.
  - apply elem_of_cons in Hx as [Hx|Hx]; [congruence|].
    destruct (IH Hnd Hx) as (r & Hr & Hfr & Hfil).
    exists r. split; [apply elem_of_cons; by right|]. split; [done|].
    rewrite filter_cons_False; [done|]. by rewrite HP.
Qed.

Lemma bind_ext_in {A B} (f g : A -> list B) (l : list A) :
  (∀ x, x ∈ l -> f x = g x) -> l ≫= f = l ≫= g.
Proof.
  induction l as [|a l IH]; intros H; [done|].
  cbn. rewrite (H a) by (apply elem_of_cons; by left).
  f_equal. apply IH. intros x Hx. apply H, elem_of_cons. by right.
Qed.

Lemma fmap_ext_elem {A B} (f g : A -> B) (l : list A) :
  (∀ x, x ∈ l -> f x = g x) -> f <$> l = g <$> l.
Proof.
  induction l as [|a l IH]; intros H; [done|].
  cbn. rewrite (H a) by (apply elem_of_cons; by left).
  f_equal. apply IH. intros x Hx. apply H, elem_of_cons. by right.
Qed.

(** The member a book row refers to. *)
Lemma suggested_by_join (db : Database) (b : books_row) :
  NoDup (member_ids db) -> member_or_null db (br_suggested_by b) ->
  match br_suggested_by b with
  | None => filter (fun m => br_suggested_by b = Some (mr_id m)) (tbl_members db) = []
  | Some i =>
      ∃ m, m ∈ tbl_members db /\ mr_id m = i /\
           filter (fun m => br_suggested_by b = Some (mr_id m)) (tbl_members db) = [m]
  end.
Proof.
  intros Hnd Hfk. destruct (br_suggested_by b) as [i|] eqn:Hs; cbn in Hfk.
  - apply (filter_key_unique _ mr_id); [|done..]. intros m. split; congruence.
  - induction (tbl_members db) as [|m l IH]; [done|].
    by rewrite filter_cons_False.
Qed.

Lemma get_books_rows (db : Database) :
  NoDup (member_ids db) ->
  Forall (fun b => member_or_null db (br_suggested_by b)) (tbl_books db) ->
  Forall2 (fun br b =>
             ∃ by_name, b = mk_book br by_name /\
               match br_suggested_by br with
               | None => by_name = None
               | Some i => ∃ m, m ∈ tbl_members db /\ mr_id m = i /\
                                by_name = Some (mr_name m)
               end)
          (tbl_books db) (get_books db).
Proof.
  intros Hnd Hfk. unfold get_books.
  induction Hfk as [|b l Hb Hl IH]; [constructor|].
  cbn. pose proof (suggested_by_join db b Hnd Hb) as Hj.
  destruct (br_suggested_by b) as [i|] eqn:Hs.
  - destruct Hj as (m & Hm & Hi & ->). cbn. constructor; [|done].
    exists (Some (mr_name m)). split; [done|]. rewrite Hs. by exists m.
  - rewrite Hj. cbn. constructor; [|done].
    exists None. split; [done|]. by rewrite Hs.
Qed.

Lemma history_join_rows (db : Database) :
  NoDup (book_ids db) ->
  Forall (fun r => hr_book_id r ∈ book_ids db) (tbl_reading_history db) ->
  Forall2 (fun rh e => ∃ br, br ∈ tbl_books db /\ br_id br = hr_book_id rh /\
                             e = mk_entry rh br)
          (tbl_reading_history db) (history_join_books db).
Proof.
  intros Hnd Hfk. unfold history_join_books.
  induction Hfk as [|rh l Hrh Hl IH]; [constructor|].
  cbn.
  destruct (filter_key_unique (fun b => hr_book_id rh = br_id b) br_id
              (tbl_books db) (hr_book_id rh)) as (br & Hbr & Hid & ->);
    [intros m; split; congruence|done..|].
  cbn. constructor; [|done]. by exists br.
Qed.

(* ===================================================================== *)
(** ** The current round *)
(* ===================================================================== *)

Lemma get_current_round_max_round db :
  get_current_round db =
  match max_round (tbl_reading_history db) with
  | None => 1%Z
  | Some m => (m + 1)%Z
  end.
Proof.
  unfold get_current_round. fold (max_round (tbl_reading_history db)).
  destruct (max_round _) as [m|]; [|done].
  case_bool_decide; lia.
Qed.

Lemma max_round_spec history :
  match max_round history with
  | None => history = []
  | Some m =>
      Forall (fun r => (hr_round_number r <= m)%Z) history /\
      ∃ r, r ∈ history /\ hr_round_number r = m
  end.
Proof.
  induction history as [|r l IH]; [done|].
  cbn. fold (max_round l). destruct (max_round l) as [m|].
  - destruct IH as [Hle (r' & Hr' & Hm)]. split.
    + constructor; [lia|]. eapply Forall_impl; [exact Hle|]. cbn. lia.
    + destruct (Z.max_spec (hr_round_number r) m) as [[_ ->]|[_ ->]].
      * exists r'. split; [apply elem_of_cons; by right|done].
      * exists r. split; [apply elem_of_cons; by left|done].
  - subst l. split; [by apply Forall_singleton|].
    exists r. split; [apply elem_of_cons; by left|done].
Qed.

Lemma max_round_snoc history r :
  max_round (history ++ [r]) =
  Some (match max_round history with
        | None => hr_round_number r
        | Some m => Z.max m (hr_round_number r)
        end).
Proof.
  induction history as [|x l IH]; [done|].
  cbn. fold (max_round (l ++ [r])). fold (max_round l). rewrite IH.
  destruct (max_round l); f_equal; lia.
Qed.

(** X12: [get_current_round] is 1 on an empty reading history; otherwise it
    is one more than the round number of some history row, and it exceeds
    the round number of every history row. *)
Theorem get_current_round_spec (db : Database) :
  (tbl_reading_history db = [] -> get_current_round db = 1%Z) /\
  (∀ r, r ∈ tbl_reading_history db ->
        (hr_round_number r < get_current_round db)%Z) /\
  (tbl_reading_history db ≠ [] ->
   ∃ r, r ∈ tbl_reading_history db /\
        get_current_round db = (hr_round_number r + 1)%Z).
Proof.
  rewrite get_current_round_max_round.
  pose proof (max_round_spec (tbl_reading_history db)) as Hs.
  destruct (max_round _) as [m|].
  - destruct Hs as [Hle (r & Hr & Hm)]. split; [|split].
    + intros E. rewrite E in Hr. by apply elem_of_nil in Hr.
    + intros r' Hr'. rewrite Forall_forall in Hle. specialize (Hle _ Hr'). lia.
    + intros _. exists r. split; [done|lia].
  - rewrite Hs. split; [done|]. split; [|done].
    intros r Hr. by apply elem_of_nil in Hr.
Qed.

(** X13: after a committed [mark_book_as_read]: when the round given is
    the current round, the current round has advanced by exactly one; on
    a non-empty history the new current round is the larger of the old one
    and the given round plus one; on an empty history it is the given
    round plus one. *)
Theorem mark_book_as_read_next_round (st st' : Store) (book_id round_number : Z) :
  mark_book_as_read st book_id round_number = Done st' ->
  (round_number = get_current_round (st_db st) ->
   get_current_round (st_db st') = (get_current_round (st_db st) + 1)%Z) /\
  (tbl_reading_history (st_db st) ≠ [] ->
   get_current_round (st_db st') =
   Z.max (get_current_round (st_db st)) (round_number + 1)) /\
  (tbl_reading_history (st_db st) = [] ->
   get_current_round (st_db st') = (round_number + 1)%Z).
Proof.
  intros (_ & _ & _ & _ & Hh & _)%mark_book_as_read_Done.
  rewrite !get_current_round_max_round, Hh, max_round_snoc. cbn.
  pose proof (max_round_spec (tbl_reading_history (st_db st))) as Hs.
  destruct (max_round _) as [m|].
  - split; [lia|]. split; [lia|]. intros E. rewrite E in Hs.
    destruct Hs as [_ (r & Hr & _)]. by apply elem_of_nil in Hr.
  - split; [lia|]. split; [done|]. lia.
Qed.

(* ===================================================================== *)
(** ** The small store *)
(* ===================================================================== *)

Lemma demo_store_ok : store_ok demo_store.
Proof.
  constructor; try apply demo_db_wf;
    apply (bool_decide_unpack _); vm_compute; exact I.
Defined.

Lemma mark_book_as_read_next_round_witness :
  ∃ st',
    mark_book_as_read demo_store 1 2 = Done st' /\
    get_current_round (st_db st') = 3%Z.
Proof.
  eexists. split; [reflexivity|].
  exact (proj1 (mark_book_as_read_next_round demo_store _ 1 2 eq_refl) eq_refl).
Defined.

(* ===================================================================== *)
(** ** What a recommendation can contain *)
(* ===================================================================== *)

Lemma recommended_eligible (db : Database) (n : Z) :
  wf_db db ->
  ∃ out, get_recommendations db n = Ok out /\
         ∀ sb, sb ∈ out -> sb_book sb ∈ eligible_books db.
Proof.
  intros Hwf.
  destruct (get_recommendations_value db n Hwf) as (scored & Hf & Hr).
  eexists. split; [exact Hr|]. intros sb Hsb.
  rewrite <- (scored_from_books _ _ _ _ Hf). apply list_elem_of_fmap.
  exists sb. split; [done|]. rewrite <- (py_sort_score_perm scored).
  eapply elem_of_sublist; [exact Hsb|apply py_slice_to_sublist].
Qed.

Lemma eligible_books_passes (db : Database) (b : book) :
  b ∈ eligible_books db ->
  b ∈ get_books db /\
  (b_id b ∉ (e_book_id <$> get_reading_history db)) /\
  (b_genre b ∉ get_last_n_genres db 2) /\
  b_genre b ∉ get_vetoes db (get_current_round db).
Proof.
  unfold eligible_books. rewrite apply_hard_constraints_filter.
  intros [(Hid & Hg & Hv) Hin]%list_elem_of_filter.
  split; [done|]. split; [|done]. by rewrite elem_of_list_to_set in Hid.
Qed.

Lemma history_join_books_snoc db db' rh :
  tbl_books db' = tbl_books db ->
  tbl_reading_history db' = tbl_reading_history db ++ [rh] ->
  history_join_books db' =
  history_join_books db ++
  (mk_entry rh <$> filter (fun b => hr_book_id rh = br_id b) (tbl_books db)).
Proof.
  unfold history_join_books. intros -> ->.
  rewrite bind_app. cbn. by rewrite app_nil_r.
Qed.

Lemma order_by_desc_head {A} (key : A -> Z) (rows : list A) (x : A) :
  x ∈ rows -> (∀ y, y ∈ rows -> y = x \/ (key y < key x)%Z) ->
  head (order_by_desc key rows) = Some x.
Proof.
  intros Hx Hmax.
  pose proof (order_by_desc_sorted key rows) as Hs.
  assert (Hp : order_by_desc key rows ≡ₚ rows) by apply stable_sort_perm.
  destruct (order_by_desc key rows) as [|h t]; cbn.
  - rewrite <- Hp in Hx. by apply elem_of_nil in Hx.
  - f_equal.
    assert (Hh : h ∈ rows) by (rewrite <- Hp; apply elem_of_cons; by left).
    destruct (Hmax h Hh) as [|Hlt]; [done|exfalso].
    rewrite <- Hp in Hx. apply elem_of_cons in Hx as [->|Hx]; [lia|].
    apply StronglySorted_inv in Hs as [_ Hall].
    rewrite Forall_forall in Hall. specialize (Hall _ Hx). lia.
Qed.

Lemma history_join_books_elem db e :
  e ∈ history_join_books db ->
  ∃ rh br, rh ∈ tbl_reading_history db /\ br ∈ tbl_books db /\ e = mk_entry rh br.
Proof.
  unfold history_join_books.
  intros (rh & (br & -> & [_ Hbr]%list_elem_of_filter)%list_elem_of_fmap & Hrh)%list_elem_of_bind.
  by exists rh, br.
Qed.

Lemma writes_store_ok st st' : store_ok st -> writes st st' -> store_ok st'.
Proof.
  intros Hok Hw. destruct Hw.
  - eapply store_ok_add_member; eassumption.
  - eapply store_ok_add_book; eassumption.
  - eapply store_ok_add_veto; eassumption.
  - eapply store_ok_mark_book_as_read; eassumption.
Qed.

Lemma writes_keeps_rows st st' :
  writes st st' ->
  (∀ b, b ∈ tbl_books (st_db st) -> b ∈ tbl_books (st_db st')) /\
  (∀ r, r ∈ tbl_reading_history (st_db st) -> r ∈ tbl_reading_history (st_db st')).
Proof.
  intros Hw. destruct Hw as [? ? ? ? ? ? H|? ? ? ? ? ? ? ? H|? ? ? ? ? H|? ? ? ? H].
  - apply add_member_Done in H as (_ & _ & _ & _ & Hb & Hh & _).
    rewrite Hb, Hh. done.
  - apply add_book_Done in H as (_ & _ & _ & _ & _ & Hb & Hh & _).
    rewrite Hb, Hh. split; [|done]. intros b Hin. apply elem_of_app. by left.
  - apply add_veto_Done in H as (_ & _ & _ & Hb & Hh & _).
    rewrite Hb, Hh. done.
  - apply mark_book_as_read_Done in H as (_ & _ & _ & Hb & Hh & _).
    rewrite Hb, Hh. split; [done|]. intros r Hin. apply elem_of_app. by left.
Qed.

Lemma rtc_writes_store_ok st st' : store_ok st -> rtc writes st st' -> store_ok st'.
Proof.
  intros Hok Hr. induction Hr as [|x y z Hxy _ IH]; [done|].
  apply IH. by eapply writes_store_ok.
Qed.

Lemma rtc_writes_keeps_rows st st' :
  rtc writes st st' ->
  (∀ b, b ∈ tbl_books (st_db st) -> b ∈ tbl_books (st_db st')) /\
  (∀ r, r ∈ tbl_reading_history (st_db st) -> r ∈ tbl_reading_history (st_db st')).
Proof.
  induction 1 as [|x y z Hxy _ [IHb IHh]]; [done|].
  destruct (writes_keeps_rows _ _ Hxy) as [Hb Hh].
  split; [intros b Hin; by apply IHb, Hb|intros r Hin; by apply IHh, Hh].
Qed.

(** A book with a row in the reading history is not eligible. *)
Lemma read_book_not_recommended (db : Database) (n : Z) (rh : reading_history_row)
    (br : books_row) :
  wf_db db -> rh ∈ tbl_reading_history db -> br ∈ tbl_books db ->
  hr_book_id rh = br_id br ->
  ∃ out, get_recommendations db n = Ok out /\
         ∀ sb, sb ∈ out -> b_id (sb_book sb) ≠ br_id br.
Proof.
  intros Hwf Hrh Hbr Hid.
  destruct (recommended_eligible db n Hwf) as (out & Hout & Hel).
  exists out. split; [done|]. intros sb Hsb Heq.
  destruct (eligible_books_passes _ _ (Hel sb Hsb)) as (_ & Hnotread & _).
  apply Hnotread. apply list_elem_of_fmap.
  exists (mk_entry rh br). split; [cbn; congruence|].
  by apply get_reading_history_row.
Qed.

(** A book read in a round above every other round blocks its genre. *)
Lemma latest_genre_not_recommended (st st' : Store) (book_id round_number n : Z)
    (br : books_row) :
  store_ok st ->
  mark_book_as_read st book_id round_number = Done st' ->
  br ∈ tbl_books (st_db st) -> br_id br = book_id ->
  Forall (fun r => (hr_round_number r < round_number)%Z)
         (tbl_reading_history (st_db st)) ->
  ∃ out, get_recommendations (st_db st') n = Ok out /\
         ∀ sb, sb ∈ out -> b_genre (sb_book sb) ≠ br_genre br.
Proof.
  intros Hok Hmark Hbr Hid Hlt.
  pose proof (store_ok_mark_book_as_read _ _ _ _ Hok Hmark) as Hok'.
  apply mark_book_as_read_Done in Hmark
    as (Hbook & Hm & Hp & Hb & Hh & Hv & Hnm & Hnb & Hnh).
  set (rh := {| hr_id := next_history_id st; hr_book_id := book_id;
                hr_round_number := round_number |}) in *.
  destruct (filter_key_unique (fun b => hr_book_id rh = br_id b) br_id
              (tbl_books (st_db st)) book_id) as (br' & Hbr' & Hid' & Hfil);
    [intros m; cbn; split; congruence|apply Hok|done|].
  assert (br' = br) as ->.
  { pose proof (ok_book_ids _ Hok) as Hnd. unfold book_ids in Hnd.
    apply list_elem_of_lookup in Hbr as (i & Hi).
    apply list_elem_of_lookup in Hbr' as (j & Hj).
    assert (i = j) as ->; [|congruence].
    eapply NoDup_lookup; [exact Hnd| |].
    - rewrite list_lookup_fmap, Hi. cbn. by rewrite Hid.
    - rewrite list_lookup_fmap, Hj. cbn. by rewrite Hid'. }
  pose proof (history_join_books_snoc _ _ rh Hb Hh) as Hjoin.
  rewrite Hfil in Hjoin. cbn in Hjoin.
  assert (Hin : mk_entry rh br ∈ history_join_books (st_db st')).
  { rewrite Hjoin. apply elem_of_app. right. by apply list_elem_of_singleton. }
  destruct (recommended_eligible (st_db st') n (ok_columns _ Hok')) as (out & Hout & Hel).
  exists out. split; [done|]. intros sb Hsb Heq.
  destruct (eligible_books_passes _ _ (Hel sb Hsb)) as (_ & _ & Hlast & _).
  apply Hlast. unfold get_last_n_genres.
  assert (Hhead : head (order_by_desc e_round_number (history_join_books (st_db st')))
                  = Some (mk_entry rh br)).
  { apply order_by_desc_head; [done|]. intros y Hy.
    rewrite Hjoin in Hy. apply elem_of_app in Hy as [Hy|Hy].
    - right. apply history_join_books_elem in Hy as (rh' & br' & Hrh' & _ & ->).
      rewrite Forall_forall in Hlt. apply (Hlt _ Hrh').
    - left. by apply list_elem_of_singleton in Hy. }
  destruct (order_by_desc _ _) as [|e t]; [done|].
  injection Hhead as ->. cbn. rewrite Heq. apply elem_of_cons. by left.
Qed.
(** X14: on a store that satisfies the invariant, a book marked as read
    is never recommended again: not by a request on the store the call
    leaves, and not by a request after any number of further committed
    [add_member], [add_book], [add_veto] and [mark_book_as_read] calls.  When
    the round given exceeds every recorded round, no book of the same genre
    is recommended by a request on the store the call leaves either. *)
Theorem mark_book_as_read_never_again (st st' st'' : Store)
    (book_id round_number n : Z) :
  store_ok st ->
  mark_book_as_read st book_id round_number = Done st' ->
  rtc writes st' st'' ->
  ∃ br,
    br ∈ tbl_books (st_db st) /\ br_id br = book_id /\
    (∃ out, get_recommendations (st_db st'') n = Ok out /\
            ∀ sb, sb ∈ out -> b_id (sb_book sb) ≠ book_id) /\
    (Forall (fun r => (hr_round_number r < round_number)%Z)
            (tbl_reading_history (st_db st)) ->
     ∃ out, get_recommendations (st_db st') n = Ok out /\
            ∀ sb, sb ∈ out -> b_genre (sb_book sb) ≠ br_genre br).
Proof.
  intros Hok Hmark Hlater.
  pose proof (store_ok_mark_book_as_read _ _ _ _ Hok Hmark) as Hok'.
  pose proof (rtc_writes_store_ok _ _ Hok' Hlater) as Hok''.
  destruct (rtc_writes_keeps_rows _ _ Hlater) as [Hkb Hkh].
  pose proof (mark_book_as_read_Done _ _ _ _ Hmark)
    as (Hbook & _ & _ & Hb & Hh & _).
  apply list_elem_of_fmap in Hbook as (br & Hid & Hbr).
  exists br. split; [done|]. split; [done|]. split.
  - set (rh := {| hr_id := next_history_id st; hr_book_id := book_id;
                  hr_round_number := round_number |}).
    rewrite Hid.
    apply (read_book_not_recommended (st_db st'') n rh br (ok_columns _ Hok'')).
    + apply Hkh. rewrite Hh. apply elem_of_app. right. by apply list_elem_of_singleton.
    + apply Hkb. by rewrite Hb.
    + done.
  - intros Hlt.
    by apply (latest_genre_not_recommended st st' book_id round_number n br).
Qed.

Lemma mark_book_as_read_never_again_witness :
  ∃ st' st'' br,
    mark_book_as_read demo_store 1 2 = Done st' /\
    add_book st' "Circe" "Madeline Miller" "Fantasy" 400 None = Done (5%Z, st'') /\
    br ∈ tbl_books demo_db /\ br_id br = 1%Z /\
    (∃ out, get_recommendations (st_db st'') 10 = Ok out /\
            ∀ sb, sb ∈ out -> b_id (sb_book sb) ≠ 1%Z) /\
    (Forall (fun r => (hr_round_number r < 2)%Z) (tbl_reading_history demo_db) ->
     ∃ out, get_recommendations (st_db st') 10 = Ok out /\
            ∀ sb, sb ∈ out -> b_genre (sb_book sb) ≠ br_genre br).
Proof.
  epose proof (mark_book_as_read_never_again demo_store _ _ 1 2 10
                 demo_store_ok eq_refl) as H.
  match type of H with
  | rtc writes ?s _ -> _ =>
      epose proof (writes_add_book s "Circe" "Madeline Miller" "Fantasy" 400 None
                     _ _ eq_refl) as Hw
  end.
  destruct (H (rtc_once _ _ Hw)) as (br & Hbr).
  refine (ex_intro _ _ (ex_intro _ _ (ex_intro _ br (conj _ (conj _ Hbr)))));
    reflexivity.
Defined.

(* ===================================================================== *)
(** ** Vetoes *)
(* ===================================================================== *)

(** The rows of [vetoes] after [add_veto], in the row order of the model. *)
Lemma veto_rows_after_add_veto (st st' : Store) (member_id : Z) (genre : string)
    (round_number : Z) :
  add_veto st member_id genre round_number = Done st' ->
  get_vetoes (st_db st') round_number =
    (vr_genre <$> filter (fun v => vr_round_number v = round_number /\
                                   vr_member_id v ≠ member_id)
                         (tbl_vetoes (st_db st))) ++ [genre] /\
  ∀ r, r ≠ round_number -> get_vetoes (st_db st') r = get_vetoes (st_db st) r.
Proof.
  intros (_ & _ & _ & _ & _ & Hv & _)%add_veto_Done.
  unfold get_vetoes. rewrite Hv. split.
  - rewrite filter_app, fmap_app, list_filter_filter. f_equal.
    + f_equal. apply list_filter_iff. intros v. tauto.
    + by rewrite filter_cons_True.
  - intros r Hr. rewrite filter_app, filter_cons_False by (cbn; congruence).
    rewrite filter_nil, app_nil_r, list_filter_filter. f_equal.
    apply list_filter_iff. intros v. split; [tauto|].
    intros Hvr. split; [done|]. intros [_ Heq]. congruence.
Qed.

(** X15: after a committed [add_veto] the vetoes of that round are, up to
    the order of the rows (the query has no [ORDER BY]), the new genre and
    the vetoes of the other members; an earlier veto of the same member
    for the round is gone.  The vetoes of every other round are the same
    as before, up to order. *)
Theorem add_veto_get_vetoes (st st' : Store) (member_id : Z) (genre : string)
    (round_number : Z) :
  add_veto st member_id genre round_number = Done st' ->
  get_vetoes (st_db st') round_number ≡ₚ
    genre :: (vr_genre <$> filter (fun v => vr_round_number v = round_number /\
                                            vr_member_id v ≠ member_id)
                                  (tbl_vetoes (st_db st))) /\
  ∀ r, r ≠ round_number -> get_vetoes (st_db st') r ≡ₚ get_vetoes (st_db st) r.
Proof.
  intros Hveto.
  destruct (veto_rows_after_add_veto _ _ _ _ _ Hveto) as [Hr Hother]. split.
  - rewrite Hr. symmetry. apply Permutation_cons_append.
  - intros r Hne. by rewrite (Hother r Hne).
Qed.

Lemma add_veto_get_vetoes_witness :
  ∃ st',
    add_veto demo_store 1 "Fantasy" 2 = Done st' /\
    get_vetoes (st_db st') 2 ≡ₚ ["Fantasy"] /\
    ∀ r, r ≠ 2%Z -> get_vetoes (st_db st') r ≡ₚ get_vetoes demo_db r.
Proof.
  eexists. split; [reflexivity|].
  exact (add_veto_get_vetoes demo_store _ 1 "Fantasy" 2 eq_refl).
Defined.

Lemma get_recommendations_same_tables (db db' : Database) (n : Z) :
  tbl_members db' = tbl_members db ->
  tbl_member_genre_preferences db' = tbl_member_genre_preferences db ->
  tbl_books db' = tbl_books db ->
  tbl_reading_history db' = tbl_reading_history db ->
  get_vetoes db' (get_current_round db) = get_vetoes db (get_current_round db) ->
  get_recommendations db' n = get_recommendations db n.
Proof.
  intros Hm Hp Hb Hh Hv.
  assert (Hbooks : get_books db' = get_books db).
  { unfold get_books. by rewrite Hm, Hb. }
  assert (Hmembers : get_members db' = get_members db).
  { unfold get_members. by rewrite Hm, Hp. }
  assert (Hjoin : history_join_books db' = history_join_books db).
  { unfold history_join_books. by rewrite Hb, Hh. }
  assert (Hround : get_current_round db' = get_current_round db).
  { unfold get_current_round. by rewrite Hh. }
  unfold get_recommendations. cbv zeta.
  rewrite !apply_hard_constraints_filter.
  unfold get_reading_history, get_last_n_genres.
  by rewrite Hbooks, Hmembers, Hjoin, Hround, Hv.
Qed.

(** X16: a veto saved for the current round removes its genre from the
    recommendations, and a veto saved for any other round leaves the
    result of [get_recommendations] as it was. *)
Theorem add_veto_blocks_genre (st st' : Store) (member_id : Z) (genre : string)
    (round_number n : Z) :
  wf_db (st_db st) ->
  add_veto st member_id genre round_number = Done st' ->
  (round_number = get_current_round (st_db st) ->
   ∃ out, get_recommendations (st_db st') n = Ok out /\
          ∀ sb, sb ∈ out -> b_genre (sb_book sb) ≠ genre) /\
  (round_number ≠ get_current_round (st_db st) ->
   get_recommendations (st_db st') n = get_recommendations (st_db st) n).
Proof.
  intros Hwf Hveto.
  pose proof (add_veto_Done _ _ _ _ _ Hveto) as (_ & Hm & Hp & Hb & Hh & Hv & _).
  assert (Hround : get_current_round (st_db st') = get_current_round (st_db st)).
  { unfold get_current_round. by rewrite Hh. }
  split.
  - intros ->.
    assert (Hwf' : wf_db (st_db st')).
    { destruct Hwf. split; [by rewrite Hb|by rewrite Hm]. }
    destruct (recommended_eligible (st_db st') n Hwf') as (out & Hout & Hel).
    exists out. split; [done|]. intros sb Hsb Heq.
    destruct (eligible_books_passes _ _ (Hel sb Hsb)) as (_ & _ & _ & Hnot).
    apply Hnot. rewrite Hround. unfold get_vetoes. rewrite Hv.
    apply list_elem_of_fmap.
    exists {| vr_member_id := member_id; vr_genre := genre;
              vr_round_number := get_current_round (st_db st) |}.
    split; [done|]. apply list_elem_of_filter. split; [done|].
    apply elem_of_app. right. by apply list_elem_of_singleton.
  - intros Hne. apply get_recommendations_same_tables; try done.
    unfold get_vetoes. rewrite Hv.
    rewrite filter_app, filter_cons_False by (cbn; congruence).
    rewrite filter_nil, app_nil_r, list_filter_filter. f_equal.
    apply list_filter_iff. intros v. split; [tauto|].
    intros Hvr. split; [done|]. intros [_ Heq]. congruence.
Qed.

Lemma add_veto_blocks_genre_witness :
  ∃ st',
    add_veto demo_store 2 "Fantasy" 2 = Done st' /\
    (2%Z = get_current_round demo_db ->
     ∃ out, get_recommendations (st_db st') 10 = Ok out /\
            ∀ sb, sb ∈ out -> b_genre (sb_book sb) ≠ "Fantasy") /\
    (2%Z ≠ get_current_round demo_db ->
     get_recommendations (st_db st') 10 = get_recommendations demo_db 10).
Proof.
  eexists. split; [reflexivity|].
  exact (add_veto_blocks_genre demo_store _ 2 "Fantasy" 2 10 demo_db_wf eq_refl).
Defined.

(* ===================================================================== *)
(** ** Insert and read back *)
(* ===================================================================== *)

Lemma lt_not_elem (l : list Z) (next : Z) :
  Forall (fun i => (i < next)%Z) l -> next ∉ l.
Proof.
  rewrite Forall_forall. intros Hlt Hin. specialize (Hlt _ Hin). lia.
Qed.

(** The result of the queries after [add_member], in the row order of the
    model. *)
Lemma member_rows_after_add_member (st st' : Store) (name : string)
    (preferred_length : Z) (liked_genres : list string) (member_id : Z) :
  store_ok st ->
  add_member st name preferred_length liked_genres = Done (member_id, st') ->
  get_members (st_db st') =
    get_members (st_db st) ++
    [{| m_id := member_id; m_name := name;
        m_preferred_length := preferred_length;
        m_liked_genres := liked_genres |}] /\
  (member_id ∉ (m_id <$> get_members (st_db st))) /\
  get_books (st_db st') = get_books (st_db st) /\
  get_reading_history (st_db st') = get_reading_history (st_db st).
Proof.
  intros Hok (Hlen & -> & Hm & Hp & Hb & Hh & Hv & Hnm & Hnb & Hnh)%add_member_Done.
  pose proof (lt_not_elem _ _ (ok_member_seq _ Hok)) as Hfresh.
  split; [|split; [|split]].
  - set (newp := (fun genre => {| gp_member_id := next_member_id st;
                                   gp_genre := genre |}) <$> liked_genres) in *.
    unfold get_members. rewrite Hm, Hp, fmap_app. f_equal.
    + apply fmap_ext_elem. intros r Hr. f_equal.
      rewrite filter_app, fmap_app.
      rewrite (filter_key_none _ gp_member_id newp (mr_id r));
        [by rewrite fmap_nil, app_nil_r|done|].
      unfold newp. rewrite <- list_fmap_compose.
      intros (g & Heq & _)%list_elem_of_fmap. cbn in Heq.
      apply Hfresh. rewrite <- Heq. apply list_elem_of_fmap. by exists r.
    + cbn. f_equal. f_equal. rewrite filter_app, fmap_app.
      rewrite (filter_key_none _ gp_member_id
                 (tbl_member_genre_preferences (st_db st)) (next_member_id st));
        [|done|].
      * cbn. unfold newp. clear. induction liked_genres as [|g l IH]; [done|].
        rewrite fmap_cons, filter_cons_True by done. rewrite !fmap_cons. cbn.
        f_equal. exact IH.
      * intros (p & Heq & Hin)%list_elem_of_fmap.
        pose proof (ok_preferences_fk _ Hok) as Hfk.
        rewrite Forall_forall in Hfk. apply Hfresh. rewrite Heq. by apply Hfk.
  - unfold get_members. rewrite <- list_fmap_compose. exact Hfresh.
  - unfold get_books. rewrite Hm, Hb. apply bind_ext_in. intros b Hbin.
    rewrite filter_app, filter_cons_False, filter_nil, app_nil_r; [done|].
    cbn. intros Hs.
    pose proof (ok_suggested_by_fk _ Hok) as Hfk.
    rewrite Forall_forall in Hfk. specialize (Hfk _ Hbin).
    rewrite Hs in Hfk. by apply Hfresh.
  - unfold get_reading_history, history_join_books. by rewrite Hb, Hh.
Qed.

Lemma same_member_refl (m : member) : same_member m m.
Proof. by repeat split. Qed.

Lemma same_members_eq (l k : list member) : l = k -> same_members l k.
Proof.
  intros ->. exists k. split; [done|].
  apply Forall2_same_length_lookup. split; [done|].
  intros i x y Hx Hy. rewrite Hx in Hy. injection Hy as ->. apply same_member_refl.
Qed.

(** X17: after a committed [add_member] on a store that satisfies the
    invariant, [get_members] returns, up to the order of the rows and of
    the liked genres (its queries have no [ORDER BY]), the earlier members
    and the new one with the name, preferred length and liked genres
    given; the id returned was not in use, and [get_books] and
    [get_reading_history] return the same rows as before. *)
Theorem add_member_get_members (st st' : Store) (name : string)
    (preferred_length : Z) (liked_genres : list string) (member_id : Z) :
  store_ok st ->
  add_member st name preferred_length liked_genres = Done (member_id, st') ->
  same_members (get_members (st_db st'))
    ({| m_id := member_id; m_name := name;
        m_preferred_length := preferred_length;
        m_liked_genres := liked_genres |} :: get_members (st_db st)) /\
  (member_id ∉ (m_id <$> get_members (st_db st))) /\
  get_books (st_db st') ≡ₚ get_books (st_db st) /\
  get_reading_history (st_db st') ≡ₚ get_reading_history (st_db st).
Proof.
  intros Hok Hadd.
  destruct (member_rows_after_add_member _ _ _ _ _ _ Hok Hadd) as (Hm & Hfresh & Hb & Hh).
  split_and!; [|done|by rewrite Hb|by rewrite Hh].
  rewrite Hm.
  destruct (same_members_eq _ _ (eq_refl (
    {| m_id := member_id; m_name := name; m_preferred_length := preferred_length;
       m_liked_genres := liked_genres |} :: get_members (st_db st))))
    as (l' & Hp & Hf).
  exists l'. split; [|done]. rewrite <- Hp. symmetry. apply Permutation_cons_append.
Qed.

Lemma add_member_get_members_witness :
  ∃ st',
    add_member demo_store "Carol" 300 ["Fantasy"; "Horror"] = Done (3%Z, st') /\
    same_members (get_members (st_db st'))
      ({| m_id := 3; m_name := "Carol"; m_preferred_length := 300;
          m_liked_genres := ["Fantasy"; "Horror"] |} :: get_members demo_db) /\
    (3%Z ∉ (m_id <$> get_members demo_db)) /\
    get_books (st_db st') ≡ₚ get_books demo_db /\
    get_reading_history (st_db st') ≡ₚ get_reading_history demo_db.
Proof.
  eexists. split; [reflexivity|].
  exact (add_member_get_members demo_store _ "Carol" 300 ["Fantasy"; "Horror"] 3
           demo_store_ok eq_refl).
Defined.

(** The result of the queries after [add_book], in the row order of the
    model. *)
Lemma book_rows_after_add_book (st st' : Store) (title author genre : string)
    (page_count : Z) (suggested_by : option Z) (book_id : Z) :
  store_ok st ->
  add_book st title author genre page_count suggested_by = Done (book_id, st') ->
  ∃ by_name,
    get_books (st_db st') =
      get_books (st_db st) ++
      [{| b_id := book_id; b_title := title; b_author := author;
          b_genre := genre; b_page_count := page_count;
          b_suggested_by := suggested_by; b_suggested_by_name := by_name |}] /\
    match suggested_by with
    | None => by_name = None
    | Some i => ∃ m, m ∈ get_members (st_db st) /\ m_id m = i /\
                     by_name = Some (m_name m)
    end /\
    (book_id ∉ (b_id <$> get_books (st_db st))) /\
    get_members (st_db st') = get_members (st_db st) /\
    get_reading_history (st_db st') = get_reading_history (st_db st).
Proof.
  intros Hok (Hpages & Hby & -> & Hm & Hp & Hb & Hh & Hv & Hnm & Hnb & Hnh)%add_book_Done.
  set (row := {| br_id := next_book_id st; br_title := title; br_author := author;
                 br_genre := genre; br_page_count := page_count;
                 br_suggested_by := suggested_by |}) in *.
  pose proof (suggested_by_join (st_db st) row (ok_member_ids _ Hok) Hby) as Hj.
  assert (Hbooks : ∀ by_name,
             match filter (fun m => br_suggested_by row = Some (mr_id m))
                          (tbl_members (st_db st)) with
             | [] => [mk_book row None]
             | ms => (fun m => mk_book row (Some (mr_name m))) <$> ms
             end = [mk_book row by_name] ->
             get_books (st_db st') = get_books (st_db st) ++ [mk_book row by_name]).
  { intros by_name E. unfold get_books. rewrite Hm, Hb, bind_app. f_equal.
    cbn. by rewrite app_nil_r. }
  assert (Hfresh : next_book_id st ∉ (b_id <$> get_books (st_db st))).
  { intros (b & Hid & (br & Hbr & Hbid & _)%get_books_row)%list_elem_of_fmap.
    apply (lt_not_elem _ _ (ok_book_seq _ Hok)).
    rewrite Hid, Hbid. apply list_elem_of_fmap. by exists br. }
  assert (Hmem : get_members (st_db st') = get_members (st_db st)).
  { unfold get_members. by rewrite Hm, Hp. }
  assert (Hhist : get_reading_history (st_db st') = get_reading_history (st_db st)).
  { unfold get_reading_history, history_join_books. rewrite Hh, Hb.
    f_equal. apply bind_ext_in. intros rh Hrh.
    rewrite filter_app, filter_cons_False, filter_nil, app_nil_r; [done|].
    cbn. intros Heq.
    pose proof (ok_history_fk _ Hok) as Hfk. rewrite Forall_forall in Hfk.
    apply (lt_not_elem _ _ (ok_book_seq _ Hok)). rewrite <- Heq. by apply Hfk. }
  change (br_suggested_by row) with suggested_by in Hj, Hbooks.
  destruct suggested_by as [i|].
  - destruct Hj as (m & Hmin & Hid & Hfil).
    exists (Some (mr_name m)). split; [|split; [|done]].
    + apply (Hbooks (Some (mr_name m))). by rewrite Hfil.
    + unfold get_members. eexists. split.
      * apply list_elem_of_fmap. exists m. split; [reflexivity|done].
      * done.
  - exists None. split; [|done]. apply (Hbooks None). by rewrite Hj.
Qed.

(** X18: after a committed [add_book] on a store that satisfies the
    invariant, [get_books] returns, up to the order of the rows (the query
    has no [ORDER BY]), the earlier pool and the new book; its suggester
    name is empty when no suggester was given and the name of the member
    with the given id otherwise; the id returned was not in use, and
    [get_members] and [get_reading_history] return the same rows as
    before. *)
Theorem add_book_get_books (st st' : Store) (title author genre : string)
    (page_count : Z) (suggested_by : option Z) (book_id : Z) :
  store_ok st ->
  add_book st title author genre page_count suggested_by = Done (book_id, st') ->
  ∃ by_name,
    get_books (st_db st') ≡ₚ
      {| b_id := book_id; b_title := title; b_author := author;
         b_genre := genre; b_page_count := page_count;
         b_suggested_by := suggested_by; b_suggested_by_name := by_name |}
      :: get_books (st_db st) /\
    match suggested_by with
    | None => by_name = None
    | Some i => ∃ m, m ∈ get_members (st_db st) /\ m_id m = i /\
                     by_name = Some (m_name m)
    end /\
    (book_id ∉ (b_id <$> get_books (st_db st))) /\
    same_members (get_members (st_db st')) (get_members (st_db st)) /\
    get_reading_history (st_db st') ≡ₚ get_reading_history (st_db st).
Proof.
  intros Hok Hadd.
  destruct (book_rows_after_add_book _ _ _ _ _ _ _ _ Hok Hadd)
    as (by_name & Hb & Hname & Hfresh & Hm & Hh).
  exists by_name. split_and!; [|done|done|by apply same_members_eq|by rewrite Hh].
  rewrite Hb. symmetry. apply Permutation_cons_append.
Qed.

Lemma add_book_get_books_witness :
  ∃ st' by_name,
    add_book demo_store "Circe" "Madeline Miller" "Fantasy" 400 (Some 2%Z)
      = Done (5%Z, st') /\
    get_books (st_db st') ≡ₚ
      {| b_id := 5; b_title := "Circe"; b_author := "Madeline Miller";
         b_genre := "Fantasy"; b_page_count := 400;
         b_suggested_by := Some 2%Z; b_suggested_by_name := by_name |}
      :: get_books demo_db /\
    (∃ m, m ∈ get_members demo_db /\ m_id m = 2%Z /\ by_name = Some (m_name m)) /\
    (5%Z ∉ (b_id <$> get_books demo_db)) /\
    same_members (get_members (st_db st')) (get_members demo_db) /\
    get_reading_history (st_db st') ≡ₚ get_reading_history demo_db.
Proof.
  eexists.
  destruct (add_book_get_books demo_store _ "Circe" "Madeline Miller" "Fantasy" 400
              (Some 2%Z) 5 demo_store_ok eq_refl) as (by_name & H).
  exists by_name. split; [reflexivity|exact H].
Defined.

(* ===================================================================== *)
(** ** The invariant of the store *)
(* ===================================================================== *)



Lemma Forall2_fmap_eq {A B C} (f : A -> C) (g : B -> C) (l : list A) (k : list B) :
  Forall2 (fun x y => f x = g y) l k -> f <$> l = g <$> k.
Proof. induction 1 as [|x y l k E _ IH]; [done|]. cbn. by rewrite E, IH. Qed.

(** X20: on a store that satisfies the invariant the joins neither lose
    nor repeat a row: [get_books] lists every row of [books] exactly once
    (the ids it returns are a permutation of the ids of the table), with a
    suggester name exactly when a suggester is recorded;
    [get_reading_history] lists each history row exactly once, and every
    entry carries the genre and title of a book of the pool. *)
Theorem store_ok_joins (st : Store) :
  store_ok st ->
  b_id <$> get_books (st_db st) ≡ₚ br_id <$> tbl_books (st_db st) /\
  NoDup (b_id <$> get_books (st_db st)) /\
  (∀ b, b ∈ get_books (st_db st) ->
        is_Some (b_suggested_by b) <-> is_Some (b_suggested_by_name b)) /\
  e_id <$> get_reading_history (st_db st) ≡ₚ hr_id <$> tbl_reading_history (st_db st) /\
  (∀ e, e ∈ get_reading_history (st_db st) ->
        ∃ b, b ∈ get_books (st_db st) /\ b_id b = e_book_id e /\
             b_genre b = e_genre e /\ b_title b = e_title e).
Proof.
  intros Hok.
  pose proof (get_books_rows (st_db st) (ok_member_ids _ Hok)
                (ok_suggested_by_fk _ Hok)) as Hb.
  pose proof (history_join_rows (st_db st) (ok_book_ids _ Hok)
                (ok_history_fk _ Hok)) as Hh.
  assert (Hids : b_id <$> get_books (st_db st) = br_id <$> tbl_books (st_db st)).
  { symmetry. apply Forall2_fmap_eq. eapply Forall2_impl; [exact Hb|].
    intros br b (by_name & -> & _). done. }
  split_and!.
  - by rewrite Hids.
  - rewrite Hids. apply Hok.
  - intros b (i & Hi)%list_elem_of_lookup.
    destruct (Forall2_lookup_r _ _ _ _ _ Hb Hi) as (br & _ & by_name & -> & Hn).
    cbn. destruct (br_suggested_by br) as [j|].
    + destruct Hn as (m & _ & _ & ->). split; by eexists.
    + subst by_name. split; by intros [? ?].
  - unfold get_reading_history, order_by_desc. rewrite stable_sort_perm.
    assert (E : hr_id <$> tbl_reading_history (st_db st)
                = e_id <$> history_join_books (st_db st)); [|by rewrite E].
    apply Forall2_fmap_eq.
    eapply Forall2_impl; [exact Hh|]. intros rh e (br & _ & _ & ->). done.
  - intros e He. unfold get_reading_history, order_by_desc in He.
    rewrite stable_sort_perm in He.
    apply list_elem_of_lookup in He as (i & Hi).
    destruct (Forall2_lookup_r _ _ _ _ _ Hh Hi) as (rh & _ & br & Hbr & Hid & ->).
    apply list_elem_of_lookup in Hbr as (j & Hj).
    destruct (Forall2_lookup_l _ _ _ _ _ Hb Hj) as (b & Hbj & by_name & -> & _).
    exists (mk_book br by_name). split; [apply list_elem_of_lookup; by exists j|].
    done.
Qed.

Lemma store_ok_joins_witness :
  b_id <$> get_books demo_db ≡ₚ br_id <$> tbl_books demo_db /\
  NoDup (b_id <$> get_books demo_db) /\
  (∀ b, b ∈ get_books demo_db ->
        is_Some (b_suggested_by b) <-> is_Some (b_suggested_by_name b)) /\
  e_id <$> get_reading_history demo_db ≡ₚ hr_id <$> tbl_reading_history demo_db /\
  (∀ e, e ∈ get_reading_history demo_db ->
        ∃ b, b ∈ get_books demo_db /\ b_id b = e_book_id e /\
             b_genre b = e_genre e /\ b_title b = e_title e).
Proof. exact (store_ok_joins demo_store demo_store_ok). Defined.

(* ===================================================================== *)
(** ** The demo data *)
(* ===================================================================== *)


(** The first request on the demo data: Mystery and Contemporary Fiction
    were read last, so 15 of the 20 books are eligible. *)
Example load_demo_data_recommendations (st st' : Store) :
  load_demo_data st = Done st' ->
  length (eligible_books (st_db st')) = 15%nat /\
  (titles_and_scores <$> get_recommendations (st_db st') 3) =
  Ok [("Circe", PFloat (float_lit (864 # 10)));
      ("The Fifth Season", PFloat (float_lit (8192 # 100)));
      ("Recursion", PFloat (float_lit (7924 # 100)))].
Proof.
  intros H. vm_compute in H. injection H as <-. vm_compute. done.
Qed.

(* ===================================================================== *)
(** ** Substrings and lower case *)
(* ===================================================================== *)

Lemma append_nil (t : string) : EmptyString +:+ t = t.
Proof. reflexivity. Qed.

Lemma append_cons (a : Ascii.ascii) (s t : string) :
  String a s +:+ t = String a (s +:+ t).
Proof. reflexivity. Qed.

Lemma append_assoc (s t u : string) : (s +:+ t) +:+ u = s +:+ (t +:+ u).
Proof.
  induction s as [|a s IH]; [done|]. by rewrite !append_cons, IH.
Qed.

Lemma prefix_occurs (k s : string) :
  String.prefix k s = true <-> ∃ post, s = k +:+ post.
Proof.
  revert s. induction k as [|a k IH]; intros [|b s]; cbn.
  - split; [intros _; by exists EmptyString|done].
  - split; [intros _; by exists (String b s)|done].
  - split; [done|]. intros (post & E). by rewrite append_cons in E.
  - setoid_rewrite append_cons. destruct (Ascii.ascii_dec a b) as [->|Hne].
    + rewrite IH. split; intros (post & E); exists post; congruence.
    + split; [done|]. intros (post & E). congruence.
Qed.

Lemma occurs_in_cons (k : string) (b : Ascii.ascii) (s : string) :
  occurs_in k (String b s) <-> (∃ post, String b s = k +:+ post) \/ occurs_in k s.
Proof.
  split.
  - intros (pre & post & E). destruct pre as [|c pre].
    + left. by exists post.
    + right. exists pre, post. rewrite append_cons in E. congruence.
  - intros [(post & E)|(pre & post & E)].
    + by exists EmptyString, post.
    + exists (String b pre), post. by rewrite append_cons, E.
Qed.

Lemma py_in_occurs (k s : string) : py_in k s = true <-> occurs_in k s.
Proof.
  unfold py_in. induction s as [|b s IH].
  - cbn. destruct k as [|a k]; cbn.
    + split; [intros _; by exists EmptyString, EmptyString|done].
    + split; [done|]. intros (pre & post & E).
      destruct pre; [by rewrite append_nil, append_cons in E|].
      by rewrite append_cons in E.
  - rewrite occurs_in_cons, <- prefix_occurs, <- IH.
    cbn [String.index]. destruct (String.prefix k (String b s)).
    + split; [by left|done].
    + destruct (String.index 0 k s); split; try done; try by right.
      all: by intros [|].
Qed.

Lemma lower_app (s t : string) : lower (s +:+ t) = lower s +:+ lower t.
Proof.
  induction s as [|a s IH]; [done|].
  rewrite append_cons. cbn. by rewrite IH, append_cons.
Qed.

(* ===================================================================== *)
(** ** The keyword scores *)
(* ===================================================================== *)

Lemma dict_set_fresh {V} (d : list (string * V)) (k : string) (v : V) :
  k ∉ d.*1 -> dict_set d k v = d ++ [(k, v)].
Proof.
  induction d as [|[k' v'] d IH]; [done|].
  cbn. rewrite not_elem_of_cons. intros [Hne Hk].
  rewrite decide_False by done. by rewrite IH.
Qed.

Lemma scores_loop_spec (items : list (string * list string)) (combined : string)
    (scores : list (string * Z)) :
  NoDup (scores.*1 ++ items.*1) ->
  scores_loop items combined scores =
  scores ++
  ((fun item => (item.1, keyword_score item.2 combined)) <$>
     filter (fun item => (0 < keyword_score item.2 combined)%Z) items).
Proof.
  revert scores. induction items as [|[genre keywords] items IH]; intros scores Hnd.
  - cbn. by rewrite app_nil_r.
  - cbn [scores_loop]. rewrite filter_cons. cbn [snd].
    case_bool_decide as Hpos.
    + rewrite decide_True by lia.
      assert (Hfresh : genre ∉ scores.*1).
      { apply NoDup_app in Hnd as (_ & Hdis & _). intros Hin.
        apply (Hdis _ Hin). cbn. apply elem_of_cons. by left. }
      rewrite dict_set_fresh by done. rewrite IH.
      * by rewrite <- app_assoc.
      * rewrite fmap_app. cbn. rewrite <- app_assoc. exact Hnd.
    + rewrite decide_False by lia. apply IH.
      cbn in Hnd. apply NoDup_app in Hnd as (H1 & Hdis & H2).
      apply NoDup_app. split; [done|]. split.
      * intros x Hx Hin. apply (Hdis x Hx). apply elem_of_cons. by right.
      * by apply NoDup_cons in H2 as [_ ?].
Qed.

Lemma max_loop_spec (rest : list (string * Z)) :
  ∀ (before : list (string * Z)) (best : string * Z) (between : list (string * Z)),
    Forall (fun x => (x.2 < best.2)%Z) before ->
    Forall (fun x => (x.2 <= best.2)%Z) between ->
    ∃ pre r post,
      before ++ best :: between ++ rest = pre ++ r :: post /\
      max_loop rest best = r.1 /\
      Forall (fun x => (x.2 < r.2)%Z) pre /\
      Forall (fun x => (x.2 <= r.2)%Z) post.
Proof.
  induction rest as [|item rest IH]; intros before best between Hb Hm.
  - exists before, best, between. by rewrite app_nil_r.
  - cbn [max_loop]. case_bool_decide as Hgt.
    + destruct (IH (before ++ best :: between) item []) as (pre & r & post & E & H);
        [|constructor|].
      * apply Forall_app. split.
        { eapply Forall_impl; [exact Hb|]. cbn. lia. }
        constructor; [lia|]. eapply Forall_impl; [exact Hm|]. cbn. lia.
      * exists pre, r, post. split; [|done].
        rewrite <- E. cbn. by rewrite <- app_assoc.
    + destruct (IH before best (between ++ [item])) as (pre & r & post & E & H);
        [done| |].
      * apply Forall_app. split; [done|]. apply Forall_singleton. lia.
      * exists pre, r, post. split; [|done].
        rewrite <- E. by rewrite <- (app_assoc between).
Qed.

Lemma fmap_filter_split {A B} (f : A -> B) (P : A -> Prop) `{!∀ x, Decision (P x)}
    (l : list A) (a : list B) (x : B) (b : list B) :
  f <$> filter P l = a ++ x :: b ->
  ∃ l1 y l2, l = l1 ++ y :: l2 /\ P y /\ f y = x /\
             f <$> filter P l1 = a /\ f <$> filter P l2 = b.
Proof.
  revert a. induction l as [|z l IH]; intros a E.
  - by destruct a.
  - rewrite filter_cons in E. destruct (decide (P z)) as [Hz|Hz].
    + destruct a as [|a0 a]; cbn in E.
      * injection E as E1 E2. exists [], z, l. by rewrite filter_nil.
      * injection E as E1 E2. destruct (IH a E2) as (l1 & y & l2 & -> & Hy & Hf & H1 & H2).
        exists (z :: l1), y, l2. split; [done|]. split; [done|]. split; [done|].
        split; [|done]. rewrite filter_cons_True by done. cbn. by rewrite E1, H1.
    + destruct (IH a E) as (l1 & y & l2 & -> & Hy & Hf & H1 & H2).
      exists (z :: l1), y, l2. split; [done|]. split; [done|]. split; [done|].
      split; [|done]. by rewrite filter_cons_False.
Qed.

Lemma Forall_fmap_filter_score (bound : Z) (rel : Z -> Z -> Prop)
    (score : list string -> Z) (l : list (string * list string)) :
  (0 < bound)%Z -> (∀ z, (z <= 0)%Z -> rel z bound) ->
  Forall (fun x : string * Z => rel x.2 bound)
         ((fun item => (item.1, score item.2)) <$>
            filter (fun item => (0 < score item.2)%Z) l) ->
  Forall (fun item => rel (score item.2) bound) l.
Proof.
  intros Hb Hrel. induction l as [|z l IH]; [constructor|].
  rewrite filter_cons. destruct (decide _) as [Hz|Hz].
  - cbn. intros [H1 H2]%Forall_cons. constructor; [done|by apply IH].
  - intros H. constructor; [apply Hrel; lia|by apply IH].
Qed.

Lemma keyword_score_pos (keywords : list string) (combined : string) :
  (0 < keyword_score keywords combined)%Z <->
  ∃ keyword, keyword ∈ keywords /\ occurs_in keyword combined.
Proof.
  unfold keyword_score. split.
  - intros Hpos. destruct (filter _ keywords) as [|k l] eqn:E; [cbn in Hpos; lia|].
    assert (Hk : k ∈ filter (fun keyword => py_in keyword combined = true) keywords).
    { rewrite E. apply elem_of_cons. by left. }
    apply list_elem_of_filter in Hk as [Hk Hin]. exists k. split; [done|].
    by apply py_in_occurs.
  - intros (k & Hin & Hocc).
    assert (Hk : k ∈ filter (fun keyword => py_in keyword combined = true) keywords).
    { apply list_elem_of_filter. split; [by apply py_in_occurs|done]. }
    destruct (filter _ keywords); [by apply elem_of_nil in Hk|]. cbn. lia.
Qed.

Lemma suggest_genre_cases (title author : string) :
  let combined := lower title +:+ " " +:+ lower author in
  let score := fun keywords => keyword_score keywords combined in
  (suggest_genre title author = "Unspecified" /\
   ∀ genre keywords keyword,
     (genre, keywords) ∈ GENRE_KEYWORDS -> keyword ∈ keywords ->
     ¬ occurs_in keyword combined) \/
  (∃ earlier keywords later,
     GENRE_KEYWORDS = earlier ++ (suggest_genre title author, keywords) :: later /\
     (∃ keyword, keyword ∈ keywords /\ occurs_in keyword combined) /\
     Forall (fun item => (score item.2 < score keywords)%Z) earlier /\
     Forall (fun item => (score item.2 <= score keywords)%Z) later).
Proof.
  intros combined score. unfold suggest_genre. cbv zeta. fold combined.
  assert (Hnd : NoDup (([] : list (string * Z)).*1 ++ GENRE_KEYWORDS.*1)).
  { apply (bool_decide_unpack _). vm_compute. exact I. }
  rewrite (scores_loop_spec GENRE_KEYWORDS combined [] Hnd), app_nil_l.
  generalize GENRE_KEYWORDS. intros items.
  destruct (_ <$> filter _ items) as [|first rest] eqn:E.
  - left. split; [done|]. intros genre keywords keyword Hin Hk Hocc.
    apply fmap_nil_inv in E.
    assert (Hf : (genre, keywords) ∈
                 filter (fun item => (0 < keyword_score item.2 combined)%Z) items).
    { apply list_elem_of_filter. split; [|done]. cbn.
      apply keyword_score_pos. by exists keyword. }
    rewrite E in Hf. by apply elem_of_nil in Hf.
  - right.
    destruct (max_loop_spec rest [] first []) as (pre & r & post & Er & -> & Hpre & Hpost);
      [constructor..|].
    cbn in Er. rewrite Er in E.
    apply fmap_filter_split in E as (l1 & [g kws] & l2 & -> & Hpos & <- & H1 & H2).
    cbn in Hpos. cbn [fst snd] in *.
    exists l1, kws, l2. split; [done|]. split; [by apply keyword_score_pos|].
    rewrite <- H1 in Hpre. rewrite <- H2 in Hpost. split.
    + apply (Forall_fmap_filter_score _ Z.lt score l1 Hpos); [intros; unfold score; lia|done].
    + apply (Forall_fmap_filter_score _ Z.le score l2 Hpos); [intros; unfold score; lia|done].
Qed.

Lemma ascii_lower_idem (c : Ascii.ascii) : ascii_lower (ascii_lower c) = ascii_lower c.
Proof. destruct c as [[] [] [] [] [] [] [] []]; reflexivity. Qed.

Lemma lower_idem (s : string) : lower (lower s) = lower s.
Proof. induction s as [|a s IH]; cbn; [done|]. by rewrite ascii_lower_idem, IH. Qed.

(** X22: for a title and an author of ASCII text, [suggest_genre]
    returns 'Unspecified' exactly when no keyword of [GENRE_KEYWORDS] occurs
    in the lower-cased title and author joined by a space; otherwise it
    returns a genre with at least one keyword occurring whose number of
    matching keywords is strictly above that of every genre listed
    earlier and not below that of any genre listed later.  Lower-casing
    the arguments first does not change the result. *)
Theorem suggest_genre_spec (title author : string) :
  ascii_text title = true -> ascii_text author = true ->
  let combined := lower title +:+ " " +:+ lower author in
  let score := fun keywords => keyword_score keywords combined in
  ((suggest_genre title author = "Unspecified" /\
    ∀ genre keywords keyword,
      (genre, keywords) ∈ GENRE_KEYWORDS -> keyword ∈ keywords ->
      ¬ occurs_in keyword combined) \/
   (∃ earlier keywords later,
      GENRE_KEYWORDS = earlier ++ (suggest_genre title author, keywords) :: later /\
      (∃ keyword, keyword ∈ keywords /\ occurs_in keyword combined) /\
      Forall (fun item => (score item.2 < score keywords)%Z) earlier /\
      Forall (fun item => (score item.2 <= score keywords)%Z) later)) /\
  suggest_genre (lower title) (lower author) = suggest_genre title author.
Proof.
  intros _ _. split; [apply suggest_genre_cases|].
  unfold suggest_genre. by rewrite !lower_idem.
Qed.

Lemma suggest_genre_spec_witness :
  let combined := lower "The Dark Tower" +:+ " " +:+ lower "Stephen King" in
  let score := fun keywords => keyword_score keywords combined in
  ((suggest_genre "The Dark Tower" "Stephen King" = "Unspecified" /\
    ∀ genre keywords keyword,
      (genre, keywords) ∈ GENRE_KEYWORDS -> keyword ∈ keywords ->
      ¬ occurs_in keyword combined) \/
   (∃ earlier keywords later,
      GENRE_KEYWORDS =
        earlier ++ (suggest_genre "The Dark Tower" "Stephen King", keywords) :: later /\
      (∃ keyword, keyword ∈ keywords /\ occurs_in keyword combined) /\
      Forall (fun item => (score item.2 < score keywords)%Z) earlier /\
      Forall (fun item => (score item.2 <= score keywords)%Z) later)) /\
  suggest_genre (lower "The Dark Tower") (lower "Stephen King")
    = suggest_genre "The Dark Tower" "Stephen King".
Proof.
  apply (suggest_genre_spec "The Dark Tower" "Stephen King"); reflexivity.
Defined.

(** X23: a title that contains a keyword of [GENRE_KEYWORDS], in any mix
    of upper and lower case, always gets a genre of [GENRE_KEYWORDS] as
    suggestion, never 'Unspecified'. *)
Theorem suggest_genre_keyword_in_title (title author genre : string)
    (keywords : list string) (keyword spelled pre post : string) :
  (genre, keywords) ∈ GENRE_KEYWORDS -> keyword ∈ keywords ->
  lower spelled = keyword -> title = pre +:+ spelled +:+ post ->
  suggest_genre title author ∈ GENRE_KEYWORDS.*1.
Proof.
  intros Hg Hk Hl ->.
  destruct (suggest_genre_cases (pre +:+ spelled +:+ post) author)
    as [[_ Hnone]|(earlier & kws & later & E & _)].
  - exfalso. apply (Hnone genre keywords keyword Hg Hk).
    exists (lower pre), (lower post +:+ " " +:+ lower author).
    rewrite !lower_app, Hl. by rewrite !append_assoc.
  - rewrite E. rewrite fmap_app, fmap_cons. apply elem_of_app. right.
    apply elem_of_cons. by left.
Qed.

Lemma suggest_genre_keyword_in_title_witness :
  suggest_genre "The DARK Tower" "Stephen King" ∈ GENRE_KEYWORDS.*1.
Proof.
  apply (suggest_genre_keyword_in_title "The DARK Tower" "Stephen King" "Thriller"
           ["dark"; "lies"; "lying"; "secret"; "shadow"; "vanishing"]
           "dark" "DARK" "The " " Tower").
  - apply (bool_decide_unpack _). vm_compute. exact I.
  - apply (bool_decide_unpack _). vm_compute. exact I.
  - reflexivity.
  - reflexivity.
Defined.

Example suggest_genre_samples :
  suggest_genre "The Dark Tower" "Stephen King" = "Thriller" /\
  suggest_genre "A Court of Thorns and Roses" "Sarah J. Maas" = "Unspecified" /\
  suggest_genre "Raven" "Scholar" = "Historical Fiction" /\
  suggest_genre "LOVERS in the DARK" "" = "Romance" /\
  suggest_genre "Blood and Death in the Dark" "" = "Horror".
Proof. vm_compute. done. Qed.

(* ===================================================================== *)
(** ** The genre menu *)
(* ===================================================================== *)

Lemma py_sorted_set_spec (xs : list string) :
  (∀ g, g ∈ py_sorted_set xs <-> g ∈ xs) /\
  StronglySorted (fun x y => String.ltb x y = true) (py_sorted_set xs) /\
  NoDup (py_sorted_set xs).
Proof.
  unfold py_sorted_set. split_and!.
  - intros g. by rewrite stable_sort_perm, elem_of_elements, elem_of_list_to_set.
  - apply stable_sort_strings_strict, NoDup_elements.
  - rewrite stable_sort_perm. apply NoDup_elements.
Qed.

(** X24: the genre menu of [update_book_genres] holds exactly the genres
    of [GENRE_KEYWORDS] and the genres of the pool other than
    'Unspecified', in strictly increasing order; 'Unspecified' is never
    offered. *)
Theorem all_genres_menu (db : Database) :
  (∀ g, g ∈ all_genres db <->
        g ∈ GENRE_KEYWORDS.*1 \/
        (g ≠ "Unspecified" /\ ∃ b, b ∈ get_books db /\ b_genre b = g)) /\
  StronglySorted (fun x y => String.ltb x y = true) (all_genres db) /\
  "Unspecified" ∉ all_genres db.
Proof.
  unfold all_genres. cbv zeta.
  destruct (py_sorted_set_spec
              (elements (list_to_set (b_genre <$> filter (fun b => b_genre b ≠ "Unspecified")
                                                         (get_books db)) : gset string)
               ++ GENRE_KEYWORDS.*1)) as (Hin & Hs & _).
  assert (Hiff : ∀ g, g ∈ py_sorted_set
              (elements (list_to_set (b_genre <$> filter (fun b => b_genre b ≠ "Unspecified")
                                                         (get_books db)) : gset string)
               ++ GENRE_KEYWORDS.*1) <->
        g ∈ GENRE_KEYWORDS.*1 \/
        (g ≠ "Unspecified" /\ ∃ b, b ∈ get_books db /\ b_genre b = g)).
  { intros g. rewrite Hin, elem_of_app, elem_of_elements, elem_of_list_to_set.
    rewrite list_elem_of_fmap. split.
    - intros [(b & -> & [Hne Hb]%list_elem_of_filter)|Hk]; [right|by left].
      split; [done|]. by exists b.
    - intros [Hk|(Hne & b & Hb & <-)]; [by right|left].
      exists b. split; [done|]. by apply list_elem_of_filter. }
  split; [done|]. split; [done|].
  rewrite Hiff. intros [Hk|[Hne _]]; [|done].
  revert Hk. apply (bool_decide_unpack _). vm_compute. exact I.
Qed.

(* ===================================================================== *)
(** ** The pages of the interface *)
(* ===================================================================== *)

(** X25: for no option of the navigation box does the page chain reach
    the Home branch or the Reading History branch: their tests compare
    with labels that carry an emoji, so the options 'Home' and
    'Reading History' run no branch at all. *)
Theorem page_body_of_options (page : string) :
  page ∈ navigation_options ->
  page_body_of page ≠ HomePage /\ page_body_of page ≠ ReadingHistoryPage /\
  (page = "Home" \/ page = "Reading History" -> page_body_of page = NoPage).
Proof.
  unfold navigation_options. rewrite !elem_of_cons, elem_of_nil.
  intros [->|[->|[->|[->|[->|[]]]]]]; vm_compute; split_and!; try done.
  all: intros [|]; done.
Qed.

Lemma page_body_of_options_witness :
  page_body_of "Home" ≠ HomePage /\ page_body_of "Home" ≠ ReadingHistoryPage /\
  ("Home" = "Home" \/ "Home" = "Reading History" -> page_body_of "Home" = NoPage).
Proof.
  apply (page_body_of_options "Home").
  apply (bool_decide_unpack _). vm_compute. exact I.
Defined.

(* ===================================================================== *)
(** ** Counting genres *)
(* ===================================================================== *)

Lemma dict_get_set {V} (d : list (string * V)) (k g : string) (v : V) :
  dict_get (dict_set d k v) g = if decide (k = g) then Some v else dict_get d g.
Proof.
  induction d as [|[k' v'] d IH]; cbn.
  - done.
  - destruct (decide (k' = k)) as [->|Hne]; cbn.
    + by destruct (decide (k = g)).
    + destruct (decide (k' = g)) as [->|Hne'].
      * by rewrite decide_False by done.
      * exact IH.
Qed.

Lemma dict_set_keys {V} (d : list (string * V)) (k : string) (v : V) :
  (dict_set d k v).*1 = if decide (k ∈ d.*1) then d.*1 else d.*1 ++ [k].
Proof.
  induction d as [|[k' v'] d IH]; cbn; [done|].
  destruct (decide (k' = k)) as [->|Hne]; cbn.
  - rewrite decide_True; [done|]. apply elem_of_cons. by left.
  - rewrite IH. destruct (decide (k ∈ d.*1)) as [Hin|Hnin].
    + rewrite decide_True; [done|]. apply elem_of_cons. by right.
    + rewrite decide_False; [done|]. rewrite not_elem_of_cons. split; [congruence|done].
Qed.

Lemma dict_set_NoDup {V} (d : list (string * V)) (k : string) (v : V) :
  NoDup d.*1 -> NoDup (dict_set d k v).*1.
Proof.
  intros Hnd. rewrite dict_set_keys. case_decide; [done|].
  apply NoDup_app. split; [done|]. split; [|apply NoDup_singleton].
  intros x Hx ->%list_elem_of_singleton. done.
Qed.

Lemma dict_get_elem {V} (d : list (string * V)) (k : string) (v : V) :
  NoDup d.*1 -> (k, v) ∈ d <-> dict_get d k = Some v.
Proof.
  induction d as [|[k' v'] d IH]; intros Hnd.
  - cbn. split; [by intros ?%elem_of_nil|done].
  - cbn in Hnd. apply NoDup_cons in Hnd as [Hk' Hnd]. cbn.
    rewrite elem_of_cons. destruct (decide (k' = k)) as [->|Hne].
    + split.
      * intros [[= ->]|Hin]; [done|]. exfalso. apply Hk'.
        apply list_elem_of_fmap. by exists (k, v).
      * intros [= ->]. by left.
    + rewrite <- (IH Hnd). split; [|by right]. intros [[= -> ->]|Hin]; done.
Qed.

Lemma dict_set_sum (d : list (string * Z)) (k : string) (v : Z) :
  sum_Z (dict_set d k v).*2 = (sum_Z d.*2 - default 0 (dict_get d k) + v)%Z.
Proof.
  induction d as [|[k' v'] d IH]; cbn; [lia|].
  destruct (decide (k' = k)) as [->|Hne]; cbn; [lia|].
  fold (sum_Z (dict_set d k v).*2). fold (sum_Z d.*2). lia.
Qed.

Lemma count_genre_cons (g : string) (e : history_entry) (history : list history_entry) :
  count_genre g (e :: history) =
  ((if decide (e_genre e = g) then 1 else 0) + count_genre g history)%Z.
Proof.
  unfold count_genre. rewrite filter_cons.
  repeat case_decide; try done.
  by rewrite length_cons, Nat2Z.inj_succ, Z.add_1_l.
Qed.

Lemma count_genre_nonneg g history : (0 <= count_genre g history)%Z.
Proof. unfold count_genre. apply Nat2Z.is_nonneg. Qed.

Lemma genre_counts_loop_spec (history : list history_entry) :
  ∀ genre_counts : list (string * Z),
    NoDup genre_counts.*1 ->
    Forall (fun x => (0 < x.2)%Z) genre_counts ->
    let result := genre_counts_loop history genre_counts in
    NoDup result.*1 /\
    Forall (fun x => (0 < x.2)%Z) result /\
    (∀ g, default 0%Z (dict_get result g) =
          (default 0 (dict_get genre_counts g) + count_genre g history)%Z) /\
    sum_Z result.*2 = (sum_Z genre_counts.*2 + Z.of_nat (length history))%Z.
Proof.
  induction history as [|e history IH]; intros acc Hnd Hpos; cbn zeta.
  - cbn [genre_counts_loop]. split; [done|]. split; [done|]. split.
    + intros g. unfold count_genre. rewrite filter_nil. cbn [length]. lia.
    + cbn [length]. lia.
  - cbn [genre_counts_loop]. unfold dict_get_default.
    set (acc' := dict_set acc (e_genre e) (default 0 (dict_get acc (e_genre e)) + 1)%Z).
    assert (Hge : (0 <= default 0 (dict_get acc (e_genre e)))%Z).
    { destruct (dict_get acc (e_genre e)) as [v|] eqn:E; cbn; [|done].
      apply dict_get_elem in E; [|done].
      rewrite Forall_forall in Hpos. specialize (Hpos _ E). cbn in Hpos. lia. }
    assert (Hpos' : Forall (fun x => (0 < x.2)%Z) acc').
    { rewrite Forall_forall. intros [g v] Hin.
      assert (Hnd' : NoDup acc'.*1) by (by apply dict_set_NoDup).
      apply (dict_get_elem _ _ _ Hnd') in Hin. unfold acc' in Hin.
      rewrite dict_get_set in Hin. cbn. case_decide.
      - injection Hin as <-. lia.
      - apply dict_get_elem in Hin; [|done].
        rewrite Forall_forall in Hpos. apply (Hpos _ Hin). }
    destruct (IH acc' (dict_set_NoDup _ _ _ Hnd) Hpos') as (H1 & H2 & H3 & H4).
    split; [done|]. split; [done|]. split.
    + intros g. rewrite H3, count_genre_cons. unfold acc'. rewrite dict_get_set.
      case_decide as Hg; cbn; [subst g|]; lia.
    + rewrite H4. unfold acc'. rewrite dict_set_sum, length_cons. lia.
Qed.

Lemma py_sort_perm {A} (key : A -> pynum) (reverse : bool) (l : list A) :
  py_sort key reverse l ≡ₚ l.
Proof.
  unfold py_sort. destruct reverse.
  - by rewrite reverse_Permutation, stable_sort_perm, reverse_Permutation.
  - apply stable_sort_perm.
Qed.

Lemma py_sort_int_desc {A} (key : A -> Z) (l : list A) :
  StronglySorted (fun x y => (key y <= key x)%Z) (py_sort (fun x => PInt (key x)) true l).
Proof.
  assert (Hlt : ∀ x y : A, py_lt (PInt (key x)) (PInt (key y)) = bool_decide (key x < key y)%Z).
  { intros x y. unfold py_lt. cbn. destruct (Qle_bool _ _) eqn:E; cbn.
    - apply Qle_bool_iff in E. rewrite <- Zle_Qle in E.
      by rewrite bool_decide_eq_false_2 by lia.
    - rewrite bool_decide_eq_true_2; [done|].
      destruct (Z_lt_le_dec (key x) (key y)) as [|Hle]; [done|].
      rewrite Zle_Qle in Hle. apply Qle_bool_iff in Hle. congruence. }
  unfold py_sort.
  apply (StronglySorted_reverse (fun x y => (key x <= key y)%Z)).
  eapply StronglySorted_impl; last apply stable_sort_sorted.
  - intros x y. unfold sort_le. rewrite Hlt, bool_decide_eq_false. lia.
  - intros x y. rewrite !Hlt, bool_decide_eq_true, bool_decide_eq_false. lia.
  - intros x y z. unfold sort_le. rewrite !Hlt, !bool_decide_eq_false. lia.
Qed.

(** X26: the genre distribution of the Reading History page lists each
    genre of the history once, with the number of history entries of that
    genre; the counts add up to the length of the history and are listed
    in non-increasing order. *)
Theorem genre_distribution_spec (history : list history_entry) :
  let distribution := genre_distribution history in
  NoDup distribution.*1 /\
  (∀ g n, (g, n) ∈ distribution <-> n = count_genre g history /\ (0 < n)%Z) /\
  sum_Z distribution.*2 = Z.of_nat (length history) /\
  StronglySorted (fun x y => (y.2 <= x.2)%Z) distribution.
Proof.
  cbv zeta. unfold genre_distribution. cbv zeta.
  destruct (genre_counts_loop_spec history [] (NoDup_nil_2 : NoDup ([] : list (string * Z)).*1)
              (Forall_nil_2 _)) as (Hnd & Hpos & Hget & Hsum).
  cbv zeta in *.
  set (counts := genre_counts_loop history []) in *.
  pose proof (py_sort_perm (fun x : string * Z => PInt x.2) true counts) as Hp.
  split_and!.
  - by rewrite Hp.
  - intros g n. rewrite Hp. rewrite (dict_get_elem _ _ _ Hnd).
    specialize (Hget g). cbn in Hget. split.
    + intros E. rewrite E in Hget. cbn in Hget. split; [lia|].
      apply dict_get_elem in E; [|done].
      rewrite Forall_forall in Hpos. apply (Hpos _ E).
    + intros [-> Hn]. destruct (dict_get counts g) as [v|]; cbn in Hget; [|lia].
      f_equal. lia.
  - assert (Hp2 : (py_sort (fun x : string * Z => PInt x.2) true counts).*2 ≡ₚ counts.*2)
      by (by rewrite Hp).
    transitivity (sum_Z counts.*2); [|rewrite Hsum; cbn; lia].
    clear -Hp2. unfold sum_Z. induction Hp2; cbn; try lia.
  - apply (py_sort_int_desc snd).
Qed.

Lemma filter_idemp_app {A} (P : A -> Prop) `{!∀ x, Decision (P x)} (l : list A) (x : A) :
  ¬ P x -> filter P (filter P l ++ [x]) = filter P l.
Proof.
  intros Hx. rewrite filter_app, filter_cons_False, filter_nil, app_nil_r by done.
  rewrite list_filter_filter. apply list_filter_iff. tauto.
Qed.

(** Two vetoes of one member for one round: the rows the model keeps. *)
Lemma add_veto_twice_tables (st st1 st2 : Store) (member_id : Z)
    (genre1 genre2 : string) (round_number : Z) :
  add_veto st member_id genre1 round_number = Done st1 ->
  add_veto st1 member_id genre2 round_number = Done st2 ->
  ∃ st2', add_veto st member_id genre2 round_number = Done st2' /\
          st_db st2 = st_db st2'.
Proof.
  unfold add_veto. cbv zeta. intros H1 H2.
  repeat case_bool_decide; try done.
  injection H1 as <-. injection H2 as <-. cbn in *.
  eexists. split; [reflexivity|]. cbn. f_equal. f_equal.
  apply filter_idemp_app. cbn. tauto.
Qed.

(** X27: the latest veto wins: after saving a veto and then another one
    for the same member and round, the vetoes of every round (up to the
    order of the rows) and the result of every recommendation request are
    those that saving only the second one gives.  The stores differ in the
    sequence of [vetoes]: the surviving row has the later id. *)
Theorem add_veto_latest_wins (st st1 st2 : Store) (member_id : Z)
    (genre1 genre2 : string) (round_number : Z) :
  add_veto st member_id genre1 round_number = Done st1 ->
  add_veto st1 member_id genre2 round_number = Done st2 ->
  ∃ st2', add_veto st member_id genre2 round_number = Done st2' /\
          (∀ r, get_vetoes (st_db st2) r ≡ₚ get_vetoes (st_db st2') r) /\
          (∀ n, get_recommendations (st_db st2) n
                = get_recommendations (st_db st2') n) /\
          next_veto_id st2 = (next_veto_id st2' + 1)%Z.
Proof.
  intros H1 H2.
  destruct (add_veto_twice_tables _ _ _ _ _ _ _ H1 H2) as (st2' & H & E).
  exists st2'. split; [done|]. rewrite E. split; [done|]. split; [done|].
  revert H1 H2 H. unfold add_veto. cbv zeta.
  repeat case_bool_decide; try done.
  intros [= <-] [= <-] [= <-]. done.
Qed.

Lemma add_veto_latest_wins_witness :
  ∃ st1 st2 st2',
    add_veto demo_store 1 "Fantasy" 2 = Done st1 /\
    add_veto st1 1 "Mystery" 2 = Done st2 /\
    add_veto demo_store 1 "Mystery" 2 = Done st2' /\
    (∀ r, get_vetoes (st_db st2) r ≡ₚ get_vetoes (st_db st2') r) /\
    (∀ n, get_recommendations (st_db st2) n = get_recommendations (st_db st2') n) /\
    next_veto_id st2 = (next_veto_id st2' + 1)%Z.
Proof.
  eexists. eexists.
  destruct (add_veto_latest_wins demo_store _ _ 1 "Fantasy" "Mystery" 2 eq_refl eq_refl)
    as (st2' & H1 & H2).
  exists st2'. split; [reflexivity|]. split; [reflexivity|]. split; [exact H1|exact H2].
Defined.
